(** * Contact records and their repositories

    A shallow embedding of the contact-record layer of the personal page:
    the [Contacto] domain object (con_framework/js/contacto/domain/Contacto.js),
    the localStorage-backed [ContactRepository] and the [ContactFacade]
    (con_framework/js/contacto/facade/ContactFacade.js), and the three
    variants of the framework-free [ContactoRepository]: the in-memory one
    (sin_framework/js/capaAccesoADatos/repositorios/contactoRepository.js)
    and the two storage-backed ones in the source files without a name,
    part_000 and part_001, the latter with its facade.

    Host model.  A JavaScript string is a [string] whose characters are read
    as code units 0..255 (Latin-1).  An ISO-8601 timestamp is modelled by the
    instant it denotes, in milliseconds ([Z]); an absent or empty timestamp
    field is [None].  The text held under the storage key is modelled by what
    [JSON.parse] makes of it ([text]); [JSON.stringify] followed by
    [JSON.parse] is the identity on arrays of records.  [localStorage.setItem]
    always succeeds.  The DOM (toasts, inline field errors) is outside the
    model. *)

From Stdlib Require Import ZArith String Ascii List Bool Lia DecimalString.
From stdpp Require Import base list strings.

Local Open Scope string_scope.
Local Open Scope Z_scope.

(** ** Strings of the host *)

Module JsString.

(** [WhiteSpace] and [LineTerminator] code units below 256: TAB, LF, VT,
    FF, CR, SP and NBSP.  This is what [String.prototype.trim] strips and
    what the regular-expression class [\s] matches. *)
Definition is_space (c : ascii) : bool :=
  let n := nat_of_ascii c in
  ((9 <=? n)%nat && (n <=? 13)%nat) || (n =? 32)%nat || (n =? 160)%nat.

(** The regular-expression class [\d]. *)
Definition is_digit (c : ascii) : bool :=
  let n := nat_of_ascii c in (48 <=? n)%nat && (n <=? 57)%nat.

(** Letters that [toLowerCase] moves: A-Z and the Latin-1 capitals
    U+00C0..U+00DE without the multiplication sign U+00D7. *)
Definition is_upper (c : ascii) : bool :=
  let n := nat_of_ascii c in
  ((65 <=? n)%nat && (n <=? 90)%nat)
  || ((192 <=? n)%nat && (n <=? 222)%nat && negb (n =? 215)%nat).

Definition lower_char (c : ascii) : ascii :=
  if is_upper c then ascii_of_nat (nat_of_ascii c + 32) else c.

(** The string with [f] applied to each character. *)
Fixpoint map_chars (f : ascii -> ascii) (s : string) : string :=
  match s with
  | EmptyString => EmptyString
  | String c r => String (f c) (map_chars f r)
  end.

Definition toLowerCase (s : string) : string := map_chars lower_char s.

Fixpoint trimStart (s : string) : string :=
  match s with
  | EmptyString => EmptyString
  | String c r => if is_space c then trimStart r else s
  end.

Fixpoint trimEnd (s : string) : string :=
  match s with
  | EmptyString => EmptyString
  | String c r =>
      match trimEnd r with
      | EmptyString => if is_space c then EmptyString else String c EmptyString
      | r' => String c r'
      end
  end.

Definition trim (s : string) : string := trimEnd (trimStart s).

(** Only white space; white space in front; white space at the end. *)
Fixpoint all_space (s : string) : bool :=
  match s with
  | EmptyString => true
  | String c r => is_space c && all_space r
  end.

Definition starts_with_space (s : string) : bool :=
  match s with
  | EmptyString => false
  | String c _ => is_space c
  end.

Fixpoint ends_with_space (s : string) : bool :=
  match s with
  | EmptyString => false
  | String c EmptyString => is_space c
  | String _ r => ends_with_space r
  end.

(** [s.length] *)
Definition len (s : string) : Z := Z.of_nat (String.length s).

(** Truthiness of a string: only the empty string is falsy. *)
Definition truthy (s : string) : bool :=
  match s with EmptyString => false | _ => true end.

(** [a || b] on strings. *)
Definition or_else (a b : string) : string := if truthy a then a else b.

End JsString.

(** ** Regular expressions of the validators

    A matcher by derivatives, enough for the two anchored patterns of
    [Contacto.validate]. *)

Module RegExp.

Inductive re : Type :=
| Never : re
| Empty : re
| Class (p : ascii -> bool) : re
| Cat (r1 r2 : re) : re
| Alt (r1 r2 : re) : re
| Star (r : re) : re.

Fixpoint nullable (r : re) : bool :=
  match r with
  | Never => false
  | Empty => true
  | Class _ => false
  | Cat r1 r2 => nullable r1 && nullable r2
  | Alt r1 r2 => nullable r1 || nullable r2
  | Star _ => true
  end.

Fixpoint deriv (c : ascii) (r : re) : re :=
  match r with
  | Never => Never
  | Empty => Never
  | Class p => if p c then Empty else Never
  | Cat r1 r2 =>
      if nullable r1
      then Alt (Cat (deriv c r1) r2) (deriv c r2)
      else Cat (deriv c r1) r2
  | Alt r1 r2 => Alt (deriv c r1) (deriv c r2)
  | Star r1 => Cat (deriv c r1) (Star r1)
  end.

(** [/^r$/.test(s)] *)
Fixpoint test (r : re) (s : string) : bool :=
  match s with
  | EmptyString => nullable r
  | String c s' => test (deriv c r) s'
  end.

Definition Plus (r : re) : re := Cat r (Star r).
Definition Opt (r : re) : re := Alt r Empty.
Definition Chr (a : ascii) : re := Class (Ascii.eqb a).

(** [r{n}] and [r{0,n}] *)
Fixpoint Times (n : nat) (r : re) : re :=
  match n with O => Empty | S k => Cat r (Times k r) end.
Fixpoint UpTo (n : nat) (r : re) : re :=
  match n with O => Empty | S k => Opt (Cat r (UpTo k r)) end.
Definition Between (lo hi : nat) (r : re) : re :=
  Cat (Times lo r) (UpTo (hi - lo) r).

(** The strings a regular expression denotes. *)
Inductive matches : re -> string -> Prop :=
| m_empty : matches Empty EmptyString
| m_class p c : p c = true -> matches (Class p) (String c EmptyString)
| m_cat r1 r2 s1 s2 :
    matches r1 s1 -> matches r2 s2 -> matches (Cat r1 r2) (s1 ++ s2)
| m_alt_l r1 r2 s : matches r1 s -> matches (Alt r1 r2) s
| m_alt_r r1 r2 s : matches r2 s -> matches (Alt r1 r2) s
| m_star_nil r : matches (Star r) EmptyString
| m_star_cons r s1 s2 :
    matches r s1 -> matches (Star r) s2 -> matches (Star r) (s1 ++ s2).

(** Every character class of [r] gives the same answer on [c] and [f c]. *)
Fixpoint respects (f : ascii -> ascii) (r : re) : Prop :=
  match r with
  | Never | Empty => True
  | Class p => forall c, p (f c) = p c
  | Cat r1 r2 | Alt r1 r2 => respects f r1 /\ respects f r2
  | Star r1 => respects f r1
  end.

End RegExp.

(** ** The domain object (Contacto.js) *)

Module Contacto.
Import JsString RegExp.

(** The plain object a form or a parsed JSON element provides.  A string
    field that is absent reads as the empty string (every use goes through
    [|| '']); an absent timestamp is [None]. *)
Record ContactData : Type := mkData {
  d_id : string;
  d_nombre : string;
  d_email : string;
  d_telefono : string;
  d_asunto : string;
  d_mensaje : string;
  d_preferenciaContacto : string;
  d_aceptaTerminos : bool;
  d_fechaCreacion : option Z;
  d_fechaActualizacion : option Z
}.

(** An instance of the class. *)
Record t : Type := mk {
  id : string;
  nombre : string;
  email : string;
  telefono : string;
  asunto : string;
  mensaje : string;
  preferenciaContacto : string;
  aceptaTerminos : bool;
  fechaCreacion : Z;
  fechaActualizacion : Z
}.

(** [/^[^\s@]+@[^\s@]+\.[^\s@]+$/] *)
Definition not_space_at (c : ascii) : bool :=
  negb (is_space c) && negb (Ascii.eqb c "@").
Definition emailRegex : re :=
  Cat (Plus (Class not_space_at))
    (Cat (Chr "@")
       (Cat (Plus (Class not_space_at))
          (Cat (Chr ".") (Plus (Class not_space_at))))).

(** [/^[\+]?[\d\s\-\(\)]{7,15}$/] *)
Definition phone_char (c : ascii) : bool :=
  is_digit c || is_space c || Ascii.eqb c "-" || Ascii.eqb c "("
  || Ascii.eqb c ")".
Definition phoneRegex : re :=
  Cat (Opt (Chr "+")) (Between 7 15 (Class phone_char)).

Definition preferencasValidas : list string :=
  ["Email"; "Telefono"; "WhatsApp"].

Definition includes (l : list string) (s : string) : bool :=
  existsb (String.eqb s) l.

(** One entry of [validate().errors]: the field and the message. *)
Definition FieldError : Type := (string * string)%type.

Definition check_nombre (c : t) : list FieldError :=
  let n := len (trim (nombre c)) in
  if n =? 0 then [("nombre", "El nombre es obligatorio")]
  else if n <? 2 then [("nombre", "El nombre debe tener al menos 2 caracteres")]
  else if 100 <? n then [("nombre", "El nombre no puede exceder 100 caracteres")]
  else [].

Definition check_email (c : t) : list FieldError :=
  if len (trim (email c)) =? 0
  then [("email", "El correo electrónico es obligatorio")]
  else if test emailRegex (trim (email c)) then []
  else [("email", "El formato del correo electrónico no es válido")].

Definition check_telefono (c : t) : list FieldError :=
  if truthy (telefono c) && (0 <? len (trim (telefono c)))
  then if test phoneRegex (trim (telefono c)) then []
       else [("telefono", "El formato del teléfono no es válido")]
  else [].

Definition check_asunto (c : t) : list FieldError :=
  if len (trim (asunto c)) =? 0
  then [("asunto", "Debe seleccionar un asunto de contacto")]
  else [].

Definition check_mensaje (c : t) : list FieldError :=
  if truthy (mensaje c) && (1000 <? len (trim (mensaje c)))
  then [("mensaje", "El mensaje no puede exceder 1000 caracteres")]
  else [].

Definition check_terms (c : t) : list FieldError :=
  if aceptaTerminos c then []
  else [("terms", "Debe aceptar los términos y condiciones")].

Definition check_preferencia (c : t) : list FieldError :=
  if includes preferencasValidas (preferenciaContacto c) then []
  else [("preferenciaContacto",
         "Debe seleccionar una preferencia de contacto válida")].

(** [validate().errors], in the order the method pushes them. *)
Definition errors (c : t) : list FieldError :=
  check_nombre c ++ check_email c ++ check_telefono c ++ check_asunto c
  ++ check_mensaje c ++ check_terms c ++ check_preferencia c.

(** [validate().isValid] *)
Definition isValid (c : t) : bool :=
  match errors c with [] => true | _ => false end.

(** [toJSON()] *)
Definition toJSON (c : t) : ContactData :=
  {| d_id := id c;
     d_nombre := trim (nombre c);
     d_email := toLowerCase (trim (email c));
     d_telefono := trim (telefono c);
     d_asunto := asunto c;
     d_mensaje := trim (mensaje c);
     d_preferenciaContacto := preferenciaContacto c;
     d_aceptaTerminos := aceptaTerminos c;
     d_fechaCreacion := Some (fechaCreacion c);
     d_fechaActualizacion := Some (fechaActualizacion c) |}.

(** [wasModified()] *)
Definition wasModified (c : t) : bool :=
  negb (fechaCreacion c =? fechaActualizacion c).

End Contacto.

(** ** Effects: a state and exception monad *)

Module Eff.

(** What can be thrown. *)
Inductive exn : Type :=
| Error (message : string)
| TypeError (message : string)
| SyntaxError (message : string)
| ReferenceError (message : string)
| QuotaExceededError.

Definition name (e : exn) : string :=
  match e with
  | Error _ => "Error"
  | TypeError _ => "TypeError"
  | SyntaxError _ => "SyntaxError"
  | ReferenceError _ => "ReferenceError"
  | QuotaExceededError => "QuotaExceededError"
  end.

Definition message (e : exn) : string :=
  match e with
  | Error m | TypeError m | SyntaxError m | ReferenceError m => m
  | QuotaExceededError => "The quota has been exceeded."
  end.

Inductive result (A : Type) : Type :=
| Ok (a : A)
| Throw (e : exn).
Arguments Ok {A} a.
Arguments Throw {A} e.

Definition M (S A : Type) : Type := S -> result A * S.

Definition ret {S A} (a : A) : M S A := fun w => (Ok a, w).

Definition bind {S A B} (m : M S A) (k : A -> M S B) : M S B :=
  fun w => match m w with
           | (Ok a, w') => k a w'
           | (Throw e, w') => (Throw e, w')
           end.

Definition throw {S A} (e : exn) : M S A := fun w => (Throw e, w).

(** [try { body } catch (error) { handler }] *)
Definition try_catch {S A} (body : M S A) (handler : exn -> M S A) : M S A :=
  fun w => match body w with
           | (Ok a, w') => (Ok a, w')
           | (Throw e, w') => handler e w'
           end.

Notation "x <- m ;; k" := (bind m (fun x => k))
  (at level 100, m at next level, right associativity).
Notation "m ;;; k" := (bind m (fun _ => k))
  (at level 100, right associativity).

(** [l.map(f)] with an effectful callback. *)
Fixpoint mapM {S A B} (f : A -> M S B) (l : list A) : M S (list B) :=
  match l with
  | [] => ret []
  | x :: r => y <- f x ;; ys <- mapM f r ;; ret (y :: ys)
  end.

(** [l.forEach(x => ...)] with the variables the callback updates. *)
Fixpoint forEach {S A T} (f : T -> A -> M S T) (st : T) (l : list A) : M S T :=
  match l with
  | [] => ret st
  | x :: r => st' <- f st x ;; forEach f st' r
  end.

(** Decimal rendering of a number, as in a template literal or [String(n)]. *)
Definition decimal (n : Z) : string := NilZero.string_of_int (Z.to_int n).

End Eff.

(** ** The browser: storage, console, clock and random source *)

Module Host.
Import Contacto.
Export Eff.

(** A parsed JSON document, as far as the repository tells documents
    apart: a falsy value ([null], [false], [0], the empty string), an array
    whose elements are [null] or objects, or anything else. *)
Inductive json : Type :=
| JFalsy
| JNonArray
| JArray (elems : list (option ContactData)).

(** A text: one [JSON.parse] rejects, or one that denotes a document. *)
Inductive text : Type :=
| Unparseable (raw : string)
| Json (v : json).

Inductive level : Type := Log | Warn | Err.

Record World : Type := mkWorld {
  localStorage : option text;       (* the item under 'contactos' *)
  console : list (level * string);  (* oldest first *)
  clock : nat -> Z;                 (* the n-th reading of the clock *)
  ticks : nat;                      (* readings taken so far *)
  entropy : nat -> string;          (* the n-th random suffix *)
  draws : nat                       (* suffixes drawn so far *)
}.

Abbreviation M := (Eff.M World).

Definition getItem : M (option text) := fun w => (Ok (localStorage w), w).

Definition setItem (v : text) : M unit :=
  fun w => (Ok tt, mkWorld (Some v) (console w) (clock w) (ticks w)
                     (entropy w) (draws w)).

Definition console_write (l : level) (label : string) : M unit :=
  fun w => (Ok tt, mkWorld (localStorage w) (console w ++ [(l, label)])
                     (clock w) (ticks w) (entropy w) (draws w)).
Definition console_log := console_write Log.
Definition console_warn := console_write Warn.
Definition console_error := console_write Err.

(** [Date.now()], and the instant of [new Date()]. *)
Definition Date_now : M Z :=
  fun w => (Ok (clock w (ticks w)),
            mkWorld (localStorage w) (console w) (clock w) (S (ticks w))
              (entropy w) (draws w)).

(** [Math.random().toString(36).substr(2, 9)] *)
Definition random_suffix : M string :=
  fun w => (Ok (entropy w (draws w)),
            mkWorld (localStorage w) (console w) (clock w) (ticks w)
              (entropy w) (S (draws w))).

(** [JSON.parse(data)]; [JSON.parse(null)] is [null]. *)
Definition JSON_parse (data : option text) : M json :=
  match data with
  | None => ret JFalsy
  | Some (Unparseable _) => throw (SyntaxError "Unexpected token")
  | Some (Json v) => ret v
  end.

(** [JSON.stringify] of an array of plain records. *)
Definition JSON_stringify (l : list ContactData) : text :=
  Json (JArray (map Some l)).

(** [!item] for what [getItem] returns. *)
Definition item_missing (data : option text) : bool :=
  match data with
  | None => true
  | Some (Unparseable EmptyString) => true
  | _ => false
  end.

End Host.

(** ** The constructor and the clock-reading methods of [Contacto] *)

Module ContactoClass.
Import JsString Contacto Host.

(** [generateId()] *)
Definition generateId : M string :=
  now <- Date_now ;;
  r <- random_suffix ;;
  ret ("contact_" ++ decimal now ++ "_" ++ r).

(** [new Date().toISOString()] *)
Definition new_Date_toISOString : M Z := Date_now.

(** [data.f || new Date().toISOString()] *)
Definition or_now (o : option Z) : M Z :=
  match o with Some x => ret x | None => new_Date_toISOString end.

(** [new Contacto(data)] *)
Definition new (data : ContactData) : M Contacto.t :=
  i <- (if truthy (d_id data) then ret (d_id data) else generateId) ;;
  fc <- or_now (d_fechaCreacion data) ;;
  fa <- or_now (d_fechaActualizacion data) ;;
  ret {| id := i;
         nombre := d_nombre data;
         email := d_email data;
         telefono := d_telefono data;
         asunto := d_asunto data;
         mensaje := d_mensaje data;
         preferenciaContacto := or_else (d_preferenciaContacto data) "Email";
         aceptaTerminos := d_aceptaTerminos data;
         fechaCreacion := fc;
         fechaActualizacion := fa |}.

(** [Contacto.fromJSON(jsonData)]: reading a property of [null] throws. *)
Definition fromJSON (e : option ContactData) : M Contacto.t :=
  match e with
  | Some d => new d
  | None => throw (TypeError "Cannot read properties of null (reading 'id')")
  end.

(** [touch()] *)
Definition touch (c : Contacto.t) : M Contacto.t :=
  now <- new_Date_toISOString ;;
  ret {| id := id c; nombre := nombre c; email := email c;
         telefono := telefono c; asunto := asunto c; mensaje := mensaje c;
         preferenciaContacto := preferenciaContacto c;
         aceptaTerminos := aceptaTerminos c;
         fechaCreacion := fechaCreacion c;
         fechaActualizacion := now |}.

Definition plural (n : Z) : string := if 1 <? n then "s" else "".

(** [getTimeAgo()] *)
Definition getTimeAgo (c : Contacto.t) : M string :=
  now <- Date_now ;;
  let diffTime := Z.abs (now - fechaCreacion c) in
  let diffDays := diffTime / (1000 * 60 * 60 * 24) in
  let diffHours := (diffTime mod (1000 * 60 * 60 * 24)) / (1000 * 60 * 60) in
  let diffMinutes := (diffTime mod (1000 * 60 * 60)) / (1000 * 60) in
  ret (if 0 <? diffDays
       then "hace " ++ decimal diffDays ++ " día" ++ plural diffDays
       else if 0 <? diffHours
       then "hace " ++ decimal diffHours ++ " hora" ++ plural diffHours
       else if 0 <? diffMinutes
       then "hace " ++ decimal diffMinutes ++ " minuto" ++ plural diffMinutes
       else "hace un momento").

Record Summary : Type := mkSummary {
  s_id : string; s_nombre : string; s_email : string; s_asunto : string;
  s_fechaCreacion : string; s_wasModified : bool
}.

(** [getSummary()] *)
Definition getSummary (c : Contacto.t) : M Summary :=
  ago <- getTimeAgo c ;;
  ret (mkSummary (id c) (nombre c) (email c) (asunto c) ago (wasModified c)).

End ContactoClass.

(** ** Arrays of the host *)

Module JsArray.

(** [l.findIndex(p)]: the first index whose element satisfies [p], or -1. *)
Fixpoint findIndex {A} (p : A -> bool) (l : list A) : Z :=
  match l with
  | [] => -1
  | x :: r =>
      if p x then 0
      else let i := findIndex p r in if i =? -1 then -1 else i + 1
  end.

(** [l[i] = x] for an index inside the array. *)
Definition set_at {A} (l : list A) (i : Z) (x : A) : list A :=
  <[Z.to_nat i := x]> l.

(** [l.splice(i, 1)] for a non-negative index. *)
Definition splice1 {A} (l : list A) (i : Z) : list A :=
  delete (Z.to_nat i) l.

(** [l.map((x, index) => ...)]: elements paired with their indices. *)
Fixpoint indexed_from {A} (n : Z) (l : list A) : list (Z * A) :=
  match l with
  | [] => []
  | x :: r => (n, x) :: indexed_from (n + 1) r
  end.

(** [l.join(sep)] *)
Definition join (sep : string) (l : list string) : string :=
  String.concat sep l.

End JsArray.

(** ** The repository (ContactFacade.js, class ContactRepository) *)

Module ContactRepository.
Import JsString JsArray Contacto Host ContactoClass.

(** [initializeStorage()] *)
Definition initializeStorage : M unit :=
  data <- getItem ;;
  if item_missing data then setItem (JSON_stringify []) else ret tt.

(** [new ContactRepository()] *)
Definition constructor : M unit := initializeStorage.

(** [handleStorageError()] *)
Definition handleStorageError : M unit :=
  console_warn "Reinicializando almacenamiento debido a errores..." ;;;
  try_catch (setItem (JSON_stringify []))
    (fun _ => console_error "No se pudo reinicializar el almacenamiento:").

(** [JSON.parse(data) || []] *)
Definition or_empty (v : json) : json :=
  match v with JFalsy => JArray [] | _ => v end.

(** [contactsData.map(f)]: only an array has [map]. *)
Definition array_map {B} (v : json) (f : option ContactData -> M B)
  : M (list B) :=
  match v with
  | JArray l => mapM f l
  | _ => throw (TypeError "contactsData.map is not a function")
  end.

(** [getAll()] *)
Definition getAll : M (list Contacto.t) :=
  try_catch
    (data <- getItem ;;
     parsed <- JSON_parse data ;;
     array_map (or_empty parsed) fromJSON)
    (fun error =>
       console_error "Error al obtener contactos:" ;;;
       handleStorageError ;;;
       ret []).

(** [getById(id)] *)
Definition getById (i : string) : M (option Contacto.t) :=
  try_catch
    (contacts <- getAll ;;
     ret (find (fun c => String.eqb (id c) i) contacts))
    (fun error =>
       console_error "Error al obtener contacto por ID:" ;;;
       ret None).

(** [saveToStorage(contacts)] *)
Definition saveToStorage (contacts : list Contacto.t) : M unit :=
  try_catch
    (let data := map toJSON contacts in
     setItem (JSON_stringify data))
    (fun error =>
       if String.eqb (name error) "QuotaExceededError"
       then throw (Error "Espacio de almacenamiento insuficiente. Considere usar IndexedDB para mayor capacidad.")
       else throw error).

(** The guard shared by [add] and [update]. *)
Definition require_valid (contacto : Contacto.t) : M unit :=
  if isValid contacto then ret tt
  else throw (Error ("Contacto inválido: "
                     ++ join ", " (map snd (errors contacto)))).

(** [add(contacto)].  The [instanceof] test holds of every [Contacto.t]. *)
Definition add (contacto : Contacto.t) : M bool :=
  try_catch
    (require_valid contacto ;;;
     existing <- getById (id contacto) ;;
     (match existing with
      | Some _ => throw (Error "Ya existe un contacto con el mismo ID")
      | None => ret tt
      end) ;;;
     contacts <- getAll ;;
     saveToStorage (contacts ++ [contacto]) ;;;
     summary <- getSummary contacto ;;
     console_log "Contacto agregado:" ;;;
     ret true)
    (fun error =>
       console_error "Error al agregar contacto:" ;;;
       throw error).

(** [update(contacto)] *)
Definition update (contacto : Contacto.t) : M bool :=
  try_catch
    (require_valid contacto ;;;
     contacts <- getAll ;;
     let index := findIndex (fun c => String.eqb (id c) (id contacto)) contacts in
     (if index =? -1 then throw (Error "Contacto no encontrado") else ret tt) ;;;
     touched <- touch contacto ;;
     saveToStorage (set_at contacts index touched) ;;;
     summary <- getSummary touched ;;
     console_log "Contacto actualizado:" ;;;
     ret true)
    (fun error =>
       console_error "Error al actualizar contacto:" ;;;
       throw error).

(** [remove(id)] *)
Definition remove (i : string) : M bool :=
  try_catch
    (contacts <- getAll ;;
     let index := findIndex (fun c => String.eqb (id c) i) contacts in
     (if index =? -1 then throw (Error "Contacto no encontrado") else ret tt) ;;;
     let removedContact := contacts !! Z.to_nat index in
     saveToStorage (splice1 contacts index) ;;;
     summary <- match removedContact with
                | Some r => getSummary r
                | None => throw (TypeError "Cannot read properties of undefined (reading 'getSummary')")
                end ;;
     console_log "Contacto eliminado:" ;;;
     ret true)
    (fun error =>
       console_error "Error al eliminar contacto:" ;;;
       throw error).

(** [clear()] *)
Definition clear : M bool :=
  try_catch
    (contacts <- getAll ;;
     let count := Z.of_nat (length contacts) in
     setItem (JSON_stringify []) ;;;
     console_log (decimal count ++ " contactos eliminados") ;;;
     ret true)
    (fun error =>
       console_error "Error al limpiar contactos:" ;;;
       throw error).

(** [count()] *)
Definition count : M Z :=
  try_catch
    (contacts <- getAll ;; ret (Z.of_nat (length contacts)))
    (fun error => console_error "Error al contar contactos:" ;;; ret 0).

(** [existsByEmail(email, excludeId = null)] *)
Definition existsByEmail (mail : string) (excludeId : option string) : M bool :=
  try_catch
    (contacts <- getAll ;;
     ret (existsb
            (fun c =>
               String.eqb (toLowerCase (email c)) (toLowerCase mail)
               && match excludeId with
                  | Some x => negb (String.eqb (id c) x)
                  | None => true
                  end)
            contacts))
    (fun error => console_error "Error al verificar email:" ;;; ret false).

(** [exportToJSON()]; the indentation argument of [JSON.stringify] does
    not change what the text denotes. *)
Definition exportToJSON : M text :=
  try_catch
    (contacts <- getAll ;;
     ret (JSON_stringify (map toJSON contacts)))
    (fun error => console_error "Error al exportar:" ;;; throw error).

Record ImportResult : Type := mkImport {
  imported : Z;
  skipped : Z;
  import_errors : list string;
  total : Z
}.

(** The variables the [forEach] callback of [importFromJSON] updates. *)
Record ImportState : Type := mkImportState {
  currentContacts : list Contacto.t;
  n_imported : Z;
  n_skipped : Z;
  errs : list string
}.

Definition push_error (st : ImportState) (m : string) : ImportState :=
  mkImportState (currentContacts st) (n_imported st) (n_skipped st)
    (errs st ++ [m]).

(** The callback of [data.forEach] in [importFromJSON]. *)
Definition import_one (st : ImportState) (entry : Z * option ContactData)
  : M ImportState :=
  let '(index, contactData) := entry in
  try_catch
    (contacto <- fromJSON contactData ;;
     if negb (isValid contacto)
     then ret (push_error st
                 ("Contacto " ++ decimal (index + 1) ++ ": "
                  ++ join ", " (map snd (errors contacto))))
     else
       existing <- getById (id contacto) ;;
       match existing with
       | Some _ =>
           ret (mkImportState (currentContacts st) (n_imported st)
                  (n_skipped st + 1) (errs st))
       | None =>
           ret (mkImportState (currentContacts st ++ [contacto])
                  (n_imported st + 1) (n_skipped st) (errs st))
       end)
    (fun error =>
       ret (push_error st
              ("Contacto " ++ decimal (index + 1) ++ ": " ++ message error))).

(** [importFromJSON(jsonString)] *)
Definition importFromJSON (jsonString : text) : M ImportResult :=
  try_catch
    (data <- JSON_parse (Some jsonString) ;;
     elems <- match data with
              | JArray l => ret l
              | _ => throw (Error "El JSON debe contener un array de contactos")
              end ;;
     current <- getAll ;;
     st <- forEach import_one (mkImportState current 0 0 [])
             (indexed_from 0 elems) ;;
     saveToStorage (currentContacts st) ;;;
     ret (mkImport (n_imported st) (n_skipped st) (errs st)
            (Z.of_nat (length elems))))
    (fun error => console_error "Error al importar:" ;;; throw error).

(** The per-contact loop of [getStats()]: one clock reading per contact,
    counted as recent when created at most 24 hours before it. *)
Definition stats_step (recent : Z) (contact : Contacto.t) : M Z :=
  now <- Date_now ;;
  ret (if now - fechaCreacion contact <=? 24 * (1000 * 60 * 60)
       then recent + 1 else recent).

(** [getStats()], as the pair of [total] and [recentContacts]. *)
Definition getStats : M (Z * Z) :=
  try_catch
    (contacts <- getAll ;;
     recent <- forEach stats_step 0 contacts ;;
     ret (Z.of_nat (length contacts), recent))
    (fun error => console_error "Error al obtener estadísticas:" ;;; ret (0, 0)).

End ContactRepository.

(** ** The facade (ContactFacade.js, class ContactFacade) *)

Module ContactFacade.
Import JsString JsArray Contacto Host ContactoClass.

(** [validateForm(data)] *)
Definition validateForm (data : ContactData) : M (list FieldError) :=
  tempContact <- ContactoClass.new data ;;
  ret (errors tempContact).

(** [updateStorageStats()].  [getStorageInfo] only reads the item; what it
    returns feeds the log and a toast. *)
Definition updateStorageStats : M unit :=
  try_catch
    (stats <- ContactRepository.getStats ;;
     console_log "Estadísticas:" ;;;
     console_log "Almacenamiento:")
    (fun error => console_error "Error al actualizar estadísticas:").

(** [guardarContacto(datosFormulario)].  The method is [async] and awaits
    nothing: its body runs to the end when it is called, and a rejected
    promise is a throw here. *)
Definition guardarContacto (datosFormulario : ContactData) : M bool :=
  try_catch
    (validationErrors <- validateForm datosFormulario ;;
     (match validationErrors with
      | [] => ret tt
      | _ => throw (Error "Por favor corrija los errores en el formulario")
      end) ;;;
     contacto <- ContactoClass.new datosFormulario ;;
     dup <- ContactRepository.existsByEmail (email contacto) None ;;
     (if dup
      then throw (Error "Ya existe un contacto con ese correo electrónico")
      else ret tt) ;;;
     ContactRepository.add contacto ;;;
     updateStorageStats ;;;
     ret true)
    (fun error =>
       console_error "Error en guardarContacto:" ;;;
       throw error).

End ContactFacade.

(** ** The framework-free implementation *)

Module SinFramework.
Import JsArray.
Export Eff.

(** An identifier as the framework-free code meets it: the number
    [Date.now()] gave, or the string read back from a [data-id]
    attribute. *)
Inductive JsId : Type :=
| IdNum (n : Z)
| IdStr (s : string).

(** [a === b] *)
Definition strict_eq (a b : JsId) : bool :=
  match a, b with
  | IdNum x, IdNum y => x =? y
  | IdStr x, IdStr y => String.eqb x y
  | _, _ => false
  end.

(** [String(a)] *)
Definition String_ (a : JsId) : string :=
  match a with IdNum n => decimal n | IdStr s => s end.

(** Modelled from the spec: the framework-free [Contacto] class is not
    among the sources; only its positional constructor call is
    (part_001, [fachadaContacto]).  The attributes are those of the
    contact record of the data model, in the order of that call, each kept
    as given. *)
Record Contacto : Type := mkContacto {
  id : JsId;
  nombre : string;
  correo : string;
  telefono : string;
  motivo : string;
  mensaje : string;
  aceptaTerminos : bool;
  preferenciaContacto : string;
  fechaCreacion : Z;
  fechaActualizacion : Z
}.

(** [contacto.fechaCreacion = v] *)
Definition set_fechaCreacion (c : Contacto) (v : Z) : Contacto :=
  mkContacto (id c) (nombre c) (correo c) (telefono c) (motivo c)
    (mensaje c) (aceptaTerminos c) (preferenciaContacto c) v
    (fechaActualizacion c).

(** The item under 'contactos': a text [JSON.parse] rejects, or the JSON
    array of records. *)
Inductive text : Type :=
| Unparseable (raw : string)
| JsonArray (l : list Contacto).

Record State : Type := mkState {
  localStorage : option text;   (* the item under 'contactos' *)
  repo : list Contacto;         (* the field [this.repo] *)
  declared : string -> bool;    (* global bindings the page declares *)
  clock : nat -> Z;             (* the n-th reading of the clock *)
  ticks : nat                   (* readings taken so far *)
}.

Abbreviation M := (Eff.M State).

Definition get_repo : M (list Contacto) := fun s => (Ok (repo s), s).

Definition set_repo (l : list Contacto) : M unit :=
  fun s => (Ok tt, mkState (localStorage s) l (declared s) (clock s) (ticks s)).

Definition getItem : M (option text) := fun s => (Ok (localStorage s), s).

Definition setItem (v : text) : M unit :=
  fun s => (Ok tt, mkState (Some v) (repo s) (declared s) (clock s) (ticks s)).

Definition Date_now : M Z :=
  fun s => (Ok (clock s (ticks s)),
            mkState (localStorage s) (repo s) (declared s) (clock s)
              (S (ticks s))).

(** An assignment [x = e] to a name the method does not declare.  Class
    bodies are strict code: the name has to be a binding of the page. *)
Definition assign_undeclared (x : string) : M unit :=
  fun s => if declared s x then (Ok tt, s)
           else (Throw (ReferenceError (x ++ " is not defined")), s).

(** [ToIntegerOrInfinity] of a boolean, as [splice] applies it. *)
Definition bool_to_index (b : bool) : Z := if b then 1 else 0.

(** *** The in-memory repository
    (sin_framework/js/capaAccesoADatos/repositorios/contactoRepository.js) *)
Module Memory.

Definition constructor : M unit := set_repo [].

Definition getAll : M (list Contacto) := get_repo.

Definition getById (i : JsId) : M (option Contacto) :=
  r <- get_repo ;; ret (find (fun c => strict_eq (id c) i) r).

Definition add (contacto : Contacto) : M unit :=
  r <- get_repo ;; set_repo (r ++ [contacto]).

Definition indiceElemento (i : JsId) : M Z :=
  assign_undeclared "indice" ;;;
  assign_undeclared "i" ;;;
  r <- get_repo ;;
  ret (findIndex (fun c => strict_eq (id c) i) r).

Definition update (contacto : Contacto) : M unit :=
  found <- indiceElemento (id contacto) ;;
  assign_undeclared "indice" ;;;
  let indice := found in
  if 0 <? indice
  then r <- get_repo ;; set_repo (set_at r indice contacto)
  else ret tt.

Definition remove (i : JsId) : M unit :=
  found <- indiceElemento i ;;
  assign_undeclared "indice" ;;;
  let indice := 0 <? found in
  if indice
  then r <- get_repo ;; set_repo (splice1 r (bool_to_index indice))
  else ret tt.

(** [this.repo.clear()]: arrays have no method [clear]. *)
Definition clear : M unit :=
  throw (TypeError "this.repo.clear is not a function").

End Memory.

(** [datos ? JSON.parse(datos) : []] *)
Definition parse_or_empty (datos : option text) : M (list Contacto) :=
  match datos with
  | None => ret []
  | Some (Unparseable EmptyString) => ret []
  | Some (Unparseable _) => throw (SyntaxError "Unexpected token")
  | Some (JsonArray l) => ret l
  end.

(** [cargarAlmacenamiento()], the same in both storage-backed variants. *)
Definition cargarAlmacenamiento : M unit :=
  datos <- getItem ;;
  l <- parse_or_empty datos ;;
  set_repo l.

(** [guardarAlmacenamiento()] *)
Definition guardarAlmacenamiento : M unit :=
  r <- get_repo ;; setItem (JsonArray r).

(** *** The first storage-backed repository (part_000) *)
Module StorageV1.

Definition constructor : M unit := cargarAlmacenamiento.

Definition getAll : M (list Contacto) :=
  cargarAlmacenamiento ;;; get_repo.

Definition getById (i : JsId) : M (option Contacto) :=
  cargarAlmacenamiento ;;;
  r <- get_repo ;; ret (find (fun c => strict_eq (id c) i) r).

Definition add (contacto : Contacto) : M unit :=
  cargarAlmacenamiento ;;;
  r <- get_repo ;;
  set_repo (r ++ [contacto]) ;;;
  guardarAlmacenamiento.

Definition indiceElemento (i : JsId) : M Z :=
  cargarAlmacenamiento ;;;
  assign_undeclared "indice" ;;;
  assign_undeclared "i" ;;;
  r <- get_repo ;;
  ret (findIndex (fun c => strict_eq (id c) i) r).

(** The method also writes [fechaCreacion] into the object it was
    given; the model keeps the copy that is stored. *)
Definition update (contacto : Contacto) : M bool :=
  cargarAlmacenamiento ;;;
  found <- indiceElemento (id contacto) ;;
  assign_undeclared "indice" ;;;
  let indice := found in
  if 0 <? indice
  then
    r <- get_repo ;;
    match r !! Z.to_nat indice with
    | Some old =>
        set_repo (set_at r indice
                    (set_fechaCreacion contacto (fechaCreacion old))) ;;;
        guardarAlmacenamiento ;;;
        ret true
    | None =>
        throw (TypeError "Cannot read properties of undefined (reading 'fechaCreacion')")
    end
  else ret false.

Definition remove (i : JsId) : M bool :=
  cargarAlmacenamiento ;;;
  found <- indiceElemento i ;;
  assign_undeclared "indice" ;;;
  let indice := 0 <? found in
  if indice
  then
    r <- get_repo ;;
    set_repo (splice1 r (bool_to_index indice)) ;;;
    guardarAlmacenamiento ;;;
    ret true
  else ret false.

Definition clear : M unit :=
  set_repo [] ;;; guardarAlmacenamiento.

End StorageV1.

(** *** The second storage-backed repository and its facade (part_001) *)
Module Storage.

Definition constructor : M unit := cargarAlmacenamiento.

Definition getAll : M (list Contacto) :=
  cargarAlmacenamiento ;;; get_repo.

Definition getById (i : JsId) : M (option Contacto) :=
  cargarAlmacenamiento ;;;
  r <- get_repo ;; ret (find (fun c => strict_eq (id c) i) r).

Definition add (contacto : Contacto) : M unit :=
  cargarAlmacenamiento ;;;
  r <- get_repo ;;
  set_repo (r ++ [contacto]) ;;;
  guardarAlmacenamiento.

Definition indiceElemento (i : JsId) : M Z :=
  cargarAlmacenamiento ;;;
  r <- get_repo ;;
  ret (findIndex (fun c => String.eqb (String_ (id c)) (String_ i)) r).

Definition update (contacto : Contacto) : M bool :=
  cargarAlmacenamiento ;;;
  indiceActualizar <- indiceElemento (id contacto) ;;
  if 0 <? indiceActualizar
  then
    r <- get_repo ;;
    match r !! Z.to_nat indiceActualizar with
    | Some old =>
        set_repo (set_at r indiceActualizar
                    (set_fechaCreacion contacto (fechaCreacion old))) ;;;
        guardarAlmacenamiento ;;;
        ret true
    | None =>
        throw (TypeError "Cannot read properties of undefined (reading 'fechaCreacion')")
    end
  else ret false.

Definition remove (i : JsId) : M bool :=
  cargarAlmacenamiento ;;;
  indiceEliminar <- indiceElemento i ;;
  if negb (indiceEliminar =? -1)
  then
    r <- get_repo ;;
    set_repo (splice1 r indiceEliminar) ;;;
    guardarAlmacenamiento ;;;
    ret true
  else ret false.

Definition clear : M unit :=
  set_repo [] ;;; guardarAlmacenamiento.

(** The object the form handler passes to the facade. *)
Record Formulario : Type := mkFormulario {
  f_id : JsId;
  f_nombre : string;
  f_correo : string;
  f_telefono : string;
  f_motivo : string;
  f_mensaje : string;
  f_aceptaTerminos : bool;
  f_preferenciaContacto : string
}.

(** [fachadaContacto.guardarContacto(datosFormulario)] *)
Definition guardarContacto (datos : Formulario) : M Contacto :=
  i <- Date_now ;;
  fc <- Date_now ;;
  fa <- Date_now ;;
  let nuevoContacto :=
    mkContacto (IdNum i) (f_nombre datos) (f_correo datos)
      (f_telefono datos) (f_motivo datos) (f_mensaje datos)
      (f_aceptaTerminos datos) (f_preferenciaContacto datos) fc fa in
  add nuevoContacto ;;;
  ret nuevoContacto.

Definition listarContactos : M (list Contacto) := getAll.
Definition eliminarContacto (i : JsId) : M bool := remove i.
Definition borrarTodo : M unit := clear.

(** [fachadaContacto.actualizarContacto(datosFormulario)] *)
Definition actualizarContacto (datos : Formulario) : M bool :=
  fc <- Date_now ;;
  fa <- Date_now ;;
  update
    (mkContacto (f_id datos) (f_nombre datos) (f_correo datos)
       (f_telefono datos) (f_motivo datos) (f_mensaje datos)
       (f_aceptaTerminos datos) (f_preferenciaContacto datos) fc fa).

End Storage.

End SinFramework.


(** ** Vocabulary of the statements *)

Module Stored.
Import JsString JsArray Contacto Host ContactoClass.

(** A stored object as [saveToStorage] writes it: identifier, preference
    and both timestamps present, text fields trimmed, email in lower case. *)
Definition well_formed (d : ContactData) : bool :=
  truthy (d_id d)
  && truthy (d_preferenciaContacto d)
  && (match d_fechaCreacion d with Some _ => true | None => false end)
  && (match d_fechaActualizacion d with Some _ => true | None => false end)
  && String.eqb (trim (d_nombre d)) (d_nombre d)
  && String.eqb (toLowerCase (trim (d_email d))) (d_email d)
  && String.eqb (trim (d_telefono d)) (d_telefono d)
  && String.eqb (trim (d_mensaje d)) (d_mensaje d).

(** The instance [new Contacto(d)] builds when nothing has to be
    generated. *)
Definition read (d : ContactData) : Contacto.t :=
  {| id := d_id d;
     nombre := d_nombre d;
     email := d_email d;
     telefono := d_telefono d;
     asunto := d_asunto d;
     mensaje := d_mensaje d;
     preferenciaContacto := or_else (d_preferenciaContacto d) "Email";
     aceptaTerminos := d_aceptaTerminos d;
     fechaCreacion := default 0 (d_fechaCreacion d);
     fechaActualizacion := default 0 (d_fechaActualizacion d) |}.

(** The item under the key is the serialization of the records [l]. *)
Definition holds (w : World) (l : list ContactData) : Prop :=
  localStorage w = Some (JSON_stringify l).

(** The collection a read finds under the key: the records of a stored
    array of objects, and nothing for any other item. *)
Fixpoint objects (elems : list (option ContactData)) : option (list ContactData) :=
  match elems with
  | [] => Some []
  | Some d :: r => option_map (cons d) (objects r)
  | None :: _ => None
  end.

Definition collection (w : World) : list ContactData :=
  match localStorage w with
  | Some (Json (JArray elems)) => default [] (objects elems)
  | _ => []
  end.

Definition ids (l : list ContactData) : list string := map d_id l.

(** The index [findIndex] gives for the identifier [i]. *)
Definition index_of (i : string) (l : list ContactData) : Z :=
  findIndex (fun d => String.eqb (d_id d) i) l.

(** The instance after [touch()] at the instant [now]. *)
Definition touched (now : Z) (c : Contacto.t) : Contacto.t :=
  {| id := id c; nombre := nombre c; email := email c;
     telefono := telefono c; asunto := asunto c; mensaje := mensaje c;
     preferenciaContacto := preferenciaContacto c;
     aceptaTerminos := aceptaTerminos c;
     fechaCreacion := fechaCreacion c;
     fechaActualizacion := now |}.

(** The value a computation returns, [dflt] if it throws. *)
Definition value {S A} (dflt : A) (r : result A * S) : A :=
  match fst r with Ok a => a | Throw _ => dflt end.

(** The instance [guardarContacto] hands to the repository: the second
    [new Contacto(datosFormulario)], after the one [validateForm] makes. *)
Definition candidate (d : ContactData) (w : World) : Contacto.t :=
  value (read d) (ContactoClass.new d (snd (ContactoClass.new d w))).

(** [c] carries the fields of the object [d] it was constructed from. *)
Definition built_from (d : ContactData) (c : Contacto.t) : Prop :=
  nombre c = d_nombre d /\ email c = d_email d
  /\ telefono c = d_telefono d /\ asunto c = d_asunto d
  /\ mensaje c = d_mensaje d /\ aceptaTerminos c = d_aceptaTerminos d
  /\ preferenciaContacto c = or_else (d_preferenciaContacto d) "Email"
  /\ truthy (id c) = true
  /\ (truthy (d_id d) = true -> id c = d_id d).

(** Two worlds with the same item under the key. *)
Definition same_store (w w' : World) : Prop :=
  localStorage w' = localStorage w.

(** The world after [setItem], after a line on the console, and after a
    reading of the clock. *)
Definition put (v : text) (w : World) : World :=
  mkWorld (Some v) (console w) (clock w) (ticks w) (entropy w) (draws w).
Definition say (lv : level) (label : string) (w : World) : World :=
  mkWorld (localStorage w) (console w ++ [(lv, label)]) (clock w) (ticks w)
    (entropy w) (draws w).
Definition tick (w : World) : World :=
  mkWorld (localStorage w) (console w) (clock w) (S (ticks w)) (entropy w)
    (draws w).

Definition has_id (i : string) (l : list ContactData) : bool :=
  existsb (fun d => String.eqb (d_id d) i) l.

(** Some record of [l] has the email [mail], letter case aside. *)
Definition has_email (mail : string) (l : list ContactData) : bool :=
  existsb (fun d => String.eqb (toLowerCase (d_email d)) (toLowerCase mail)) l.

(** The outcome of [guardarContacto] for the candidate [c] on the stored
    records [l]: what is returned or thrown, and what the store holds. *)
Definition outcome (c : Contacto.t) (l : list ContactData)
  : result bool * list ContactData :=
  if isValid c then
    if has_email (email c) l
    then (Throw (Error "Ya existe un contacto con ese correo electrónico"), l)
    else if has_id (id c) l
    then (Throw (Error "Ya existe un contacto con el mismo ID"), l)
    else (Ok true, (l ++ [toJSON c])%list)
  else (Throw (Error "Por favor corrija los errores en el formulario"), l).

(** The email is in lower case and the four text inputs are trimmed. *)
Definition normalized (x : Contacto.t) : Prop :=
  toLowerCase (email x) = email x /\ trim (email x) = email x
  /\ trim (nombre x) = nombre x /\ trim (telefono x) = telefono x
  /\ trim (mensaje x) = mensaje x.

(** [l'] is [l] with the element at index [n] replaced by [x] and every
    other position as it was. *)
Definition replaced_at {A} (n : nat) (x : A) (l l' : list A) : Prop :=
  length l' = length l /\ l' !! n = Some x
  /\ forall j, j <> n -> l' !! j = l !! j.

(** All records are well formed and pass [validate]. *)
Definition sound (l : list ContactData) : bool :=
  forallb (fun d => well_formed d && isValid (read d)) l.

(** The objects of a JSON array, [null] elements left out. *)
Fixpoint present (elems : list (option ContactData)) : list ContactData :=
  match elems with
  | [] => []
  | Some d :: r => d :: present r
  | None :: r => present r
  end.

(** The operations of the repository that write. *)
Inductive op : Type :=
| Add (c : Contacto.t)
| Update (c : Contacto.t)
| Remove (i : string)
| Clear
| Import (t : text).

(** The world after an operation; what it throws is left to the caller. *)
Definition perform (o : op) (w : World) : World :=
  match o with
  | Add c => snd (ContactRepository.add c w)
  | Update c => snd (ContactRepository.update c w)
  | Remove i => snd (ContactRepository.remove i w)
  | Clear => snd (ContactRepository.clear w)
  | Import t => snd (ContactRepository.importFromJSON t w)
  end.

Definition run (ops : list op) (w : World) : World :=
  fold_left (fun w' o => perform o w') ops w.

(** The objects of an imported array carry identifiers, each a different
    one. *)
Definition distinct_batch (t : text) : Prop :=
  match t with
  | Json (JArray elems) =>
      forallb (fun d => truthy (d_id d)) (present elems) = true
      /\ List.NoDup (ids (present elems))
  | _ => True
  end.

(** Instances carry an identifier, as [new Contacto] makes them; imported
    arrays are [distinct_batch]. *)
Definition admissible (o : op) : Prop :=
  match o with
  | Add c | Update c => truthy (id c) = true
  | Import t => distinct_batch t
  | Remove _ | Clear => True
  end.

(** Nothing is stored yet: there is no item under the key, or the item is
    the empty array. *)
Definition blank (w : World) : Prop :=
  item_missing (localStorage w) = true \/ holds w [].

(** The world in which a repository object has been constructed. *)
Definition fresh (w : World) : World := snd (ContactRepository.constructor w).

(** The store holds sound records with distinct identifiers. *)
Definition consistent (w : World) : Prop :=
  exists l, holds w l /\ sound l = true /\ List.NoDup (ids l).

End Stored.

(** Vocabulary for the framework-free repositories. *)

Module SinStored.
Import JsArray SinFramework.

(** The item under the key is the JSON array of the records [l]. *)
Definition holds (s : State) (l : list Contacto) : Prop :=
  localStorage s = Some (JsonArray l).

(** The collection under the key; nothing when there is no array. *)
Definition collection (s : State) : list Contacto :=
  match localStorage s with
  | Some (JsonArray l) => l
  | _ => []
  end.

(** The state after [this.repo = l] and after [setItem]. *)
Definition with_repo (l : list Contacto) (s : State) : State :=
  mkState (localStorage s) l (declared s) (clock s) (ticks s).
Definition saved (l : list Contacto) (s : State) : State :=
  mkState (Some (JsonArray l)) l (declared s) (clock s) (ticks s).

(** The index the second storage-backed variant finds for [i]. *)
Definition index_of (i : JsId) (l : list Contacto) : Z :=
  findIndex (fun c => String.eqb (String_ (id c)) (String_ i)) l.

Definition ids (l : list Contacto) : list JsId := map id l.

End SinStored.

(** ** Sample data *)

Module Sample.
Import Contacto Host.

Definition entropy0 (n : nat) : string := "k3j9x0a1b".

(** A world with the item [t] under the key, a silent console and a clock
    that starts at [t0] and advances by one millisecond per reading. *)
Definition world_at (t0 : Z) (t : option text) : World :=
  mkWorld t [] (fun n => t0 + Z.of_nat n) 0 entropy0 0.

Definition world (t : option text) : World := world_at 1700000000000 t.

(** The form data of the example of the specification. *)
Definition ana : ContactData :=
  mkData "" "Ana Ruiz" "Ana@X.com" "" "consulta" "" "Email" true None None.

(** Two stored records. *)
Definition luis : ContactData :=
  mkData "contact_1_a" "Luis Paz" "luis@y.org" "" "trabajo" "hola" "Email"
    true (Some 1000) (Some 1000).
Definition eva : ContactData :=
  mkData "contact_2_b" "Eva Gil" "eva@z.net" "3001234567" "consulta" ""
    "WhatsApp" true (Some 2000) (Some 2000).

Definition two : list ContactData := [luis; eva].

(** Form data that names the identifier of [luis] with another email. *)
Definition luis_again : ContactData :=
  mkData "contact_1_a" "Luis Paz" "luis.paz@y.org" "" "trabajo" "hola" "Email"
    true None None.

(** A valid instance with a new identifier and the email of [luis] in
    capitals. *)
Definition luis_twin : Contacto.t :=
  mk "contact_9_z" "Luis Paz" "LUIS@Y.ORG" "" "trabajo" "hola" "Email" true
    5000 5000.

(** [luis] with an empty name, which [validate] refuses. *)
Definition luis_unnamed : Contacto.t :=
  mk "contact_1_a" "" "luis@y.org" "" "trabajo" "hola" "Email" true 1000 1000.

(** [luis] as an instance with a new message. *)
Definition luis_edited : Contacto.t :=
  mk "contact_1_a" "Luis Paz" "luis@y.org" "" "trabajo" "adios" "Email" true
    1000 1000.

(** Records and states of the framework-free implementation. *)
Definition rosa : SinFramework.Contacto :=
  SinFramework.mkContacto (SinFramework.IdNum 1700000000001) "Rosa Gil"
    "rosa@y.org" "3001234567" "trabajo" "hola" true "Email" 1000 1000.
Definition raul : SinFramework.Contacto :=
  SinFramework.mkContacto (SinFramework.IdNum 1700000000002) "Raul Paz"
    "raul@z.net" "3007654321" "consulta" "buenas" true "Telefono" 2000 2000.
Definition sara : SinFramework.Contacto :=
  SinFramework.mkContacto (SinFramework.IdNum 1700000000003) "Sara Rey"
    "sara@w.com" "3000000000" "otro" "saludos" true "WhatsApp" 3000 3000.

(** [rosa] and [raul] as an update would pass them, with a new message and
    the timestamps of the moment of the update. *)
Definition rosa_edited : SinFramework.Contacto :=
  SinFramework.mkContacto (SinFramework.IdNum 1700000000001) "Rosa Gil"
    "rosa@y.org" "3001234567" "trabajo" "adios" true "Email" 9000 9000.
Definition raul_edited : SinFramework.Contacto :=
  SinFramework.mkContacto (SinFramework.IdNum 1700000000002) "Raul Paz"
    "raul@z.net" "3007654321" "consulta" "adios" true "Telefono" 9000 9000.

(** A state of the page: the item [t] under the key, the array [r] in the
    repository object, and whether the page declares the globals [indice]
    and [i]. *)
Definition state (t : option SinFramework.text)
  (r : list SinFramework.Contacto) (globals : bool) : SinFramework.State :=
  SinFramework.mkState t r (fun _ => globals)
    (fun n => 1700000000000 + Z.of_nat n) 0.

(** The same page at a moment when the clock does not advance between
    readings. *)
Definition state_at_instant (t0 : Z) : SinFramework.State :=
  SinFramework.mkState None [] (fun _ => true) (fun _ => t0) 0.

Definition formulario : SinFramework.Storage.Formulario :=
  SinFramework.Storage.mkFormulario (SinFramework.IdNum 0) "Rosa Gil"
    "rosa@y.org" "3001234567" "trabajo" "hola" true "Email".

End Sample.

(** ** Further methods of the domain object and of the repository *)

Module ContactoMore.
Import JsString JsArray Contacto Host ContactoClass.

(** [clone()] *)
Definition clone (c : Contacto.t) : M Contacto.t :=
  ContactoClass.new (toJSON c).

(** The fields in the order in which [validate] examines them. *)
Definition validated_fields : list string :=
  ["nombre"; "email"; "telefono"; "asunto"; "mensaje"; "terms";
   "preferenciaContacto"].

(** Every character of [s] satisfies [p]. *)
Fixpoint all_chars (p : ascii -> bool) (s : string) : bool :=
  match s with
  | EmptyString => true
  | String c r => p c && all_chars p r
  end.

(** [sub] is at the start of [s]; [s.includes(sub)]. *)
Fixpoint starts_with (sub s : string) : bool :=
  match sub, s with
  | EmptyString, _ => true
  | String a r, String b t => Ascii.eqb a b && starts_with r t
  | String _ _, EmptyString => false
  end.

Fixpoint includes (s sub : string) : bool :=
  starts_with sub s
  || match s with
     | EmptyString => false
     | String _ t => includes t sub
     end.

End ContactoMore.

Module RepositoryMore.
Import JsString JsArray Contacto Host ContactoClass ContactRepository.

Record Integrity : Type := mkIntegrity {
  i_total : Z;
  i_valid : Z;
  i_invalid : Z;
  i_duplicates : Z;
  i_errors : list string
}.

(** The variables the [forEach] callback of [checkIntegrity] updates; the
    [Set] of identifiers seen is kept as a list. *)
Record Tally : Type := mkTally {
  seen : list string;
  t_valid : Z;
  t_invalid : Z;
  t_duplicates : Z;
  t_errors : list string
}.

(** The callback of [contacts.forEach] in [checkIntegrity]. *)
Definition integrity_step (st : Tally) (entry : Z * Contacto.t) : Tally :=
  let '(index, contact) := entry in
  if existsb (String.eqb (id contact)) (seen st)
  then mkTally (seen st) (t_valid st) (t_invalid st) (t_duplicates st + 1)
         (t_errors st
          ++ ["Contacto duplicado en índice " ++ decimal index ++ ": "
              ++ id contact])
  else
    if isValid contact
    then mkTally (seen st ++ [id contact]) (t_valid st + 1) (t_invalid st)
           (t_duplicates st) (t_errors st)
    else mkTally (seen st ++ [id contact]) (t_valid st) (t_invalid st + 1)
           (t_duplicates st)
           (t_errors st
            ++ ["Contacto inválido en índice " ++ decimal index ++ ": "
                ++ join ", " (map snd (errors contact))]).

(** [checkIntegrity()] *)
Definition checkIntegrity : M Integrity :=
  try_catch
    (contacts <- getAll ;;
     let st := fold_left integrity_step (indexed_from 0 contacts)
                 (mkTally [] 0 0 0 []) in
     ret (mkIntegrity (Z.of_nat (length contacts)) (t_valid st)
            (t_invalid st) (t_duplicates st) (t_errors st)))
    (fun error =>
       console_error "Error al verificar integridad:" ;;;
       ret (mkIntegrity 0 0 0 0 ["Error al acceder al almacenamiento"])).

End RepositoryMore.

(** ** The handlers of the facade

    What a handler does to the page is outside the model; what the page
    gives to a handler is a parameter: whether the element 'listaContactos'
    exists and what the user answers to [confirm]. *)

Module ContactFacadeUI.
Import JsString JsArray Contacto Host ContactoClass ContactoMore.

Record Page : Type := mkPage {
  has_list : bool;
  confirms : bool
}.

(** [renderContactList(contacts)]: with the container present and
    contacts to show, the template calls [getTimeAgo] once per contact. *)
Definition renderContactList (p : Page) (contacts : list Contacto.t) : M unit :=
  if negb (has_list p) then ret tt
  else match contacts with
       | [] => ret tt
       | _ => mapM getTimeAgo contacts ;;; ret tt
       end.

(** [updateContactCounter(count, label = null)] *)
Definition updateContactCounter (count : Z) (label : option string) : M unit :=
  console_log (match label with
               | Some l => or_else l ("Total de contactos: " ++ decimal count)
               | None => "Total de contactos: " ++ decimal count
               end).

(** [listarContactos()] *)
Definition listarContactos (p : Page) : M unit :=
  try_catch
    (contacts <- ContactRepository.getAll ;;
     renderContactList p contacts ;;;
     updateContactCounter (Z.of_nat (length contacts)) None)
    (fun error => console_error "Error al listar contactos:").

(** [eliminarContacto(id)] *)
Definition eliminarContacto (p : Page) (i : string) : M unit :=
  try_catch
    (if negb (confirms p) then ret tt
     else
       success <- ContactRepository.remove i ;;
       if success
       then listarContactos p ;;; ContactFacade.updateStorageStats
       else ret tt)
    (fun error => console_error "Error al eliminar contacto:").

(** [borrarTodo()] *)
Definition borrarTodo (p : Page) : M unit :=
  try_catch
    (count <- ContactRepository.count ;;
     if count =? 0 then ret tt
     else if negb (confirms p) then ret tt
     else
       success <- ContactRepository.clear ;;
       if success
       then listarContactos p ;;; ContactFacade.updateStorageStats
       else ret tt)
    (fun error => console_error "Error al borrar todos los contactos:").

(** [handleFormSubmit(event)], with the form data [getFormData] reads. *)
Definition handleFormSubmit (p : Page) (formData : ContactData) : M unit :=
  try_catch
    (success <- ContactFacade.guardarContacto formData ;;
     if success then listarContactos p else ret tt)
    (fun error => ret tt).

(** The test of the [filter] callback in [buscarContactos]. *)
Definition found (searchTerm : string) (contact : Contacto.t) : bool :=
  includes (toLowerCase (nombre contact)) (toLowerCase searchTerm)
  || includes (toLowerCase (email contact)) (toLowerCase searchTerm)
  || includes (toLowerCase (asunto contact)) (toLowerCase searchTerm).

(** [buscarContactos(searchTerm)] *)
Definition buscarContactos (p : Page) (searchTerm : string) : M unit :=
  try_catch
    (if negb (truthy searchTerm) || (len (trim searchTerm) =? 0)
     then listarContactos p
     else
       allContacts <- ContactRepository.getAll ;;
       let filteredContacts := List.filter (found searchTerm) allContacts in
       renderContactList p filteredContacts ;;;
       updateContactCounter (Z.of_nat (length filteredContacts))
         (Some ("Resultados para " ++ String (ascii_of_nat 34) searchTerm
                ++ String (ascii_of_nat 34) EmptyString)))
    (fun error => console_error "Error en búsqueda:").

End ContactFacadeUI.

(** ** Further vocabulary *)

Module Reading.
Import JsString JsArray Contacto Host ContactoClass Stored.

(** The item is one [getAll] can map over: no item, a falsy document, or
    an array without [null] elements. *)
Definition readable (item : option text) : bool :=
  match item with
  | None => true
  | Some (Unparseable _) => false
  | Some (Json JFalsy) => true
  | Some (Json JNonArray) => false
  | Some (Json (JArray elems)) =>
      match objects elems with Some _ => true | None => false end
  end.

(** The records [l] without the first one that has the identifier [i]. *)
Definition without (i : string) (l : list ContactData) : list ContactData :=
  delete (Z.to_nat (index_of i l)) l.

End Reading.

(** ** Further sample data *)

Module Sample2.
Import Contacto Host.

(** The form data [Sample.ana] with white space around the email. *)
Definition ana_spaced : ContactData :=
  mkData "" "Ana Ruiz" " Ana@X.com " "" "consulta" "" "Email" true None None.

(** A world in which the records of [Sample.two] are stored. *)
Definition stocked : World := Sample.world (Some (JSON_stringify Sample.two)).

(** A valid instance whose subject has white space around it. *)
Definition ana_padded : Contacto.t :=
  mk "contact_7_q" "Ana Ruiz" "ana@x.com" "" " consulta " "" "Email" true
    7000 7000.

End Sample2.

(** ** Further vocabulary for the framework-free repositories *)

Module SinMore.
Import JsArray SinFramework SinStored.

(** The method [m] answers the same and leaves the same item under the
    key, whatever array the repository object held before the call. *)
Definition agree {A} (m : M A) (s : State) : Prop :=
  forall r, fst (m (with_repo r s)) = fst (m s)
            /\ localStorage (snd (m (with_repo r s))) = localStorage (snd (m s)).

(** The identifier is a number, as [Date.now()] gives it. *)
Definition numeric (c : Contacto) : bool :=
  match id c with IdNum _ => true | IdStr _ => false end.

(** The page declares the globals [indice] and [i]. *)
Definition globals (s : State) : Prop :=
  declared s "indice" = true /\ declared s "i" = true.

(** The index the [===] comparison of the first variants finds. *)
Definition strict_index (i : JsId) (l : list Contacto) : Z :=
  findIndex (fun c => strict_eq (id c) i) l.

End SinMore.

(** * Properties *)

(** ** Strings *)

Section StringFacts.
Import JsString.

Lemma append_String c (s1 s2 : string) :
  (String c s1 ++ s2)%string = String c (s1 ++ s2)%string.
Proof. reflexivity. Qed.

Lemma append_Empty (s : string) : (EmptyString ++ s)%string = s.
Proof. reflexivity. Qed.

Lemma is_space_lower_char c : is_space (lower_char c) = is_space c.
Proof. destruct c as [[] [] [] [] [] [] [] []]; reflexivity. Qed.

Lemma lower_char_idem c : lower_char (lower_char c) = lower_char c.
Proof. destruct c as [[] [] [] [] [] [] [] []]; reflexivity. Qed.

Lemma toLowerCase_idem s : toLowerCase (toLowerCase s) = toLowerCase s.
Proof.
  unfold toLowerCase. induction s as [|c r IH]; simpl; [reflexivity|].
  now rewrite lower_char_idem, IH.
Qed.

Lemma length_map_chars f s : String.length (map_chars f s) = String.length s.
Proof. induction s as [|c r IH]; simpl; congruence. Qed.

Lemma len_toLowerCase s : len (toLowerCase s) = len s.
Proof. unfold len, toLowerCase. now rewrite length_map_chars. Qed.

Lemma trimStart_lower s : trimStart (toLowerCase s) = toLowerCase (trimStart s).
Proof.
  unfold toLowerCase. induction s as [|c r IH]; simpl; [reflexivity|].
  rewrite is_space_lower_char. destruct (is_space c); [exact IH | reflexivity].
Qed.

Lemma trimEnd_lower s : trimEnd (toLowerCase s) = toLowerCase (trimEnd s).
Proof.
  unfold toLowerCase. induction s as [|c r IH]; simpl; [reflexivity|].
  rewrite IH, is_space_lower_char.
  destruct (trimEnd r); simpl; [destruct (is_space c)|]; reflexivity.
Qed.

Lemma trim_lower s : trim (toLowerCase s) = toLowerCase (trim s).
Proof. unfold trim. now rewrite trimStart_lower, trimEnd_lower. Qed.

Lemma trimStart_idem s : trimStart (trimStart s) = trimStart s.
Proof.
  induction s as [|c r IH]; simpl; [reflexivity|].
  destruct (is_space c) eqn:E; [exact IH|]. simpl. now rewrite E.
Qed.

Lemma trimEnd_idem s : trimEnd (trimEnd s) = trimEnd s.
Proof.
  induction s as [|c r IH]; simpl; [reflexivity|].
  destruct (trimEnd r) as [|c' r'] eqn:E.
  - destruct (is_space c) eqn:Ec; simpl; [reflexivity|]. now rewrite Ec.
  - simpl in IH |- *. destruct (trimEnd r') eqn:E'.
    + destruct (is_space c'); [discriminate|]. now rewrite IH.
    + now rewrite IH.
Qed.

Lemma length_trimStart s : (String.length (trimStart s) <= String.length s)%nat.
Proof.
  induction s as [|c r IH]; simpl; [lia|]. destruct (is_space c); simpl; lia.
Qed.

(** A string that does not start with a space keeps its first character
    under [trimEnd]. *)
Lemma trimStart_trimEnd_fixed s :
  trimStart s = s -> trimStart (trimEnd s) = trimEnd s.
Proof.
  destruct s as [|c r]; simpl; [reflexivity|].
  destruct (is_space c) eqn:E.
  - intros H. exfalso. pose proof (length_trimStart r) as L.
    rewrite H in L. simpl in L. lia.
  - intros _. destruct (trimEnd r); simpl; now rewrite E.
Qed.

Lemma trim_idem s : trim (trim s) = trim s.
Proof.
  unfold trim.
  rewrite (trimStart_trimEnd_fixed (trimStart s)) by apply trimStart_idem.
  apply trimEnd_idem.
Qed.

Lemma trimStart_spec s :
  exists pre, s = (pre ++ trimStart s)%string /\ all_space pre = true
              /\ starts_with_space (trimStart s) = false.
Proof.
  induction s as [|c r (pre & E & A & N)]; simpl.
  - exists EmptyString. auto.
  - destruct (is_space c) eqn:Ec.
    + exists (String c pre). rewrite append_String, <- E. simpl. rewrite Ec. auto.
    + exists EmptyString. simpl. auto.
Qed.

Lemma trimEnd_spec s :
  exists post, s = (trimEnd s ++ post)%string /\ all_space post = true
               /\ ends_with_space (trimEnd s) = false.
Proof.
  induction s as [|c r (post & E & A & N)]; simpl.
  - exists EmptyString. auto.
  - destruct (trimEnd r) as [|c' r'] eqn:Er.
    + rewrite append_Empty in E. subst post.
      destruct (is_space c) eqn:Ec.
      * exists (String c r). rewrite append_Empty. simpl. rewrite Ec. auto.
      * exists r. rewrite append_String, append_Empty. simpl. auto.
    + exists post. rewrite append_String, <- E. auto.
Qed.

Lemma trimEnd_starts s :
  starts_with_space s = false -> starts_with_space (trimEnd s) = false.
Proof.
  destruct s as [|c r]; simpl; [auto|]. intros Ec.
  destruct (trimEnd r); simpl; [rewrite Ec|]; auto.
Qed.

(** What [trim] returns: the string without the white space at both
    ends. *)
Lemma trim_spec s :
  exists pre post,
    s = (pre ++ trim s ++ post)%string
    /\ all_space pre = true /\ all_space post = true
    /\ starts_with_space (trim s) = false
    /\ ends_with_space (trim s) = false.
Proof.
  destruct (trimStart_spec s) as (pre & E1 & A1 & N1).
  destruct (trimEnd_spec (trimStart s)) as (post & E2 & A2 & N2).
  exists pre, post. unfold trim. rewrite <- E2, <- E1.
  repeat split; auto. now apply trimEnd_starts.
Qed.

Lemma truthy_len s : truthy s = (0 <? len s).
Proof. destruct s; reflexivity. Qed.

Lemma len_zero s : (len s =? 0) = negb (truthy s).
Proof. destruct s; reflexivity. Qed.

Lemma truthy_trim s : truthy (trim s) = true -> truthy s = true.
Proof. destruct s; [discriminate | reflexivity]. Qed.

End StringFacts.

(** ** Regular expressions *)

Section RegExpSemantics.
Import RegExp.

Lemma append_empty_inv (s1 s2 : string) :
  (s1 ++ s2)%string = EmptyString -> s1 = EmptyString /\ s2 = EmptyString.
Proof. destruct s1; simpl; [auto | discriminate]. Qed.

Lemma matches_class_inv p s :
  matches (Class p) s -> exists c, s = String c EmptyString /\ p c = true.
Proof. inversion 1; subst; eauto. Qed.

Lemma matches_cat_inv r1 r2 s :
  matches (Cat r1 r2) s ->
  exists s1 s2, s = (s1 ++ s2)%string /\ matches r1 s1 /\ matches r2 s2.
Proof. inversion 1; subst; eauto. Qed.

Lemma matches_alt_inv r1 r2 s :
  matches (Alt r1 r2) s -> matches r1 s \/ matches r2 s.
Proof. inversion 1; subst; auto. Qed.

Lemma nullable_matches r : nullable r = true <-> matches r EmptyString.
Proof.
  induction r as [| |p|r1 IH1 r2 IH2|r1 IH1 r2 IH2|r1 IH1]; simpl.
  - split; [discriminate | inversion 1].
  - split; [constructor | reflexivity].
  - split; [discriminate|].
    intros (c & E & _)%matches_class_inv. discriminate.
  - rewrite andb_true_iff, IH1, IH2. split.
    + intros [H1 H2]. apply (m_cat r1 r2 EmptyString EmptyString H1 H2).
    + intros (s1 & s2 & E & H1 & H2)%matches_cat_inv. symmetry in E.
      apply append_empty_inv in E as [-> ->]. auto.
  - rewrite orb_true_iff, IH1, IH2. split.
    + intros [H|H]; [now apply m_alt_l | now apply m_alt_r].
    + apply matches_alt_inv.
  - split; [constructor | reflexivity].
Qed.

(** A non-empty match of a star starts with a non-empty match of its
    body. *)
Lemma star_matches_cons r c s :
  matches (Star r) (String c s) ->
  exists s1 s2, s = (s1 ++ s2)%string
                /\ matches r (String c s1) /\ matches (Star r) s2.
Proof.
  intros H. remember (Star r) as r' eqn:Er. remember (String c s) as t eqn:Et.
  revert s Et.
  induction H as [|p c0 Hp|r1 r2 s1 s2 H1 IH1 H2 IH2|r1 r2 s0 H0 IH0
                 |r1 r2 s0 H0 IH0|r0|r0 s1 s2 H1 IH1 H2 IH2];
    intros s Et; try discriminate.
  injection Er as ->. destruct s1 as [|c1 s1].
  - rewrite append_Empty in Et. apply IH2; [reflexivity | exact Et].
  - rewrite append_String in Et. injection Et as -> <-. exists s1, s2. auto.
Qed.

Lemma deriv_matches r c : forall s,
  matches (deriv c r) s <-> matches r (String c s).
Proof.
  induction r as [| |p|r1 IH1 r2 IH2|r1 IH1 r2 IH2|r1 IH1]; intros s; simpl.
  - split; inversion 1.
  - split; inversion 1.
  - destruct (p c) eqn:Pc; split.
    + inversion 1; subst. now constructor.
    + intros (c' & [= <- ->] & _)%matches_class_inv. constructor.
    + inversion 1.
    + intros (c' & [= <- ->] & P)%matches_class_inv. congruence.
  - assert (L : matches (Cat (deriv c r1) r2) s -> matches (Cat r1 r2) (String c s)).
    { intros (s1 & s2 & -> & H1 & H2)%matches_cat_inv.
      apply IH1 in H1. apply (m_cat r1 r2 (String c s1) s2 H1 H2). }
    assert (R : matches (Cat r1 r2) (String c s) ->
                matches (Cat (deriv c r1) r2) s
                \/ (matches r1 EmptyString /\ matches (deriv c r2) s)).
    { intros (s1 & s2 & E & H1 & H2)%matches_cat_inv.
      destruct s1 as [|c1 s1].
      - rewrite append_Empty in E. subst s2. right.
        split; [exact H1 | now apply IH2].
      - rewrite append_String in E. injection E as <- ->. left.
        apply m_cat; [now apply IH1 | exact H2]. }
    destruct (nullable r1) eqn:N.
    + split.
      * intros [H|H]%matches_alt_inv; [now apply L|].
        apply nullable_matches in N.
        apply (m_cat r1 r2 EmptyString (String c s) N). now apply IH2.
      * intros H. destruct (R H) as [H'|[_ H']];
          [now apply m_alt_l | now apply m_alt_r].
    + split; [exact L|].
      intros H. destruct (R H) as [H'|[H' _]]; [exact H'|].
      apply nullable_matches in H'. congruence.
  - split.
    + intros [H|H]%matches_alt_inv;
        [apply m_alt_l; now apply IH1 | apply m_alt_r; now apply IH2].
    + intros [H|H]%matches_alt_inv;
        [apply m_alt_l; now apply IH1 | apply m_alt_r; now apply IH2].
  - split.
    + intros (s1 & s2 & -> & H1 & H2)%matches_cat_inv.
      apply IH1 in H1. apply (m_star_cons r1 (String c s1) s2 H1 H2).
    + intros H. destruct (star_matches_cons r1 c s H) as (s1 & s2 & -> & H1 & H2).
      apply m_cat; [now apply IH1 | exact H2].
Qed.

(** The matcher decides the denotation. *)
Lemma test_matches r s : test r s = true <-> matches r s.
Proof.
  revert r. induction s as [|c s IH]; intros r; simpl.
  - apply nullable_matches.
  - rewrite IH. apply deriv_matches.
Qed.

End RegExpSemantics.

Section RegExpFacts.
Import JsString RegExp.

Variable f : ascii -> ascii.

Lemma deriv_respects r c : respects f r -> deriv (f c) r = deriv c r.
Proof.
  induction r as [| |p|r1 IH1 r2 IH2|r1 IH1 r2 IH2|r1 IH1]; simpl; intros H.
  - reflexivity.
  - reflexivity.
  - now rewrite H.
  - destruct H as [H1 H2]. now rewrite IH1, IH2.
  - destruct H as [H1 H2]. now rewrite IH1, IH2.
  - now rewrite IH1.
Qed.

Lemma respects_deriv r c : respects f r -> respects f (deriv c r).
Proof.
  induction r as [| |p|r1 IH1 r2 IH2|r1 IH1 r2 IH2|r1 IH1]; simpl; intros H.
  - exact I.
  - exact I.
  - destruct (p c); exact I.
  - destruct H as [H1 H2]. destruct (nullable r1); simpl; auto.
  - destruct H as [H1 H2]. auto.
  - auto.
Qed.

Lemma test_respects r s : respects f r -> test r (map_chars f s) = test r s.
Proof.
  revert r. induction s as [|c s IH]; simpl; intros r H; [reflexivity|].
  rewrite deriv_respects by exact H. apply IH. now apply respects_deriv.
Qed.

End RegExpFacts.

(** ** The domain object *)

Section ContactoFacts.
Import JsString RegExp Contacto Host ContactoClass Stored.

Lemma emailRegex_lower s : test emailRegex (toLowerCase s) = test emailRegex s.
Proof.
  apply test_respects. unfold emailRegex, Plus, Chr; simpl.
  repeat split; intros c; destruct c as [[] [] [] [] [] [] [] []]; reflexivity.
Qed.

(** What [validate] reports does not depend on the identifier or on the
    timestamps. *)
Lemma errors_fields c c' :
  nombre c = nombre c' -> email c = email c' -> telefono c = telefono c' ->
  asunto c = asunto c' -> mensaje c = mensaje c' ->
  aceptaTerminos c = aceptaTerminos c' ->
  preferenciaContacto c = preferenciaContacto c' ->
  errors c = errors c'.
Proof.
  intros H1 H2 H3 H4 H5 H6 H7.
  unfold errors, check_nombre, check_email, check_telefono, check_asunto,
    check_mensaje, check_terms, check_preferencia.
  now rewrite H1, H2, H3, H4, H5, H6, H7.
Qed.

Lemma check_nombre_read_toJSON c :
  check_nombre (read (toJSON c)) = check_nombre c.
Proof. unfold check_nombre; simpl. now rewrite trim_idem. Qed.

Lemma check_email_read_toJSON c :
  check_email (read (toJSON c)) = check_email c.
Proof.
  unfold check_email; simpl.
  rewrite trim_lower, trim_idem, len_toLowerCase, emailRegex_lower. reflexivity.
Qed.

Lemma check_telefono_read_toJSON c :
  check_telefono (read (toJSON c)) = check_telefono c.
Proof.
  unfold check_telefono; simpl. rewrite trim_idem, !truthy_len.
  destruct (0 <? len (trim (telefono c))) eqn:E.
  - rewrite <- truthy_len in E. apply truthy_trim in E.
    rewrite truthy_len in E. rewrite E. reflexivity.
  - rewrite andb_false_r. destruct (0 <? len (telefono c)); reflexivity.
Qed.

Lemma check_mensaje_read_toJSON c :
  check_mensaje (read (toJSON c)) = check_mensaje c.
Proof.
  unfold check_mensaje; simpl. rewrite trim_idem, !truthy_len.
  destruct (1000 <? len (trim (mensaje c))) eqn:E.
  - assert (T : (0 <? len (trim (mensaje c))) = true).
    { apply Z.ltb_lt. apply Z.ltb_lt in E. lia. }
    rewrite T. rewrite <- truthy_len in T. apply truthy_trim in T.
    rewrite truthy_len in T. now rewrite T.
  - rewrite !andb_false_r. reflexivity.
Qed.

Lemma check_preferencia_read_toJSON c :
  truthy (preferenciaContacto c) = true ->
  check_preferencia (read (toJSON c)) = check_preferencia c.
Proof.
  unfold check_preferencia; simpl. unfold or_else. now intros ->.
Qed.

(** Normalizing a record as [toJSON] does keeps the validation report. *)
Lemma errors_read_toJSON c :
  truthy (preferenciaContacto c) = true ->
  errors (read (toJSON c)) = errors c.
Proof.
  intros H. unfold errors.
  rewrite check_nombre_read_toJSON, check_email_read_toJSON,
    check_telefono_read_toJSON, check_mensaje_read_toJSON,
    check_preferencia_read_toJSON by exact H.
  reflexivity.
Qed.

Lemma errors_nil_preferencia c :
  errors c = [] -> check_preferencia c = [].
Proof.
  unfold errors. intros H.
  repeat (apply app_eq_nil in H; destruct H as [_ H]). exact H.
Qed.

(** A valid record names one of the three preferences. *)
Lemma isValid_preferencia c :
  isValid c = true -> truthy (preferenciaContacto c) = true.
Proof.
  unfold isValid. destruct (errors c) eqn:E; [|discriminate]. intros _.
  apply errors_nil_preferencia in E. unfold check_preferencia in E.
  destruct (preferenciaContacto c); [discriminate E | reflexivity].
Qed.

Lemma isValid_read_toJSON c :
  isValid c = true -> isValid (read (toJSON c)) = true.
Proof.
  intros H. unfold isValid.
  rewrite errors_read_toJSON by now apply isValid_preferencia.
  exact H.
Qed.

End ContactoFacts.

(** ** Arrays *)

Section ArrayFacts.
Import JsArray.
Context {A : Type}.

Lemma findIndex_ge (p : A -> bool) l : -1 <= findIndex p l.
Proof.
  induction l as [|x l IH]; simpl; [lia|].
  destruct (p x); [lia|]. destruct (findIndex p l =? -1) eqn:E; lia.
Qed.

Lemma findIndex_lt (p : A -> bool) l : findIndex p l < Z.of_nat (length l).
Proof.
  induction l as [|x l IH]; simpl; [lia|].
  destruct (p x); [lia|]. destruct (findIndex p l =? -1) eqn:E; lia.
Qed.

(** A missing index means no element satisfies the predicate. *)
Lemma findIndex_none (p : A -> bool) l :
  findIndex p l = -1 <-> existsb p l = false.
Proof.
  induction l as [|x l IH]; simpl; [tauto|].
  destruct (p x); simpl; [split; [lia | discriminate]|].
  pose proof (findIndex_ge p l).
  destruct (findIndex p l =? -1) eqn:E.
  - apply Z.eqb_eq in E. tauto.
  - apply Z.eqb_neq in E. split; [lia | tauto].
Qed.

(** A found index points at the first element that satisfies the
    predicate. *)
Lemma findIndex_lookup (p : A -> bool) l :
  findIndex p l <> -1 ->
  exists x, l !! Z.to_nat (findIndex p l) = Some x /\ p x = true
            /\ existsb p (take (Z.to_nat (findIndex p l)) l) = false.
Proof.
  induction l as [|x l IH]; simpl; [lia|].
  destruct (p x) eqn:Px; [intros _; exists x; auto|].
  pose proof (findIndex_ge p l).
  destruct (findIndex p l =? -1) eqn:E; [lia|]. apply Z.eqb_neq in E.
  intros _. destruct (IH E) as (y & Hy & Py & Hb). exists y.
  replace (Z.to_nat (findIndex p l + 1)) with (S (Z.to_nat (findIndex p l))) by lia.
  simpl. rewrite Px. auto.
Qed.

(** The first element that satisfies the predicate is the one found. *)
Lemma findIndex_first (p : A -> bool) l n x :
  l !! n = Some x -> p x = true -> existsb p (take n l) = false ->
  findIndex p l = Z.of_nat n.
Proof.
  revert n. induction l as [|y l IH]; intros [|n]; simpl; try discriminate.
  - intros [= ->] -> _. reflexivity.
  - intros Hx Px Hb. apply orb_false_iff in Hb as [Py Hb]. rewrite Py.
    rewrite (IH n Hx Px Hb).
    destruct (Z.of_nat n =? -1) eqn:E; [apply Z.eqb_eq in E; lia | lia].
Qed.

Lemma findIndex_map {B} (g : B -> A) (p : A -> bool) l :
  findIndex p (map g l) = findIndex (fun b => p (g b)) l.
Proof.
  induction l as [|x l IH]; simpl; [reflexivity|]. now rewrite IH.
Qed.

Lemma map_insert {B} (g : A -> B) n x l :
  map g (<[n := x]> l) = <[n := g x]> (map g l).
Proof.
  revert n. induction l as [|y l IH]; intros [|n]; simpl; try reflexivity.
  now rewrite IH.
Qed.

Lemma map_delete {B} (g : A -> B) n (l : list A) :
  map g (delete n l) = delete n (map g l).
Proof.
  revert n. induction l as [|y l IH]; intros [|n]; simpl; try reflexivity.
  now rewrite IH.
Qed.

Lemma map_lookup {B} (g : A -> B) n (l : list A) :
  map g l !! n = option_map g (l !! n).
Proof.
  revert n. induction l as [|y l IH]; intros [|n]; simpl; try reflexivity.
  apply IH.
Qed.

End ArrayFacts.

(** ** Reading the store *)

Section ReadingFacts.
Import JsString JsArray Contacto Host ContactoClass ContactRepository Stored.

Lemma well_formed_toJSON c :
  truthy (id c) = true -> truthy (preferenciaContacto c) = true ->
  well_formed (toJSON c) = true.
Proof.
  intros Hi Hp. unfold well_formed; simpl. rewrite Hi, Hp; simpl.
  rewrite trim_lower, toLowerCase_idem, !trim_idem, !String.eqb_refl.
  reflexivity.
Qed.

Lemma toJSON_read d : well_formed d = true -> toJSON (read d) = d.
Proof.
  unfold well_formed. rewrite !andb_true_iff.
  intros [[[[[[[Hi Hp] Hc] Ha] Hn] He] Ht] Hm].
  apply String.eqb_eq in Hn, He, Ht, Hm.
  destruct d as [i n e t a m p ac fc fa]; simpl in *.
  unfold toJSON, read; simpl. unfold or_else. rewrite Hp, Hn, He, Ht, Hm.
  destruct fc; [|discriminate]. destruct fa; [|discriminate]. reflexivity.
Qed.

Lemma new_read d w : well_formed d = true -> ContactoClass.new d w = (Ok (read d), w).
Proof.
  unfold well_formed. rewrite !andb_true_iff.
  intros [[[[[[[Hi Hp] Hc] Ha] Hn] He] Ht] Hm].
  unfold ContactoClass.new, bind, or_now, read. rewrite Hi.
  destruct (d_fechaCreacion d); [|discriminate].
  destruct (d_fechaActualizacion d); [|discriminate]. reflexivity.
Qed.

Lemma mapM_fromJSON l w :
  forallb well_formed l = true ->
  mapM fromJSON (map Some l) w = (Ok (map read l), w).
Proof.
  induction l as [|d l IH]; simpl; intros H; [reflexivity|].
  apply andb_true_iff in H as [Hd Hl].
  unfold bind. rewrite (new_read d w Hd), (IH Hl). reflexivity.
Qed.

(** On a store of well-formed records [getAll] is a pure read. *)
Lemma getAll_holds w l :
  holds w l -> forallb well_formed l = true ->
  getAll w = (Ok (map read l), w).
Proof.
  intros H Hl. unfold getAll, try_catch, bind, getItem. rewrite H. simpl.
  unfold ret. rewrite (mapM_fromJSON l w Hl). reflexivity.
Qed.

Lemma map_toJSON_read l :
  forallb well_formed l = true -> map toJSON (map read l) = l.
Proof.
  induction l as [|d l IH]; simpl; intros H; [reflexivity|].
  apply andb_true_iff in H as [Hd Hl]. now rewrite toJSON_read, IH.
Qed.

Lemma find_read i l :
  find (fun c => String.eqb (id c) i) (map read l)
  = option_map read (find (fun d => String.eqb (d_id d) i) l).
Proof.
  induction l as [|d l IH]; simpl; [reflexivity|].
  destruct (String.eqb (d_id d) i); [reflexivity | exact IH].
Qed.

Lemma find_has_id i l :
  has_id i l = match find (fun d => String.eqb (d_id d) i) l with
               | Some _ => true | None => false end.
Proof.
  induction l as [|d l IH]; simpl; [reflexivity|].
  destruct (String.eqb (d_id d) i); [reflexivity | exact IH].
Qed.

Lemma getById_holds w l i :
  holds w l -> forallb well_formed l = true ->
  getById i w
  = (Ok (option_map read (find (fun d => String.eqb (d_id d) i) l)), w).
Proof.
  intros H Hl. unfold getById, try_catch, bind.
  rewrite (getAll_holds w l H Hl). unfold ret. now rewrite find_read.
Qed.

(** A new repository object on a blank store starts from the empty
    array. *)
Lemma fresh_blank w : blank w -> holds (fresh w) [].
Proof.
  unfold blank, fresh, constructor, initializeStorage, bind, getItem, holds.
  intros [H|H].
  - rewrite H. reflexivity.
  - rewrite H. simpl. exact H.
Qed.

Lemma sound_well_formed l : sound l = true -> forallb well_formed l = true.
Proof.
  unfold sound. induction l as [|d l IH]; simpl; [reflexivity|].
  rewrite !andb_true_iff. intros [[H _] Hl]. auto.
Qed.

End ReadingFacts.

(** ** The repository on a store of well-formed records *)

Section RepositoryFacts.
Import JsString JsArray Contacto Host ContactoClass ContactRepository Stored.

Lemma holds_say w l lv m : holds w l -> holds (say lv m w) l.
Proof. intros H. exact H. Qed.

Lemma holds_tick w l : holds w l -> holds (tick w) l.
Proof. intros H. exact H. Qed.

Lemma holds_put w l : holds (put (JSON_stringify l) w) l.
Proof. reflexivity. Qed.

Lemma getSummary_run c w : exists s, getSummary c w = (Ok s, tick w).
Proof. unfold getSummary, getTimeAgo, bind, Date_now, ret. eexists. reflexivity. Qed.

Lemma saveToStorage_run contacts w :
  saveToStorage contacts w = (Ok tt, put (JSON_stringify (map toJSON contacts)) w).
Proof. reflexivity. Qed.

Lemma add_invalid c w :
  isValid c = false ->
  add c w = (Throw (Error ("Contacto inválido: "
                           ++ join ", " (map snd (errors c)))),
             say Err "Error al agregar contacto:" w).
Proof.
  intros H. unfold add, try_catch, bind, require_valid. rewrite H. reflexivity.
Qed.

Lemma add_duplicate c w l :
  holds w l -> forallb well_formed l = true ->
  isValid c = true -> has_id (id c) l = true ->
  add c w = (Throw (Error "Ya existe un contacto con el mismo ID"),
             say Err "Error al agregar contacto:" w).
Proof.
  intros H Hl Hv Hd. unfold add, try_catch, bind, require_valid. rewrite Hv.
  unfold ret at 1. rewrite (getById_holds w l _ H Hl).
  rewrite find_has_id in Hd.
  destruct (find _ l); [reflexivity | discriminate].
Qed.

Lemma add_fresh c w l :
  holds w l -> forallb well_formed l = true ->
  isValid c = true -> has_id (id c) l = false ->
  add c w = (Ok true,
             say Log "Contacto agregado:"
               (tick (put (JSON_stringify (l ++ [toJSON c])) w))).
Proof.
  intros H Hl Hv Hd. unfold add, try_catch, bind, require_valid. rewrite Hv.
  unfold ret at 1. rewrite (getById_holds w l _ H Hl).
  rewrite find_has_id in Hd.
  destruct (find _ l); [discriminate|]. simpl.
  rewrite (getAll_holds w l H Hl).
  rewrite map_app, map_toJSON_read by exact Hl. reflexivity.
Qed.

Lemma require_valid_ok c w : isValid c = true -> require_valid c w = (Ok tt, w).
Proof. intros H. unfold require_valid. now rewrite H. Qed.

Lemma index_of_read i l :
  findIndex (fun c => String.eqb (id c) i) (map read l) = index_of i l.
Proof. unfold index_of. now rewrite findIndex_map. Qed.

Lemma index_of_has_id i l : index_of i l = -1 <-> has_id i l = false.
Proof. apply findIndex_none. Qed.

Lemma update_invalid c w :
  isValid c = false ->
  update c w = (Throw (Error ("Contacto inválido: "
                              ++ join ", " (map snd (errors c)))),
                say Err "Error al actualizar contacto:" w).
Proof.
  intros H. unfold update, try_catch, bind, require_valid. rewrite H. reflexivity.
Qed.

Lemma update_missing c w l :
  holds w l -> forallb well_formed l = true ->
  isValid c = true -> index_of (id c) l = -1 ->
  update c w = (Throw (Error "Contacto no encontrado"),
                say Err "Error al actualizar contacto:" w).
Proof.
  intros H Hl Hv Hi. unfold update, try_catch, bind.
  rewrite (require_valid_ok c w Hv), (getAll_holds w l H Hl), index_of_read, Hi.
  reflexivity.
Qed.

Lemma update_found c w l :
  holds w l -> forallb well_formed l = true ->
  isValid c = true -> index_of (id c) l <> -1 ->
  update c w
  = (Ok true,
     say Log "Contacto actualizado:"
       (tick (put (JSON_stringify
                     (<[Z.to_nat (index_of (id c) l)
                        := toJSON (touched (clock w (ticks w)) c)]> l))
                (tick w)))).
Proof.
  intros H Hl Hv Hi. unfold update, try_catch, bind.
  rewrite (require_valid_ok c w Hv), (getAll_holds w l H Hl), index_of_read.
  apply Z.eqb_neq in Hi. rewrite Hi. simpl.
  unfold set_at. rewrite map_insert, map_toJSON_read by exact Hl. reflexivity.
Qed.

Lemma remove_missing i w l :
  holds w l -> forallb well_formed l = true ->
  index_of i l = -1 ->
  remove i w = (Throw (Error "Contacto no encontrado"),
                say Err "Error al eliminar contacto:" w).
Proof.
  intros H Hl Hi. unfold remove, try_catch, bind.
  rewrite (getAll_holds w l H Hl), index_of_read, Hi. reflexivity.
Qed.

Lemma remove_found i w l :
  holds w l -> forallb well_formed l = true ->
  index_of i l <> -1 ->
  remove i w
  = (Ok true,
     say Log "Contacto eliminado:"
       (tick (put (JSON_stringify (delete (Z.to_nat (index_of i l)) l)) w))).
Proof.
  intros H Hl Hi. unfold remove, try_catch, bind.
  rewrite (getAll_holds w l H Hl), index_of_read.
  destruct (findIndex_lookup _ l Hi) as (d & Hd & _).
  fold (index_of i l) in Hd.
  apply Z.eqb_neq in Hi. rewrite Hi. simpl.
  rewrite map_lookup, Hd. simpl.
  unfold splice1. rewrite map_delete, map_toJSON_read by exact Hl. reflexivity.
Qed.

(** [getAll] catches whatever its body throws. *)
Lemma getAll_total w : exists l w', getAll w = (Ok l, w').
Proof.
  unfold getAll, try_catch.
  destruct (bind getItem _ w) as [[a|e] w1]; [eauto|].
  unfold bind, console_error, console_write, handleStorageError, try_catch,
    console_warn, console_write, setItem, ret. simpl. eauto.
Qed.

Lemma clear_run w :
  exists n w', clear w = (Ok true, say Log n (put (JSON_stringify []) w')).
Proof.
  unfold clear, try_catch, bind.
  destruct (getAll_total w) as (l & w' & E). rewrite E. simpl. eauto.
Qed.

Lemma new_spec d w :
  exists c w', ContactoClass.new d w = (Ok c, w')
               /\ built_from d c /\ same_store w w'.
Proof.
  unfold ContactoClass.new, generateId, or_now, new_Date_toISOString, bind,
    Date_now, random_suffix, ret, built_from, same_store.
  destruct (truthy (d_id d)) eqn:Hi;
    destruct (d_fechaCreacion d); destruct (d_fechaActualizacion d);
    simpl; eexists; eexists; (split; [reflexivity|]); simpl;
    repeat split; auto; discriminate.
Qed.

Lemma built_from_errors d c c' :
  built_from d c -> built_from d c' -> errors c = errors c'.
Proof.
  intros (H1 & H2 & H3 & H4 & H5 & H6 & H7 & _) (G1 & G2 & G3 & G4 & G5 & G6 & G7 & _).
  apply errors_fields; congruence.
Qed.

Lemma built_from_preferencia d c :
  built_from d c -> truthy (preferenciaContacto c) = true.
Proof.
  intros (_ & _ & _ & _ & _ & _ & H & _). rewrite H. unfold or_else.
  destruct (d_preferenciaContacto d); reflexivity.
Qed.

Lemma same_store_holds w w' l : same_store w w' -> holds w l -> holds w' l.
Proof. unfold same_store, holds. congruence. Qed.

Lemma existsb_read_email mail l :
  existsb (fun c => String.eqb (toLowerCase (email c)) (toLowerCase mail) && true)
    (map read l) = has_email mail l.
Proof.
  unfold has_email. induction l as [|d l IH]; simpl; [reflexivity|].
  now rewrite IH, andb_true_r.
Qed.

Lemma existsByEmail_holds mail w l :
  holds w l -> forallb well_formed l = true ->
  existsByEmail mail None w = (Ok (has_email mail l), w).
Proof.
  intros H Hl. unfold existsByEmail, try_catch, bind.
  rewrite (getAll_holds w l H Hl). unfold ret. now rewrite existsb_read_email.
Qed.

Lemma forEach_stats_step l : forall n w,
  exists m w', forEach stats_step n l w = (Ok m, w') /\ same_store w w'.
Proof.
  induction l as [|c l IH]; intros n w; simpl.
  - exists n, w. split; reflexivity.
  - unfold bind at 1. unfold stats_step at 1. unfold bind, Date_now, ret.
    destruct (IH (if clock w (ticks w) - fechaCreacion c <=? 24 * (1000 * 60 * 60)
                  then n + 1 else n) (tick w)) as (m & w' & E & S).
    unfold tick in E. rewrite E. eauto.
Qed.

Lemma updateStorageStats_holds w l :
  holds w l -> forallb well_formed l = true ->
  exists w', ContactFacade.updateStorageStats w = (Ok tt, w') /\ same_store w w'.
Proof.
  intros H Hl. unfold ContactFacade.updateStorageStats, getStats, try_catch, bind.
  rewrite (getAll_holds w l H Hl).
  destruct (forEach_stats_step (map read l) 0 w) as (m & w' & E & S).
  rewrite E. simpl. eexists. split; [reflexivity|]. exact S.
Qed.

End RepositoryFacts.

(** ** C1: saving a contact *)

Section Guardar.
Import JsString JsArray Contacto Host ContactoClass ContactRepository Stored.

Lemma guardarContacto_run d w l :
  holds w l -> forallb well_formed l = true ->
  exists w', ContactFacade.guardarContacto d w
             = (fst (outcome (candidate d w) l), w')
             /\ holds w' (snd (outcome (candidate d w) l)).
Proof.
  intros H Hl. unfold candidate, value, outcome.
  destruct (new_spec d w) as (c0 & w1 & E0 & B0 & S0).
  destruct (new_spec d w1) as (c & w2 & E & B & S).
  rewrite E0. simpl. rewrite E. simpl.
  pose proof (same_store_holds _ _ _ S0 H) as H1.
  pose proof (same_store_holds _ _ _ S H1) as H2.
  assert (Ev : errors c0 = errors c) by apply (built_from_errors d c0 c B0 B).
  unfold ContactFacade.guardarContacto, ContactFacade.validateForm, try_catch, bind.
  rewrite E0. unfold ret at 1. unfold isValid. rewrite Ev.
  destruct (errors c) as [|e es] eqn:Ee; [|simpl; eauto].
  assert (Hv : isValid c = true) by (unfold isValid; now rewrite Ee).
  unfold ret at 1. rewrite E.
  rewrite (existsByEmail_holds (email c) w2 l H2 Hl).
  destruct (has_email (email c) l) eqn:Hm; [simpl; eauto|].
  unfold ret at 1.
  destruct (has_id (id c) l) eqn:Hd.
  - rewrite (add_duplicate c w2 l H2 Hl Hv Hd). simpl. eauto.
  - rewrite (add_fresh c w2 l H2 Hl Hv Hd).
    set (w3 := say Log "Contacto agregado:" _).
    assert (H3 : holds w3 (l ++ [toJSON c])) by reflexivity.
    assert (Hl3 : forallb well_formed (l ++ [toJSON c]) = true).
    { rewrite forallb_app, Hl. simpl.
      rewrite well_formed_toJSON; [reflexivity | apply B |].
      now apply (built_from_preferencia d). }
    destruct (updateStorageStats_holds w3 _ H3 Hl3) as (w4 & E4 & S4).
    rewrite E4. simpl. eexists. split; [reflexivity|].
    now apply (same_store_holds w3).
Qed.

(** C1, as amended.  On a store of well-formed records,
    [ContactRepository.add] rejects and leaves the stored collection as it
    was when the instance fails validation or when a stored record has its
    identifier; otherwise it returns [true] and the store holds the old
    records followed by the instance's [toJSON] form, whatever the emails.
    [ContactFacade.guardarContacto] rejects and leaves the collection as it
    was when the candidate fails validation, when a stored record has the
    same email (letter case aside), or when [add] rejects the candidate
    for its identifier; otherwise it returns [true] and the candidate is
    appended in the same way. *)
Theorem add_guardarContacto_spec (k : Contacto.t) (d : ContactData)
    (w : World) (l : list ContactData) :
  holds w l -> forallb well_formed l = true ->
  let a := add k w in
  let c := candidate d w in
  let r := ContactFacade.guardarContacto d w in
  ((isValid k = false ->
    fst a = Throw (Error ("Contacto inválido: "
                          ++ join ", " (map snd (errors k))))
    /\ holds (snd a) l)
   /\ (isValid k = true -> has_id (id k) l = true ->
       fst a = Throw (Error "Ya existe un contacto con el mismo ID")
       /\ holds (snd a) l)
   /\ (isValid k = true -> has_id (id k) l = false ->
       fst a = Ok true /\ holds (snd a) (l ++ [toJSON k])))
  /\ ((isValid c = false ->
       fst r = Throw (Error "Por favor corrija los errores en el formulario")
       /\ holds (snd r) l)
      /\ (isValid c = true -> has_email (email c) l = true ->
          fst r = Throw (Error "Ya existe un contacto con ese correo electrónico")
          /\ holds (snd r) l)
      /\ (isValid c = true -> has_email (email c) l = false ->
          has_id (id c) l = true ->
          fst r = Throw (Error "Ya existe un contacto con el mismo ID")
          /\ holds (snd r) l)
      /\ (isValid c = true -> has_email (email c) l = false ->
          has_id (id c) l = false ->
          fst r = Ok true /\ holds (snd r) (l ++ [toJSON c]))).
Proof.
  intros H Hl a c r. split.
  - subst a. split; [|split].
    + intros Hv. rewrite (add_invalid k w Hv). auto.
    + intros Hv Hd. rewrite (add_duplicate k w l H Hl Hv Hd). auto.
    + intros Hv Hd. rewrite (add_fresh k w l H Hl Hv Hd). split; reflexivity.
  - destruct (guardarContacto_run d w l H Hl) as (w' & R1 & R2).
    fold c r in R1. fold c in R2. unfold outcome in R1, R2. rewrite R1.
    clearbody c r. clear R1.
    destruct (isValid c), (has_email (email c) l), (has_id (id c) l);
      simpl in *; repeat split; intros; (discriminate || assumption).
Qed.

(** At the form data of the specification's example the theorem gives a
    successful save. *)
Lemma add_guardarContacto_spec_witness :
  let w := Sample.world (Some (JSON_stringify Sample.two)) in
  fst (ContactFacade.guardarContacto Sample.ana w) = Ok true
  /\ holds (snd (ContactFacade.guardarContacto Sample.ana w))
       (Sample.two ++ [toJSON (candidate Sample.ana w)]).
Proof.
  intros w.
  destruct (add_guardarContacto_spec Sample.luis_twin Sample.ana w Sample.two
              eq_refl eq_refl)
    as (_ & _ & _ & _ & K).
  apply K; vm_compute; reflexivity.
Defined.

(** C1, as stated, fails.  [ContactRepository.add] accepts a valid
    instance although a stored record has the same email, letter case
    aside; and [ContactFacade.guardarContacto] rejects form data that is
    valid and whose email no stored record has, by the identifier guard of
    [add], and appends nothing. *)
Lemma add_guardarContacto_counterexample :
  let w := Sample.world (Some (JSON_stringify Sample.two)) in
  (isValid Sample.luis_twin = true
   /\ has_email (email Sample.luis_twin) Sample.two = true
   /\ fst (add Sample.luis_twin w) = Ok true
   /\ collection (snd (add Sample.luis_twin w))
      = (Sample.two ++ [toJSON Sample.luis_twin])%list)
  /\ (let c := candidate Sample.luis_again w in
      isValid c = true
      /\ has_email (email c) Sample.two = false
      /\ fst (ContactFacade.guardarContacto Sample.luis_again w)
         = Throw (Error "Ya existe un contacto con el mismo ID")
      /\ collection (snd (ContactFacade.guardarContacto Sample.luis_again w))
         = Sample.two).
Proof. vm_compute. repeat split; reflexivity. Qed.

(** The example of the specification: the stored email is in lower case,
    the identifier is generated. *)
Example guardarContacto_ana :
  let w := Sample.world (Some (JSON_stringify [])) in
  collection (snd (ContactFacade.guardarContacto Sample.ana w))
  = [mkData "contact_1700000000003_k3j9x0a1b" "Ana Ruiz" "ana@x.com" ""
       "consulta" "" "Email" true (Some 1700000000004) (Some 1700000000005)].
Proof. vm_compute. reflexivity. Qed.

End Guardar.

(** ** C2: a record that was added is read back once, normalized *)

Section AddThenGetAll.
Import JsString JsArray Contacto Host ContactoClass ContactRepository Stored.

Lemma well_formed_normalized d : well_formed d = true -> normalized (read d).
Proof.
  unfold well_formed. rewrite !andb_true_iff.
  intros [[[[[[[Hi Hp] Hc] Ha] Hn] He] Ht] Hm].
  apply String.eqb_eq in Hn, He, Ht, Hm. unfold normalized; simpl.
  repeat split; try assumption.
  - rewrite <- He. apply toLowerCase_idem.
  - rewrite <- He at 1. rewrite trim_lower, trim_idem. exact He.
Qed.

Lemma filter_id_none i l :
  has_id i l = false ->
  List.filter (fun y => String.eqb (id y) i) (map read l) = [].
Proof.
  induction l as [|d l IH]; simpl; [reflexivity|].
  destruct (String.eqb (d_id d) i); simpl; [discriminate | exact IH].
Qed.

Lemma has_id_In i l : has_id i l = true <-> In i (ids l).
Proof.
  unfold has_id, ids. rewrite existsb_exists, in_map_iff.
  split; intros (d & H1 & H2); exists d.
  - apply String.eqb_eq in H2. auto.
  - split; [tauto|]. apply String.eqb_eq. tauto.
Qed.

Lemma has_id_false_In i l : has_id i l = false <-> ~ In i (ids l).
Proof. rewrite <- has_id_In. destruct (has_id i l); split; congruence. Qed.

(** With distinct identifiers, exactly one record answers to a stored
    identifier. *)
Lemma filter_id_one i l :
  List.NoDup (ids l) -> has_id i l = true ->
  exists d, In d l /\ d_id d = i
            /\ List.filter (fun y => String.eqb (id y) i) (map read l) = [read d].
Proof.
  induction l as [|d l IH]; simpl; [discriminate|].
  intros N H. apply List.NoDup_cons_iff in N as [N1 N2].
  destruct (String.eqb (d_id d) i) eqn:E.
  - apply String.eqb_eq in E. exists d. repeat split; auto.
    simpl. rewrite filter_id_none; [reflexivity|].
    apply has_id_false_In. now rewrite <- E.
  - simpl in H. destruct (IH N2 H) as (d' & H1 & H2 & H3).
    exists d'. auto.
Qed.

(** C2, as amended.  On a store the repository wrote (well-formed
    records), [add] of a valid instance whose identifier is not stored yet
    succeeds, and [getAll] then returns exactly one record with that
    identifier: the instance with its email trimmed and in lower case, its
    name, phone and message trimmed, and its subject and preference as
    they were given, untrimmed.  When the identifier is stored already,
    [add] rejects the instance and, the stored identifiers being distinct,
    [getAll] still returns exactly one record with that identifier, with
    email, name, phone and message normalized in the same way. *)
Theorem add_then_getAll (c : Contacto.t) (w : World) (l : list ContactData) :
  holds w l -> forallb well_formed l = true ->
  isValid c = true -> truthy (id c) = true ->
  (has_id (id c) l = false ->
   fst (add c w) = Ok true
   /\ exists cs w' x,
        getAll (snd (add c w)) = (Ok cs, w')
        /\ List.filter (fun y => String.eqb (id y) (id c)) cs = [x]
        /\ normalized x
        /\ id x = id c
        /\ email x = toLowerCase (trim (email c))
        /\ nombre x = trim (nombre c)
        /\ telefono x = trim (telefono c)
        /\ mensaje x = trim (mensaje c)
        /\ asunto x = asunto c
        /\ preferenciaContacto x = preferenciaContacto c)
  /\ (has_id (id c) l = true -> List.NoDup (ids l) ->
      fst (add c w) = Throw (Error "Ya existe un contacto con el mismo ID")
      /\ exists cs w' x,
           getAll (snd (add c w)) = (Ok cs, w')
           /\ List.filter (fun y => String.eqb (id y) (id c)) cs = [x]
           /\ normalized x).
Proof.
  intros H Hl Hv Hi. split.
  - intros Hd. rewrite (add_fresh c w l H Hl Hv Hd). cbn [fst snd].
    split; [reflexivity|].
    set (w1 := say Log "Contacto agregado:" _).
    pose proof (isValid_preferencia c Hv) as Hp.
    assert (Hw : well_formed (toJSON c) = true).
    { apply well_formed_toJSON; [exact Hi | exact Hp]. }
    assert (Hl1 : forallb well_formed (l ++ [toJSON c]) = true).
    { rewrite forallb_app, Hl. simpl. now rewrite Hw. }
    exists (map read (l ++ [toJSON c])), w1, (read (toJSON c)).
    split; [now apply getAll_holds|].
    split.
    { rewrite map_app, List.filter_app, filter_id_none by exact Hd.
      simpl. now rewrite String.eqb_refl. }
    split; [now apply well_formed_normalized|].
    simpl. repeat split; try reflexivity.
    unfold or_else. now rewrite Hp.
  - intros Hd N. rewrite (add_duplicate c w l H Hl Hv Hd). cbn [fst snd].
    split; [reflexivity|].
    destruct (filter_id_one (id c) l N Hd) as (d & Hin & Hid & Hf).
    exists (map read l), (say Err "Error al agregar contacto:" w), (read d).
    split; [now apply getAll_holds|]. split; [exact Hf|].
    apply well_formed_normalized.
    rewrite forallb_forall in Hl. now apply Hl.
Qed.

(** The theorem at the candidate of the specification's example. *)
Lemma add_then_getAll_witness :
  let w := Sample.world (Some (JSON_stringify Sample.two)) in
  let c := candidate Sample.ana w in
  fst (add c w) = Ok true
  /\ exists cs w' x,
       getAll (snd (add c w)) = (Ok cs, w')
       /\ List.filter (fun y => String.eqb (id y) (id c)) cs = [x]
       /\ normalized x
       /\ id x = id c
       /\ email x = toLowerCase (trim (email c))
       /\ nombre x = trim (nombre c)
       /\ telefono x = trim (telefono c)
       /\ mensaje x = trim (mensaje c)
       /\ asunto x = asunto c
       /\ preferenciaContacto x = preferenciaContacto c.
Proof.
  intros w c.
  destruct (add_then_getAll c w Sample.two eq_refl eq_refl eq_refl eq_refl)
    as [K _].
  apply K. reflexivity.
Defined.

(** C2, as stated, fails on the subject: [validate] trims the subject
    only to test that it is not blank, and [toJSON] stores it as given.  A
    valid instance whose subject has white space around it is added, and
    the one record [getAll] then returns for its identifier still has the
    white space: not every text field is trimmed. *)
Lemma add_then_getAll_counterexample :
  let w := Sample2.stocked in
  let c := Sample2.ana_padded in
  isValid c = true
  /\ has_id (id c) Sample.two = false
  /\ fst (add c w) = Ok true
  /\ exists cs w' x,
       getAll (snd (add c w)) = (Ok cs, w')
       /\ List.filter (fun y => String.eqb (id y) (id c)) cs = [x]
       /\ asunto x = " consulta "
       /\ trim (asunto x) <> asunto x.
Proof.
  intros w c.
  assert (Hv : isValid c = true) by (vm_compute; reflexivity).
  assert (Hd : has_id (id c) Sample.two = false) by (vm_compute; reflexivity).
  assert (H : holds w Sample.two) by reflexivity.
  assert (Hl : forallb well_formed Sample.two = true)
    by (vm_compute; reflexivity).
  split; [exact Hv|]. split; [exact Hd|].
  rewrite (add_fresh c w Sample.two H Hl Hv Hd). cbn [fst snd].
  split; [reflexivity|].
  set (w1 := say Log "Contacto agregado:" _).
  exists (map read (Sample.two ++ [toJSON c])), w1, (read (toJSON c)).
  split.
  { apply getAll_holds; [reflexivity | vm_compute; reflexivity]. }
  split; [vm_compute; reflexivity|].
  split; [reflexivity|]. vm_compute. discriminate.
Qed.

End AddThenGetAll.

(** ** The framework-free storage repository (part_001) *)

Section SinFrameworkFacts.
Import JsArray SinFramework SinStored.

Lemma cargarAlmacenamiento_holds s l :
  holds s l -> cargarAlmacenamiento s = (Ok tt, with_repo l s).
Proof.
  intros H. unfold cargarAlmacenamiento, bind, getItem. rewrite H. reflexivity.
Qed.

Lemma holds_with_repo s l r : holds s l -> holds (with_repo r s) l.
Proof. intros H. exact H. Qed.

Lemma with_repo_idem s l r : with_repo l (with_repo r s) = with_repo l s.
Proof. reflexivity. Qed.

Lemma indiceElemento_holds s l i :
  holds s l -> Storage.indiceElemento i s = (Ok (index_of i l), with_repo l s).
Proof.
  intros H. unfold Storage.indiceElemento, bind.
  rewrite (cargarAlmacenamiento_holds s l H). reflexivity.
Qed.

Lemma sin_update_low c s l :
  holds s l -> index_of (id c) l <= 0 ->
  Storage.update c s = (Ok false, with_repo l s).
Proof.
  intros H Hi. unfold Storage.update, bind.
  rewrite (cargarAlmacenamiento_holds s l H).
  rewrite (indiceElemento_holds _ l _ (holds_with_repo s l l H)).
  destruct (0 <? index_of (id c) l) eqn:E; [apply Z.ltb_lt in E; lia|].
  reflexivity.
Qed.

Lemma sin_update_found c s l old :
  holds s l -> 0 < index_of (id c) l ->
  l !! Z.to_nat (index_of (id c) l) = Some old ->
  Storage.update c s
  = (Ok true,
     saved (<[Z.to_nat (index_of (id c) l)
              := set_fechaCreacion c (fechaCreacion old)]> l) s).
Proof.
  intros H Hi Ho. unfold Storage.update, bind.
  rewrite (cargarAlmacenamiento_holds s l H).
  rewrite (indiceElemento_holds _ l _ (holds_with_repo s l l H)).
  apply Z.ltb_lt in Hi. rewrite Hi. simpl. rewrite Ho. reflexivity.
Qed.

Lemma sin_remove_missing i s l :
  holds s l -> index_of i l = -1 ->
  Storage.remove i s = (Ok false, with_repo l s).
Proof.
  intros H Hi. unfold Storage.remove, bind.
  rewrite (cargarAlmacenamiento_holds s l H).
  rewrite (indiceElemento_holds _ l _ (holds_with_repo s l l H)), Hi.
  reflexivity.
Qed.

Lemma sin_remove_found i s l :
  holds s l -> index_of i l <> -1 ->
  Storage.remove i s
  = (Ok true, saved (delete (Z.to_nat (index_of i l)) l) s).
Proof.
  intros H Hi. unfold Storage.remove, bind.
  rewrite (cargarAlmacenamiento_holds s l H).
  rewrite (indiceElemento_holds _ l _ (holds_with_repo s l l H)).
  apply Z.eqb_neq in Hi. rewrite Hi. reflexivity.
Qed.

Lemma sin_add_holds c s l :
  holds s l -> Storage.add c s = (Ok tt, saved (l ++ [c]) s).
Proof.
  intros H. unfold Storage.add, bind.
  rewrite (cargarAlmacenamiento_holds s l H). reflexivity.
Qed.

Lemma sin_clear_run s : Storage.clear s = (Ok tt, saved [] s).
Proof. reflexivity. Qed.

End SinFrameworkFacts.

(** ** C3: updating a record *)

Section Update.
Import JsString JsArray Contacto Host ContactoClass ContactRepository Stored.

(** C3, as amended.  [ContactRepository.update] rejects, leaving the
    stored collection as it was, when the record fails validation or when
    no stored record has its identifier.  When the record is valid and a
    stored record has its identifier, at any index, index 0 included, the
    record at that index is replaced by the [toJSON] form of the record
    with [fechaActualizacion] set to the clock reading of [touch()], and
    the whole collection is written back; that reading is greater than
    [fechaCreacion] whenever the record was created before it.  The
    storage-backed [ContactoRepository.update] of part_001 returns [false]
    and changes nothing when no record has the identifier, and replaces a
    record found at an index above 0 by the one given, with the stored
    [fechaCreacion] and the [fechaActualizacion] of the caller. *)
Theorem update_spec (c : Contacto.t) (w : World) (l : list ContactData)
    (k : SinFramework.Contacto) (s : SinFramework.State)
    (m : list SinFramework.Contacto) :
  holds w l -> forallb well_formed l = true -> SinStored.holds s m ->
  let r := update c w in
  let now := clock w (ticks w) in
  let q := SinFramework.Storage.update k s in
  ((isValid c = false ->
    fst r = Throw (Error ("Contacto inválido: "
                          ++ join ", " (map snd (errors c))))
    /\ holds (snd r) l)
   /\ (isValid c = true -> has_id (id c) l = false ->
       fst r = Throw (Error "Contacto no encontrado") /\ holds (snd r) l)
   /\ (isValid c = true ->
       forall n old, l !! n = Some old -> d_id old = id c ->
         has_id (id c) (take n l) = false ->
         fst r = Ok true
         /\ holds (snd r) (<[n := toJSON (touched now c)]> l)
         /\ d_fechaCreacion (toJSON (touched now c)) = Some (fechaCreacion c)
         /\ d_fechaActualizacion (toJSON (touched now c)) = Some now
         /\ (fechaCreacion c < now ->
             fechaCreacion (touched now c) < fechaActualizacion (touched now c))))
  /\ ((SinStored.index_of (SinFramework.id k) m = -1 ->
       fst q = Ok false /\ SinStored.holds (snd q) m)
      /\ (forall n old, (0 < n)%nat -> m !! n = Some old ->
            SinFramework.String_ (SinFramework.id old)
            = SinFramework.String_ (SinFramework.id k) ->
            SinStored.index_of (SinFramework.id k) (take n m) = -1 ->
            fst q = Ok true
            /\ SinStored.holds (snd q)
                 (<[n := SinFramework.set_fechaCreacion k
                           (SinFramework.fechaCreacion old)]> m))).
Proof.
  intros H Hl Hs r now q. split; [split; [|split]|split].
  - intros Hv. subst r. rewrite (update_invalid c w Hv). auto.
  - intros Hv Hd. apply index_of_has_id in Hd.
    subst r. rewrite (update_missing c w l H Hl Hv Hd). auto.
  - intros Hv n old Hn Hid Hb.
    assert (Hi : index_of (id c) l = Z.of_nat n).
    { apply (findIndex_first _ l n old Hn); [|exact Hb].
      apply String.eqb_eq. exact Hid. }
    subst r. rewrite (update_found c w l H Hl Hv) by lia.
    rewrite Hi, Nat2Z.id. simpl. repeat split. auto.
  - intros Hi. subst q. rewrite (sin_update_low k s m Hs) by lia. auto.
  - intros n old Hpos Hn Hid Hb.
    assert (Hi : SinStored.index_of (SinFramework.id k) m = Z.of_nat n).
    { apply (findIndex_first _ m n old Hn).
      - apply String.eqb_eq. exact Hid.
      - apply findIndex_none. exact Hb. }
    subst q. rewrite (sin_update_found k s m old Hs); rewrite Hi, ?Nat2Z.id;
      [split; reflexivity | lia | exact Hn].
Qed.

(** The theorem at a store of two records: [luis], at index 0, is
    replaced by the edited instance. *)
Lemma update_spec_witness :
  let w := Sample.world (Some (JSON_stringify Sample.two)) in
  fst (update Sample.luis_edited w) = Ok true
  /\ holds (snd (update Sample.luis_edited w))
       [toJSON (touched 1700000000000 Sample.luis_edited); Sample.eva].
Proof.
  intros w.
  destruct (update_spec Sample.luis_edited w Sample.two Sample.raul_edited
              (Sample.state (Some (SinFramework.JsonArray [Sample.rosa; Sample.raul]))
                 [] false)
              [Sample.rosa; Sample.raul] eq_refl eq_refl eq_refl)
    as ((_ & _ & K) & _).
  destruct (K eq_refl 0%nat Sample.luis eq_refl eq_refl eq_refl) as (K1 & K2 & _).
  split; [exact K1 | exact K2].
Defined.

(** C3, as stated, fails on [ContactRepository.update]: a record whose
    identifier is stored at index 0 is not replaced when it fails
    validation, and a record updated at the instant of its creation gets a
    [fechaActualizacion] equal to, not greater than, its [fechaCreacion]. *)
Lemma update_counterexample :
  (let w := Sample.world (Some (JSON_stringify Sample.two)) in
   index_of (id Sample.luis_unnamed) Sample.two = 0
   /\ fst (update Sample.luis_unnamed w)
      = Throw (Error "Contacto inválido: El nombre es obligatorio")
   /\ collection (snd (update Sample.luis_unnamed w)) = Sample.two)
  /\ (let w := Sample.world_at 1000 (Some (JSON_stringify Sample.two)) in
      fst (update Sample.luis_edited w) = Ok true
      /\ exists d, collection (snd (update Sample.luis_edited w)) !! 0%nat = Some d
                   /\ d_fechaCreacion d = Some 1000
                   /\ d_fechaActualizacion d = Some 1000).
Proof.
  split.
  - vm_compute. repeat split; reflexivity.
  - split; [vm_compute; reflexivity|].
    eexists. vm_compute. repeat split; reflexivity.
Qed.

(** The slip of part_001: a record found at index 0 is reported as not
    found and the store keeps the old record. *)
Example sin_update_index_zero :
  let s := Sample.state (Some (SinFramework.JsonArray [Sample.rosa; Sample.raul]))
             [] true in
  SinStored.index_of (SinFramework.id Sample.rosa_edited) [Sample.rosa; Sample.raul] = 0
  /\ fst (SinFramework.Storage.update Sample.rosa_edited s) = Ok false
  /\ SinStored.collection (snd (SinFramework.Storage.update Sample.rosa_edited s))
     = [Sample.rosa; Sample.raul].
Proof. vm_compute. repeat split; reflexivity. Qed.

End Update.

(** ** C4: removing a record *)

Section Remove.
Import JsString JsArray Contacto Host ContactoClass ContactRepository Stored.

(** [ContactRepository.remove] and the [remove] of part_001 do what C4
    says: a missing identifier is signalled (an [Error], the value
    [false]) and the collection stays; a stored identifier, at any index,
    has its first record removed and the collection written back. *)
Lemma remove_spec (i : string) (w : World) (l : list ContactData)
    (j : SinFramework.JsId) (s : SinFramework.State)
    (m : list SinFramework.Contacto) :
  holds w l -> forallb well_formed l = true -> SinStored.holds s m ->
  ((has_id i l = false ->
    fst (remove i w) = Throw (Error "Contacto no encontrado")
    /\ holds (snd (remove i w)) l)
   /\ (forall n old, l !! n = Some old -> d_id old = i ->
         has_id i (take n l) = false ->
         fst (remove i w) = Ok true /\ holds (snd (remove i w)) (delete n l)))
  /\ ((SinStored.index_of j m = -1 ->
       fst (SinFramework.Storage.remove j s) = Ok false
       /\ SinStored.holds (snd (SinFramework.Storage.remove j s)) m)
      /\ (forall n old, m !! n = Some old ->
            SinFramework.String_ (SinFramework.id old) = SinFramework.String_ j ->
            SinStored.index_of j (take n m) = -1 ->
            fst (SinFramework.Storage.remove j s) = Ok true
            /\ SinStored.holds (snd (SinFramework.Storage.remove j s))
                 (delete n m))).
Proof.
  intros H Hl Hs. split; split.
  - intros Hd. apply index_of_has_id in Hd.
    rewrite (remove_missing i w l H Hl Hd). auto.
  - intros n old Hn Hid Hb.
    assert (Hi : index_of i l = Z.of_nat n).
    { apply (findIndex_first _ l n old Hn); [|exact Hb].
      apply String.eqb_eq. exact Hid. }
    rewrite (remove_found i w l H Hl) by lia. rewrite Hi, Nat2Z.id.
    split; reflexivity.
  - intros Hi. rewrite (sin_remove_missing j s m Hs Hi). auto.
  - intros n old Hn Hid Hb.
    assert (Hi : SinStored.index_of j m = Z.of_nat n).
    { apply (findIndex_first _ m n old Hn).
      - apply String.eqb_eq. exact Hid.
      - apply findIndex_none. exact Hb. }
    rewrite (sin_remove_found j s m Hs) by lia. rewrite Hi, Nat2Z.id.
    split; reflexivity.
Qed.

(** C4 on the [remove] of part_000, which tests
    [(indice = this.indiceElemento(id) > 0)].  On a page that declares the
    globals [indice] and [i]: the record at index 0 is reported as missing
    and stays; for the record at index 2 the boolean [true] reaches
    [splice] as index 1 and the record at index 1 is removed instead.  On
    a page that does not declare them the strict class code throws a
    [ReferenceError] and nothing is removed. *)
Theorem remove_part_000_fails :
  let stored := Some (SinFramework.JsonArray [Sample.rosa; Sample.raul; Sample.sara]) in
  (let r := SinFramework.StorageV1.remove (SinFramework.id Sample.rosa)
              (Sample.state stored [] true) in
   fst r = Ok false
   /\ SinStored.collection (snd r) = [Sample.rosa; Sample.raul; Sample.sara])
  /\ (let r := SinFramework.StorageV1.remove (SinFramework.id Sample.sara)
                 (Sample.state stored [] true) in
      fst r = Ok true
      /\ SinStored.collection (snd r) = [Sample.rosa; Sample.sara])
  /\ (let r := SinFramework.StorageV1.remove (SinFramework.id Sample.raul)
                 (Sample.state stored [] false) in
      fst r = Throw (ReferenceError "indice is not defined")
      /\ SinStored.collection (snd r) = [Sample.rosa; Sample.raul; Sample.sara]).
Proof. vm_compute. repeat split; reflexivity. Qed.

End Remove.

(** ** C5: clearing the collection *)

Section Clear.
Import JsString JsArray Contacto Host ContactoClass ContactRepository Stored.

(** The storage-backed repositories do what C5 says: whatever the state,
    [clear] succeeds and leaves an empty collection, twice in a row
    too. *)
Lemma clear_twice (w : World) (s : SinFramework.State) :
  (fst (clear w) = Ok true /\ holds (snd (clear w)) []
   /\ fst (clear (snd (clear w))) = Ok true
   /\ holds (snd (clear (snd (clear w)))) [])
  /\ (fst (SinFramework.Storage.clear s) = Ok tt
      /\ SinStored.holds (snd (SinFramework.Storage.clear s)) []
      /\ fst (SinFramework.Storage.clear (snd (SinFramework.Storage.clear s))) = Ok tt
      /\ SinStored.holds
           (snd (SinFramework.Storage.clear (snd (SinFramework.Storage.clear s)))) []).
Proof.
  split.
  - destruct (clear_run w) as (n & w1 & E). rewrite E. cbn [fst snd].
    destruct (clear_run (say Log n (put (JSON_stringify []) w1))) as (n2 & w2 & E2).
    rewrite E2. cbn [fst snd]. repeat split.
  - repeat split.
Qed.

(** C5 on the in-memory repository
    (sin_framework/.../contactoRepository.js): [clear] calls
    [this.repo.clear()], which arrays do not have; every call throws a
    [TypeError] and the collection keeps its records. *)
Theorem memory_clear_throws (s : SinFramework.State) :
  SinFramework.Memory.clear s
  = (Throw (TypeError "this.repo.clear is not a function"), s)
  /\ SinFramework.repo (snd (SinFramework.Memory.clear s)) = SinFramework.repo s.
Proof. split; reflexivity. Qed.

Example memory_clear_keeps_records :
  let s := snd (SinFramework.Memory.add Sample.rosa (Sample.state None [] true)) in
  fst (SinFramework.Memory.clear s)
  = Throw (TypeError "this.repo.clear is not a function")
  /\ fst (SinFramework.Memory.getAll (snd (SinFramework.Memory.clear s)))
     = Ok [Sample.rosa].
Proof. vm_compute. split; reflexivity. Qed.

End Clear.

(** ** C6 and C9: reading the collection *)

Section GetAll.
Import JsString JsArray Contacto Host ContactoClass ContactRepository Stored.

(** C6, as amended.  In the repositories that persist to localStorage
    every [getAll] deserializes the item that is stored at the moment of
    the call: [ContactRepository.getAll] returns the stored records and a
    second call after the item was replaced returns the new ones; the
    [getAll] of part_001, which that of part_000 equals, returns the stored
    array whatever array the object held before; they return an empty
    collection when there is no item.
    The in-memory repository keeps no item: its [getAll] returns the array
    of the object. *)
Theorem getAll_spec (w : World) (l l' : list ContactData)
    (s : SinFramework.State) (m : list SinFramework.Contacto) :
  forallb well_formed l = true -> forallb well_formed l' = true ->
  holds w l ->
  (getAll w = (Ok (map read l), w)
   /\ getAll (put (JSON_stringify l') (snd (getAll w)))
      = (Ok (map read l'), put (JSON_stringify l') w))
  /\ (forall w0, localStorage w0 = None -> getAll w0 = (Ok [], w0))
  /\ (forall s0, SinStored.holds s0 m ->
        SinFramework.Storage.getAll s0 = (Ok m, SinStored.with_repo m s0))
  /\ (forall s0, SinFramework.localStorage s0 = None ->
        SinFramework.Storage.getAll s0 = (Ok [], SinStored.with_repo [] s0))
  /\ (forall s0, SinFramework.StorageV1.getAll s0 = SinFramework.Storage.getAll s0)
  /\ SinFramework.Memory.getAll s = (Ok (SinFramework.repo s), s).
Proof.
  intros Hl Hl' H. split; [|split; [|split; [|split; [|split]]]].
  - rewrite (getAll_holds w l H Hl). simpl. split; [reflexivity|].
    now apply getAll_holds.
  - intros w0 E. unfold getAll, try_catch, bind, getItem. rewrite E. reflexivity.
  - intros s0 Hs. unfold SinFramework.Storage.getAll, bind.
    rewrite (cargarAlmacenamiento_holds s0 m Hs). reflexivity.
  - intros s0 E. unfold SinFramework.Storage.getAll, SinFramework.cargarAlmacenamiento,
      bind, SinFramework.getItem. rewrite E. reflexivity.
  - reflexivity.
  - reflexivity.
Qed.

Lemma getAll_spec_witness :
  let w := Sample.world (Some (JSON_stringify Sample.two)) in
  getAll w = (Ok (map read Sample.two), w)
  /\ getAll (put (JSON_stringify [Sample.eva]) (snd (getAll w)))
     = (Ok (map read [Sample.eva]), put (JSON_stringify [Sample.eva]) w).
Proof.
  intros w.
  apply (getAll_spec w Sample.two [Sample.eva]
           (Sample.state None [] true) [Sample.rosa] eq_refl eq_refl eq_refl).
Defined.

(** C6, as stated, fails on the in-memory repository
    (sin_framework/.../contactoRepository.js): with no item stored,
    [getAll] after an [add] is not empty, and with records stored under
    the key a new repository object returns none of them. *)
Lemma memory_getAll_counterexample :
  (let s := snd (SinFramework.Memory.add Sample.rosa (Sample.state None [] true)) in
   SinFramework.localStorage s = None
   /\ fst (SinFramework.Memory.getAll s) = Ok [Sample.rosa])
  /\ (let s := snd (SinFramework.Memory.constructor
                      (Sample.state (Some (SinFramework.JsonArray [Sample.rosa])) [] true)) in
      SinStored.collection s = [Sample.rosa]
      /\ fst (SinFramework.Memory.getAll s) = Ok []).
Proof. vm_compute. repeat split; reflexivity. Qed.

(** C9.  When the stored text does not parse, [getAll] returns an empty
    collection and throws nothing; it writes an error line and the warning
    of [handleStorageError] on the console and replaces the item by the
    empty array, whatever the text was. *)
Theorem getAll_corrupt (raw : string) (w : World) :
  localStorage w = Some (Unparseable raw) ->
  fst (getAll w) = Ok []
  /\ holds (snd (getAll w)) []
  /\ console (snd (getAll w))
     = (console w ++ [(Err, "Error al obtener contactos:");
                      (Warn, "Reinicializando almacenamiento debido a errores...")])%list
  /\ getAll (snd (getAll w)) = (Ok [], snd (getAll w)).
Proof.
  intros E.
  assert (R : getAll w
              = (Ok [], put (JSON_stringify [])
                          (say Warn "Reinicializando almacenamiento debido a errores..."
                             (say Err "Error al obtener contactos:" w)))).
  { unfold getAll, try_catch, bind, getItem. rewrite E. reflexivity. }
  rewrite R. cbn [fst snd].
  split; [reflexivity|]. split; [reflexivity|].
  split; [simpl; now rewrite <- app_assoc|].
  now apply (getAll_holds _ []).
Qed.

Lemma getAll_corrupt_witness :
  let w := Sample.world (Some (Unparseable "[{id:")) in
  fst (getAll w) = Ok []
  /\ holds (snd (getAll w)) []
  /\ console (snd (getAll w))
     = (console w ++ [(Err, "Error al obtener contactos:");
                      (Warn, "Reinicializando almacenamiento debido a errores...")])%list
  /\ getAll (snd (getAll w)) = (Ok [], snd (getAll w)).
Proof.
  intros w. apply (getAll_corrupt "[{id:" w). reflexivity.
Defined.

End GetAll.

(** ** C10: what an update leaves alone *)

Section UpdateFrame.
Import JsString JsArray Contacto Host ContactoClass ContactRepository Stored.

Lemma insert_replaced_at {A} (n : nat) (x y : A) (l : list A) :
  l !! n = Some y -> replaced_at n x l (<[n := x]> l).
Proof.
  intros H. apply lookup_lt_Some in H. unfold replaced_at.
  split; [apply length_insert|]. split; [now apply list_lookup_insert_eq|].
  intros j Hj. now apply list_lookup_insert_ne.
Qed.

Lemma sin_v1_update_ok k s m :
  SinStored.holds s m ->
  fst (SinFramework.StorageV1.update k s) = Ok true ->
  let idx := findIndex (fun c => SinFramework.strict_eq (SinFramework.id c)
                                   (SinFramework.id k)) m in
  0 < idx
  /\ exists old, m !! Z.to_nat idx = Some old
       /\ snd (SinFramework.StorageV1.update k s)
          = SinStored.saved
              (<[Z.to_nat idx := SinFramework.set_fechaCreacion k
                                   (SinFramework.fechaCreacion old)]> m) s.
Proof.
  intros H. unfold SinFramework.StorageV1.update, SinFramework.StorageV1.indiceElemento, bind.
  rewrite (cargarAlmacenamiento_holds s m H).
  rewrite (cargarAlmacenamiento_holds _ m (holds_with_repo s m m H)).
  unfold SinFramework.assign_undeclared. simpl.
  destruct (SinFramework.declared s "indice") eqn:D1; simpl; [|discriminate].
  destruct (SinFramework.declared s "i") eqn:D2; simpl; [|discriminate].
  rewrite D1. simpl.
  destruct (0 <? _) eqn:E; simpl; [|discriminate]. apply Z.ltb_lt in E.
  destruct (m !! _) as [old|] eqn:Eo; simpl; [|discriminate].
  intros _. split; [exact E|]. exists old. split; reflexivity.
Qed.

(** C10.  When an update succeeds, the stored collection afterwards is the
    one before with the record at one index replaced, a record that had the
    identifier of the new one, and every other position as it was.  In the
    storage-backed framework-free repositories (part_001 and part_000) the
    record put there is the one given with its [fechaCreacion] overwritten
    by that of the stored record. *)
Theorem update_frame (c : Contacto.t) (w : World) (l : list ContactData)
    (k : SinFramework.Contacto) (s : SinFramework.State)
    (m : list SinFramework.Contacto) :
  holds w l -> forallb well_formed l = true -> SinStored.holds s m ->
  (fst (update c w) = Ok true ->
   exists n old l',
     l !! n = Some old /\ d_id old = id c
     /\ holds (snd (update c w)) l'
     /\ replaced_at n (toJSON (touched (clock w (ticks w)) c)) l l')
  /\ (fst (SinFramework.Storage.update k s) = Ok true ->
      exists n old m',
        m !! n = Some old
        /\ SinFramework.String_ (SinFramework.id old)
           = SinFramework.String_ (SinFramework.id k)
        /\ SinStored.holds (snd (SinFramework.Storage.update k s)) m'
        /\ replaced_at n
             (SinFramework.set_fechaCreacion k (SinFramework.fechaCreacion old))
             m m'
        /\ SinFramework.fechaCreacion
             (SinFramework.set_fechaCreacion k (SinFramework.fechaCreacion old))
           = SinFramework.fechaCreacion old)
  /\ (fst (SinFramework.StorageV1.update k s) = Ok true ->
      exists n old m',
        m !! n = Some old
        /\ SinFramework.strict_eq (SinFramework.id old) (SinFramework.id k) = true
        /\ SinStored.holds (snd (SinFramework.StorageV1.update k s)) m'
        /\ replaced_at n
             (SinFramework.set_fechaCreacion k (SinFramework.fechaCreacion old))
             m m'
        /\ SinFramework.fechaCreacion
             (SinFramework.set_fechaCreacion k (SinFramework.fechaCreacion old))
           = SinFramework.fechaCreacion old).
Proof.
  intros H Hl Hs. split; [|split].
  - intros Ok1.
    destruct (isValid c) eqn:Hv;
      [|rewrite (update_invalid c w Hv) in Ok1; discriminate].
    destruct (Z.eq_dec (index_of (id c) l) (-1)) as [Hi|Hi];
      [rewrite (update_missing c w l H Hl Hv Hi) in Ok1; discriminate|].
    destruct (findIndex_lookup _ l Hi) as (old & Ho & Hp & _).
    fold (index_of (id c) l) in Ho. apply String.eqb_eq in Hp.
    rewrite (update_found c w l H Hl Hv Hi). cbn [snd].
    eexists _, old, _. split; [exact Ho|]. split; [exact Hp|].
    split; [reflexivity|]. now apply (insert_replaced_at _ _ old).
  - intros Ok1.
    destruct (Z_lt_le_dec 0 (SinStored.index_of (SinFramework.id k) m)) as [Hi|Hi];
      [|rewrite (sin_update_low k s m Hs Hi) in Ok1; discriminate].
    assert (Hne : SinStored.index_of (SinFramework.id k) m <> -1) by lia.
    destruct (findIndex_lookup _ m Hne) as (old & Ho & Hp & _).
    fold (SinStored.index_of (SinFramework.id k) m) in Ho.
    apply String.eqb_eq in Hp.
    rewrite (sin_update_found k s m old Hs Hi Ho). cbn [snd].
    eexists _, old, _. split; [exact Ho|]. split; [exact Hp|].
    split; [reflexivity|]. split; [|reflexivity].
    now apply (insert_replaced_at _ _ old).
  - intros Ok1.
    destruct (sin_v1_update_ok k s m Hs Ok1) as (Hpos & old & Ho & E).
    assert (Hne : findIndex (fun c0 => SinFramework.strict_eq (SinFramework.id c0)
                                         (SinFramework.id k)) m <> -1) by lia.
    destruct (findIndex_lookup _ m Hne) as (old' & Ho' & Hp & _).
    rewrite Ho in Ho'. injection Ho' as <-.
    rewrite E.
    eexists _, old, _. split; [exact Ho|]. split; [exact Hp|].
    split; [reflexivity|]. split; [|reflexivity].
    now apply (insert_replaced_at _ _ old).
Qed.

(** The theorem at two stores of two records each. *)
Lemma update_frame_witness :
  let w := Sample.world (Some (JSON_stringify Sample.two)) in
  let s := Sample.state (Some (SinFramework.JsonArray [Sample.rosa; Sample.raul]))
             [] true in
  (exists n old l',
     Sample.two !! n = Some old /\ d_id old = id Sample.luis_edited
     /\ holds (snd (update Sample.luis_edited w)) l'
     /\ replaced_at n (toJSON (touched (clock w (ticks w)) Sample.luis_edited))
          Sample.two l')
  /\ (exists n old m',
        [Sample.rosa; Sample.raul] !! n = Some old
        /\ SinFramework.String_ (SinFramework.id old)
           = SinFramework.String_ (SinFramework.id Sample.raul_edited)
        /\ SinStored.holds (snd (SinFramework.Storage.update Sample.raul_edited s)) m'
        /\ replaced_at n
             (SinFramework.set_fechaCreacion Sample.raul_edited
                (SinFramework.fechaCreacion old))
             [Sample.rosa; Sample.raul] m'
        /\ SinFramework.fechaCreacion
             (SinFramework.set_fechaCreacion Sample.raul_edited
                (SinFramework.fechaCreacion old))
           = SinFramework.fechaCreacion old).
Proof.
  intros w s.
  destruct (update_frame Sample.luis_edited w Sample.two Sample.raul_edited s
              [Sample.rosa; Sample.raul] eq_refl eq_refl eq_refl)
    as (K1 & K2 & _).
  split; [apply K1 | apply K2]; vm_compute; reflexivity.
Defined.

(** The stored creation timestamp survives: [raul], created at 2000, is
    updated with a record that says 9000. *)
Example sin_update_keeps_fechaCreacion :
  let s := Sample.state (Some (SinFramework.JsonArray [Sample.rosa; Sample.raul]))
             [] true in
  SinStored.collection (snd (SinFramework.Storage.update Sample.raul_edited s))
  = [Sample.rosa;
     SinFramework.mkContacto (SinFramework.IdNum 1700000000002) "Raul Paz"
       "raul@z.net" "3007654321" "consulta" "adios" true "Telefono" 2000 9000].
Proof. vm_compute. reflexivity. Qed.

End UpdateFrame.

(** ** Importing *)

Section ImportFacts.
Import JsString JsArray Contacto Host ContactoClass ContactRepository Stored.

Lemma forEach_cons {S A T} (f : T -> A -> Eff.M S T) st x r w :
  forEach f st (x :: r) w
  = match f st x w with
    | (Ok st', w') => forEach f st' r w'
    | (Throw e, w') => (Throw e, w')
    end.
Proof. reflexivity. Qed.

Lemma import_one_null st k w :
  import_one st (k, None) w
  = (Ok (push_error st
           ("Contacto " ++ decimal (k + 1) ++ ": "
            ++ "Cannot read properties of null (reading 'id')")), w).
Proof. reflexivity. Qed.

(** One step of the import on an object: refused when invalid, skipped
    when its identifier is stored, collected otherwise. *)
Lemma import_one_object st k d w l :
  holds w l -> forallb well_formed l = true ->
  exists c w1,
    built_from d c /\ same_store w w1
    /\ import_one st (k, Some d) w
       = (Ok (if isValid c
              then if has_id (id c) l
                   then mkImportState (currentContacts st) (n_imported st)
                          (n_skipped st + 1) (errs st)
                   else mkImportState (currentContacts st ++ [c])
                          (n_imported st + 1) (n_skipped st) (errs st)
              else push_error st
                     ("Contacto " ++ decimal (k + 1) ++ ": "
                      ++ join ", " (map snd (errors c)))), w1).
Proof.
  intros H Hl. destruct (new_spec d w) as (c & w1 & E & B & S).
  pose proof (same_store_holds _ _ _ S H) as H1.
  exists c, w1. split; [exact B|]. split; [exact S|].
  unfold import_one, try_catch, bind, fromJSON. rewrite E.
  destruct (isValid c); simpl; [|reflexivity].
  rewrite (getById_holds w1 l (id c) H1 Hl), find_has_id.
  destruct (find _ l); reflexivity.
Qed.

(** What the [forEach] of [importFromJSON] collects: instances that are
    valid, carry an identifier no stored record has, in the order of the
    array. *)
Lemma forEach_import_one l :
  forallb well_formed l = true ->
  forall elems k st w,
    holds w l ->
    forallb (fun d => truthy (d_id d)) (present elems) = true ->
    exists acc imp skp es w',
      forEach import_one st (indexed_from k elems) w
      = (Ok (mkImportState (currentContacts st ++ acc) imp skp es), w')
      /\ same_store w w'
      /\ Forall (fun c => isValid c = true /\ truthy (id c) = true
                          /\ has_id (id c) l = false) acc
      /\ sublist (map id acc) (ids (present elems)).
Proof.
  intros Hl. induction elems as [|[d|] elems IH]; intros k st w H Hb.
  - exists [], (n_imported st), (n_skipped st), (errs st), w. simpl.
    rewrite app_nil_r. destruct st. repeat split; constructor.
  - simpl in Hb. apply andb_true_iff in Hb as [Hd Hb].
    destruct (import_one_object st k d w l H Hl) as (c & w1 & B & S & E).
    pose proof (same_store_holds _ _ _ S H) as H1.
    assert (Hid : id c = d_id d) by now apply B.
    cbn [indexed_from]. rewrite forEach_cons, E.
    destruct (isValid c) eqn:Hv; [destruct (has_id (id c) l) eqn:Hh|].
    + destruct (IH (k + 1) (mkImportState (currentContacts st) (n_imported st)
                               (n_skipped st + 1) (errs st)) w1 H1 Hb)
        as (acc & imp & skp & es & w' & E' & S' & F & Sub).
      rewrite E'. exists acc, imp, skp, es, w'. cbn [currentContacts present ids map].
      split; [reflexivity|]. split; [unfold same_store in *; congruence|].
      split; [exact F|]. now apply sublist_cons.
    + destruct (IH (k + 1) (mkImportState (currentContacts st ++ [c])
                               (n_imported st + 1) (n_skipped st) (errs st))
                  w1 H1 Hb)
        as (acc & imp & skp & es & w' & E' & S' & F & Sub).
      rewrite E'. exists (c :: acc), imp, skp, es, w'.
      cbn [currentContacts present ids map]. rewrite <- app_assoc.
      split; [reflexivity|]. split; [unfold same_store in *; congruence|].
      split.
      { constructor; [|exact F]. split; [exact Hv|]. split; [apply B | exact Hh]. }
      rewrite Hid. now apply sublist_skip.
    + destruct (IH (k + 1) (push_error st
                   ("Contacto " ++ decimal (k + 1) ++ ": "
                    ++ join ", " (map snd (errors c)))) w1 H1 Hb)
        as (acc & imp & skp & es & w' & E' & S' & F & Sub).
      rewrite E'. exists acc, imp, skp, es, w'. cbn [currentContacts present ids map].
      split; [reflexivity|]. split; [unfold same_store in *; congruence|].
      split; [exact F|]. now apply sublist_cons.
  - cbn [indexed_from present] in *. rewrite forEach_cons, import_one_null.
    destruct (IH (k + 1) (push_error st
                 ("Contacto " ++ decimal (k + 1) ++ ": "
                  ++ "Cannot read properties of null (reading 'id')")) w H Hb)
      as (acc & imp & skp & es & w' & E' & S' & F & Sub).
    rewrite E'. exists acc, imp, skp, es, w'. auto.
Qed.

Lemma importFromJSON_array elems w l :
  holds w l -> forallb well_formed l = true ->
  forallb (fun d => truthy (d_id d)) (present elems) = true ->
  exists acc res w',
    importFromJSON (Json (JArray elems)) w = (Ok res, w')
    /\ holds w' (l ++ map toJSON acc)
    /\ Forall (fun c => isValid c = true /\ truthy (id c) = true
                        /\ has_id (id c) l = false) acc
    /\ sublist (map id acc) (ids (present elems)).
Proof.
  intros H Hl Hb. unfold importFromJSON, try_catch, bind. simpl.
  rewrite (getAll_holds w l H Hl).
  destruct (forEach_import_one l Hl elems 0 (mkImportState (map read l) 0 0 []) w H Hb)
    as (acc & imp & skp & es & w' & E & S & F & Sub).
  rewrite E. simpl. rewrite map_app, map_toJSON_read by exact Hl.
  exists acc. eexists. eexists. split; [reflexivity|].
  split; [reflexivity|]. auto.
Qed.

(** A text that is not a JSON array leaves the store alone. *)
Lemma importFromJSON_other t w :
  (forall elems, t <> Json (JArray elems)) ->
  same_store w (snd (importFromJSON t w)).
Proof.
  intros Ht. unfold importFromJSON, try_catch, bind.
  destruct t as [raw|[| |elems]]; try reflexivity. now destruct (Ht elems).
Qed.

(** Into an empty store, every sound record of an exported array is
    imported. *)
Lemma forEach_import_empty l :
  sound l = true ->
  forall k st w,
    holds w [] ->
    forEach import_one st (indexed_from k (map Some l)) w
    = (Ok (mkImportState (currentContacts st ++ map read l)
             (n_imported st + Z.of_nat (length l)) (n_skipped st) (errs st)), w).
Proof.
  induction l as [|d l IH]; intros Hs k st w H.
  - simpl. rewrite app_nil_r, Z.add_0_r. destruct st. reflexivity.
  - simpl in Hs. apply andb_true_iff in Hs as [Hd Hs].
    apply andb_true_iff in Hd as [Hw Hv].
    cbn [map indexed_from]. rewrite forEach_cons.
    assert (E : import_one st (k, Some d) w
                = (Ok (mkImportState (currentContacts st ++ [read d])
                         (n_imported st + 1) (n_skipped st) (errs st)), w)).
    { unfold import_one, try_catch, bind, fromJSON.
      rewrite (new_read d w Hw), Hv. simpl.
      rewrite (getById_holds w [] _ H eq_refl). reflexivity. }
    rewrite E, (IH Hs (k + 1) _ w H). cbn [currentContacts n_imported n_skipped errs].
    rewrite <- app_assoc. cbn [length app]. do 3 f_equal. lia.
Qed.

End ImportFacts.

(** ** C7: identifiers stay distinct *)

Section Invariant.
Import JsString JsArray Contacto Host ContactoClass ContactRepository Stored.

Lemma sound_app l l' : sound (l ++ l') = sound l && sound l'.
Proof. apply forallb_app. Qed.

Lemma forallb_insert {A} (p : A -> bool) n x l :
  p x = true -> forallb p l = true -> forallb p (<[n := x]> l) = true.
Proof.
  intros Hx. revert n. induction l as [|y l IH]; intros [|n]; simpl; auto.
  - rewrite Hx. now intros [_ ->]%andb_true_iff.
  - intros [-> Hl]%andb_true_iff. now rewrite IH.
Qed.

Lemma forallb_delete {A} (p : A -> bool) n (l : list A) :
  forallb p l = true -> forallb p (delete n l) = true.
Proof.
  revert n. induction l as [|y l IH]; intros [|n]; simpl; auto.
  - now intros [_ ->]%andb_true_iff.
  - intros [-> Hl]%andb_true_iff. now rewrite IH.
Qed.

Lemma sound_toJSON c :
  isValid c = true -> truthy (id c) = true ->
  well_formed (toJSON c) && isValid (read (toJSON c)) = true.
Proof.
  intros Hv Hi. rewrite well_formed_toJSON, isValid_read_toJSON; auto.
  now apply isValid_preferencia.
Qed.

Lemma isValid_touched now c : isValid (touched now c) = isValid c.
Proof. unfold isValid. now rewrite (errors_fields (touched now c) c). Qed.

Lemma ids_insert n x old l :
  l !! n = Some old -> d_id x = d_id old -> ids (<[n := x]> l) = ids l.
Proof.
  intros Hn Hx. unfold ids. rewrite map_insert, Hx.
  apply list_insert_id. now rewrite map_lookup, Hn.
Qed.

Lemma NoDup_ids_delete n l :
  List.NoDup (ids l) -> List.NoDup (ids (delete n l)).
Proof.
  unfold ids. rewrite map_delete, <- !NoDup_ListNoDup. intros N.
  eapply sublist_NoDup; [exact N | apply sublist_delete].
Qed.

Lemma NoDup_ids_app l acc :
  List.NoDup (ids l) -> List.NoDup (map id acc) ->
  Forall (fun c => has_id (id c) l = false) acc ->
  List.NoDup (ids (l ++ map toJSON acc)).
Proof.
  intros N1 N2 F. unfold ids. rewrite map_app, map_map. simpl.
  rewrite <- NoDup_ListNoDup in *. apply NoDup_app. split; [exact N1|].
  split; [|exact N2].
  intros i Hi Hin. apply list_elem_of_In in Hi, Hin.
  apply in_map_iff in Hin as (c & <- & Hc).
  rewrite Forall_forall in F. apply list_elem_of_In in Hc.
  specialize (F c Hc). apply has_id_false_In in F. now apply F.
Qed.

Lemma sound_map_toJSON acc :
  Forall (fun c => isValid c = true /\ truthy (id c) = true) acc ->
  sound (map toJSON acc) = true.
Proof.
  induction 1 as [|c acc [Hv Hi] _ IH]; simpl; [reflexivity|].
  now rewrite sound_toJSON, IH.
Qed.

(** Every admissible operation keeps the store consistent. *)
Lemma perform_consistent o w :
  admissible o -> consistent w -> consistent (perform o w).
Proof.
  intros Ha (l & H & Hs & N).
  pose proof (sound_well_formed l Hs) as Hl.
  destruct o as [c|c|i| |t]; simpl in Ha |- *.
  - destruct (isValid c) eqn:Hv;
      [|rewrite (add_invalid c w Hv); exists l; auto].
    destruct (has_id (id c) l) eqn:Hd;
      [rewrite (add_duplicate c w l H Hl Hv Hd); exists l; auto|].
    rewrite (add_fresh c w l H Hl Hv Hd). exists (l ++ [toJSON c])%list.
    split; [reflexivity|]. split.
    + rewrite sound_app, Hs. simpl. now rewrite sound_toJSON.
    + apply (NoDup_ids_app l [c] N).
      * repeat constructor. intros [].
      * now constructor.
  - destruct (isValid c) eqn:Hv;
      [|rewrite (update_invalid c w Hv); exists l; auto].
    destruct (Z.eq_dec (index_of (id c) l) (-1)) as [Hi|Hi];
      [rewrite (update_missing c w l H Hl Hv Hi); exists l; auto|].
    destruct (findIndex_lookup _ l Hi) as (old & Ho & Hp & _).
    fold (index_of (id c) l) in Ho. apply String.eqb_eq in Hp.
    rewrite (update_found c w l H Hl Hv Hi). eexists.
    split; [reflexivity|]. split.
    + apply forallb_insert; [|exact Hs].
      apply sound_toJSON; [now rewrite isValid_touched | exact Ha].
    + rewrite (ids_insert _ _ old); auto.
  - destruct (Z.eq_dec (index_of i l) (-1)) as [Hi|Hi];
      [rewrite (remove_missing i w l H Hl Hi); exists l; auto|].
    rewrite (remove_found i w l H Hl Hi). eexists.
    split; [reflexivity|]. split.
    + now apply forallb_delete.
    + now apply NoDup_ids_delete.
  - destruct (clear_run w) as (n & w' & E). rewrite E. exists [].
    split; [reflexivity|]. split; [reflexivity | constructor].
  - destruct t as [raw|[| |elems]];
      try (exists l; split; [|auto];
           apply (same_store_holds w); [|exact H];
           apply importFromJSON_other; intros; discriminate).
    destruct Ha as [Hb Nb].
    destruct (importFromJSON_array elems w l H Hl Hb)
      as (acc & res & w' & E & H' & F & Sub).
    rewrite E. exists (l ++ map toJSON acc)%list. split; [exact H'|]. split.
    + rewrite sound_app, Hs. simpl. apply sound_map_toJSON.
      eapply Forall_impl; [exact F|]. simpl. tauto.
    + apply NoDup_ids_app; [exact N| |].
      * rewrite <- NoDup_ListNoDup in *. now apply (sublist_NoDup _ _ Nb).
      * eapply Forall_impl; [exact F|]. simpl. tauto.
Qed.

Lemma run_consistent ops : forall w,
  Forall admissible ops -> consistent w -> consistent (run ops w).
Proof.
  unfold run. induction ops as [|o ops IH]; intros w Ha Hc; simpl; [exact Hc|].
  apply Forall_cons_1 in Ha as [Ho Ha]. apply IH; [exact Ha|].
  now apply perform_consistent.
Qed.

(** The stores the operations can reach from a blank one are consistent:
    the premises on the store in the statements of this file hold of
    them. *)
Lemma reachable_consistent ops w :
  blank w -> Forall admissible ops -> consistent (run ops (fresh w)).
Proof.
  intros H Ha. apply run_consistent; [exact Ha|].
  exists []. split; [now apply fresh_blank|]. split; [reflexivity | constructor].
Qed.

(** C7, as amended.  Starting from an empty collection (a repository
    object constructed on a blank store), after any sequence of [add],
    [update], [remove], [clear] and imports on [ContactRepository] - with
    instances that carry an identifier, as the constructor makes them, and
    imported arrays whose objects carry identifiers that differ from one
    another - the stored collection never contains two records with the
    same identifier. *)
Theorem identifiers_stay_distinct (ops : list op) (w : World) :
  blank w -> Forall admissible ops ->
  exists l, holds (run ops (fresh w)) l /\ List.NoDup (ids l).
Proof.
  intros H Ha.
  destruct (reachable_consistent ops w H Ha) as (l & Hl & _ & N).
  exists l. auto.
Qed.

Lemma identifiers_stay_distinct_witness :
  let ops := [Add (read Sample.luis); Add (read Sample.eva);
              Add (read Sample.luis); Update Sample.luis_edited;
              Import (Json (JArray [Some Sample.eva; None; Some Sample.luis_again]));
              Remove "contact_2_b"] in
  exists l, holds (run ops (fresh (Sample.world None))) l
            /\ List.NoDup (ids l).
Proof.
  intros ops. apply identifiers_stay_distinct; [left; reflexivity|].
  repeat constructor; simpl; intuition discriminate.
Defined.

(** C7, as stated, fails on the framework-free repository of part_001,
    whose [add] pushes without looking: the same record added twice to an
    empty collection is stored twice. *)
Lemma sin_add_counterexample :
  let s := Sample.state None [] true in
  let s2 := snd (SinFramework.Storage.add Sample.rosa
                   (snd (SinFramework.Storage.add Sample.rosa s))) in
  SinStored.collection s = []
  /\ SinStored.collection s2 = [Sample.rosa; Sample.rosa]
  /\ ~ List.NoDup (SinStored.ids (SinStored.collection s2)).
Proof.
  split; [reflexivity|]. split; [reflexivity|].
  intros N. vm_compute in N. apply List.NoDup_cons_iff in N as [N _].
  apply N. left. reflexivity.
Qed.

(** Through the facade of part_001 the identifier is [Date.now()]: two
    forms saved within one millisecond get the same one. *)
Example sin_guardarContacto_same_instant :
  let s := Sample.state_at_instant 1700000000000 in
  let s2 := snd (SinFramework.Storage.guardarContacto Sample.formulario
                   (snd (SinFramework.Storage.guardarContacto Sample.formulario s))) in
  SinStored.ids (SinStored.collection s2)
  = [SinFramework.IdNum 1700000000000; SinFramework.IdNum 1700000000000].
Proof. vm_compute. reflexivity. Qed.

(** The slip of [importFromJSON]: each object is looked up in the store,
    not among the objects already accepted, so an array that repeats an
    identifier is imported with the repetition. *)
Example import_repeated_identifier :
  let w := Sample.world (Some (JSON_stringify [])) in
  collection (snd (importFromJSON (Json (JArray [Some Sample.luis; Some Sample.luis])) w))
  = [Sample.luis; Sample.luis].
Proof. vm_compute. reflexivity. Qed.

End Invariant.

(** ** C8: export and import *)

Section RoundTrip.
Import JsString JsArray Contacto Host ContactoClass ContactRepository Stored.

(** C8.  For the records a store of the repository holds (well formed and
    valid), the text [exportToJSON] returns, imported by a repository
    object constructed on a blank store, gives the same records again;
    every one is imported, none is skipped and none is refused. *)
Theorem export_import_round_trip (w w0 : World) (l : list ContactData) :
  holds w l -> sound l = true -> blank w0 ->
  exists t,
    exportToJSON w = (Ok t, w)
    /\ fst (importFromJSON t (fresh w0))
       = Ok (mkImport (Z.of_nat (length l)) 0 [] (Z.of_nat (length l)))
    /\ holds (snd (importFromJSON t (fresh w0))) l
    /\ collection (snd (importFromJSON t (fresh w0))) = collection w.
Proof.
  intros H Hs H0. apply fresh_blank in H0.
  pose proof (sound_well_formed l Hs) as Hl.
  exists (JSON_stringify l).
  assert (E1 : exportToJSON w = (Ok (JSON_stringify l), w)).
  { unfold exportToJSON, try_catch, bind. rewrite (getAll_holds w l H Hl).
    unfold ret. now rewrite map_toJSON_read. }
  assert (E2 : importFromJSON (JSON_stringify l) (fresh w0)
               = (Ok (mkImport (Z.of_nat (length l)) 0 [] (Z.of_nat (length l))),
                  put (JSON_stringify l) (fresh w0))).
  { unfold importFromJSON, try_catch, bind. simpl.
    rewrite (getAll_holds (fresh w0) [] H0 eq_refl).
    rewrite (forEach_import_empty l Hs 0 _ (fresh w0) H0). simpl.
    rewrite map_toJSON_read, length_map by exact Hl. reflexivity. }
  rewrite E1, E2. split; [reflexivity|]. split; [reflexivity|].
  split; [reflexivity|].
  unfold collection. rewrite H. simpl.
  clear. induction l as [|d l IH]; simpl; [reflexivity|].
  unfold JSON_stringify in IH. simpl in IH.
  destruct (objects (map Some l)); simpl in *; congruence.
Qed.

Lemma export_import_round_trip_witness :
  let w := Sample.world (Some (JSON_stringify Sample.two)) in
  let w0 := Sample.world None in
  exists t,
    exportToJSON w = (Ok t, w)
    /\ fst (importFromJSON t (fresh w0)) = Ok (mkImport 2 0 [] 2)
    /\ holds (snd (importFromJSON t (fresh w0))) Sample.two
    /\ collection (snd (importFromJSON t (fresh w0))) = collection w.
Proof.
  intros w w0.
  apply (export_import_round_trip w w0 Sample.two);
    [reflexivity | reflexivity | left; reflexivity].
Defined.

End RoundTrip.

(** * Further properties *)

(** ** What [validate] accepts *)

Section ValidationFacts.
Import JsString RegExp Contacto Host ContactoClass ContactoMore Stored.

Lemma all_chars_append p a b :
  all_chars p (a ++ b) = all_chars p a && all_chars p b.
Proof.
  induction a as [|c a IH]; [reflexivity|].
  rewrite append_String. simpl. now rewrite IH, andb_assoc.
Qed.

Lemma length_append (a b : string) :
  String.length (a ++ b) = (String.length a + String.length b)%nat.
Proof.
  induction a as [|c a IH]; [reflexivity|]. rewrite append_String. simpl.
  now rewrite IH.
Qed.

Lemma append_assoc (a b c : string) : ((a ++ b) ++ c)%string = (a ++ b ++ c)%string.
Proof.
  induction a as [|x a IH]; [reflexivity|]. rewrite !append_String. now rewrite IH.
Qed.

Lemma append_Empty_r (a : string) : (a ++ EmptyString)%string = a.
Proof.
  induction a as [|x a IH]; [reflexivity|]. rewrite append_String. now rewrite IH.
Qed.

Lemma matches_empty_inv s : matches Empty s -> s = EmptyString.
Proof. inversion 1; reflexivity. Qed.

Lemma matches_chr a s : matches (Chr a) s <-> s = String a EmptyString.
Proof.
  unfold Chr. split.
  - intros (c & -> & E)%matches_class_inv. apply Ascii.eqb_eq in E. now subst.
  - intros ->. constructor. apply Ascii.eqb_refl.
Qed.

Lemma matches_star_class p s :
  matches (Star (Class p)) s <-> all_chars p s = true.
Proof.
  split.
  - intros H. remember (Star (Class p)) as r eqn:Er.
    induction H as [|q c0 Hq|r1 r2 s1 s2 H1 IH1 H2 IH2|r1 r2 s0 H0 IH0
                   |r1 r2 s0 H0 IH0|r0|r0 s1 s2 H1 IH1 H2 IH2];
      try discriminate.
    + reflexivity.
    + injection Er as ->.
      apply matches_class_inv in H1 as (c & -> & Pc).
      rewrite append_String, append_Empty. simpl. rewrite Pc. now apply IH2.
  - induction s as [|c s IH]; simpl; [constructor|].
    intros [Pc Hs]%andb_true_iff.
    apply (m_star_cons (Class p) (String c EmptyString) s);
      [now constructor | now apply IH].
Qed.

Lemma matches_plus_class p s :
  matches (Plus (Class p)) s <-> s <> EmptyString /\ all_chars p s = true.
Proof.
  unfold Plus. split.
  - intros (s1 & s2 & -> & H1 & H2)%matches_cat_inv.
    apply matches_class_inv in H1 as (c & -> & Pc).
    apply matches_star_class in H2. rewrite append_String, append_Empty.
    simpl. rewrite Pc, H2. split; [discriminate | reflexivity].
  - intros [Hne Hs]. destruct s as [|c s]; [congruence|]. simpl in Hs.
    apply andb_true_iff in Hs as [Pc Hs].
    apply (m_cat (Class p) (Star (Class p)) (String c EmptyString) s);
      [now constructor | now apply matches_star_class].
Qed.

Lemma matches_times_class p n s :
  matches (Times n (Class p)) s
  <-> String.length s = n /\ all_chars p s = true.
Proof.
  revert s. induction n as [|n IH]; intros s; simpl.
  - split.
    + intros ->%matches_empty_inv. auto.
    + intros [E _]. destruct s; [constructor | discriminate].
  - split.
    + intros (s1 & s2 & -> & H1 & H2)%matches_cat_inv.
      apply matches_class_inv in H1 as (c & -> & Pc).
      apply IH in H2 as [E A]. rewrite append_String, append_Empty. simpl.
      now rewrite E, Pc, A.
    + intros [E A]. destruct s as [|c s]; [discriminate|]. simpl in E, A.
      apply andb_true_iff in A as [Pc A].
      apply (m_cat (Class p) (Times n (Class p)) (String c EmptyString) s);
        [now constructor|]. apply IH. split; [congruence | exact A].
Qed.

Lemma matches_upto_class p n s :
  matches (UpTo n (Class p)) s
  <-> (String.length s <= n)%nat /\ all_chars p s = true.
Proof.
  revert s. induction n as [|n IH]; intros s; simpl.
  - split.
    + intros ->%matches_empty_inv. auto.
    + intros [E _]. destruct s; [constructor | simpl in E; lia].
  - unfold Opt. split.
    + intros [H|H]%matches_alt_inv.
      * apply matches_cat_inv in H as (s1 & s2 & -> & H1 & H2).
        apply matches_class_inv in H1 as (c & -> & Pc).
        apply IH in H2 as [E A]. rewrite append_String, append_Empty. simpl.
        rewrite Pc, A. split; [lia | reflexivity].
      * apply matches_empty_inv in H as ->. simpl. split; [lia | reflexivity].
    + intros [E A]. destruct s as [|c s]; [apply m_alt_r; constructor|].
      simpl in E, A. apply andb_true_iff in A as [Pc A]. apply m_alt_l.
      apply (m_cat (Class p) (UpTo n (Class p)) (String c EmptyString) s);
        [now constructor|]. apply IH. split; [lia | exact A].
Qed.

(** A string of at least [n] characters splits after the first [n]. *)
Lemma split_at n : forall s,
  (n <= String.length s)%nat ->
  exists s1 s2, s = (s1 ++ s2)%string /\ String.length s1 = n.
Proof.
  induction n as [|n IH]; intros s Hn.
  - exists EmptyString, s. auto.
  - destruct s as [|c s]; [simpl in Hn; lia|]. simpl in Hn.
    destruct (IH s) as (s1 & s2 & -> & E); [lia|].
    exists (String c s1), s2. rewrite append_String. simpl. auto.
Qed.

Lemma matches_between_class p lo hi s :
  (lo <= hi)%nat ->
  matches (Between lo hi (Class p)) s
  <-> (lo <= String.length s <= hi)%nat /\ all_chars p s = true.
Proof.
  intros Hlh. unfold Between. split.
  - intros (s1 & s2 & -> & H1 & H2)%matches_cat_inv.
    apply matches_times_class in H1 as [E1 A1].
    apply matches_upto_class in H2 as [E2 A2].
    rewrite length_append, all_chars_append, A1, A2. split; [lia | reflexivity].
  - intros [[H1 H2] A].
    destruct (split_at lo s H1) as (s1 & s2 & -> & E).
    rewrite all_chars_append in A. apply andb_true_iff in A as [A1 A2].
    rewrite length_append in H2. apply m_cat.
    + now apply matches_times_class.
    + apply matches_upto_class. split; [lia | exact A2].
Qed.

(** X1.  The email pattern accepts exactly the strings of the form
    [a@b.c] where [a], [b] and [c] are not empty and hold neither white
    space nor another [@]. *)
Theorem emailRegex_shape (s : string) :
  test emailRegex s = true
  <-> exists a b c,
        s = (a ++ "@" ++ b ++ "." ++ c)%string
        /\ a <> EmptyString /\ b <> EmptyString /\ c <> EmptyString
        /\ all_chars not_space_at a = true
        /\ all_chars not_space_at b = true
        /\ all_chars not_space_at c = true.
Proof.
  rewrite test_matches. unfold emailRegex. split.
  - intros (a & r1 & -> & Ha & H1)%matches_cat_inv.
    apply matches_cat_inv in H1 as (x & r2 & -> & Hx & H2).
    apply matches_cat_inv in H2 as (b & r3 & -> & Hb & H3).
    apply matches_cat_inv in H3 as (y & c & -> & Hy & Hc).
    apply matches_chr in Hx, Hy. subst x y.
    apply matches_plus_class in Ha as [Na Aa], Hb as [Nb Ab], Hc as [Nc Ac].
    exists a, b, c. repeat split; auto.
  - intros (a & b & c & -> & Na & Nb & Nc & Aa & Ab & Ac).
    apply m_cat; [now apply matches_plus_class|].
    apply (m_cat (Chr "@") _ "@"); [now apply matches_chr|].
    apply m_cat; [now apply matches_plus_class|].
    apply (m_cat (Chr ".") _ "."); [now apply matches_chr|].
    now apply matches_plus_class.
Qed.

(** X2.  The phone pattern accepts exactly an optional [+] followed by 7 to 15
    characters, each a digit, white space, a hyphen or a parenthesis; it
    does not ask for any digit. *)
Theorem phoneRegex_shape (s : string) :
  test phoneRegex s = true
  <-> exists t,
        (s = t \/ s = String "+" t)
        /\ (7 <= String.length t <= 15)%nat
        /\ all_chars phone_char t = true.
Proof.
  rewrite test_matches. unfold phoneRegex, Opt. split.
  - intros (x & t & -> & Hx & Ht)%matches_cat_inv.
    apply matches_between_class in Ht as [L A]; [|lia].
    exists t. split; [|auto].
    apply matches_alt_inv in Hx as [Hx|Hx].
    + apply matches_chr in Hx as ->. right. reflexivity.
    + apply matches_empty_inv in Hx as ->. left. reflexivity.
  - intros (t & [-> | ->] & L & A).
    + apply (m_cat _ _ EmptyString t); [apply m_alt_r; constructor|].
      apply matches_between_class; [lia | auto].
    + apply (m_cat _ _ "+" t); [apply m_alt_l; now apply matches_chr|].
      apply matches_between_class; [lia | auto].
Qed.

End ValidationFacts.

(** ** The report of [validate] *)

Section ReportFacts.
Import JsString RegExp Contacto Host ContactoClass ContactoMore Stored.

Lemma len_nonneg s : 0 <= len s.
Proof. unfold len. lia. Qed.

Lemma len_zero_iff s : len s = 0 <-> s = EmptyString.
Proof. unfold len. destruct s; simpl; split; (discriminate || lia || auto). Qed.

Lemma check_nombre_nil c :
  check_nombre c = [] <-> 2 <= len (trim (nombre c)) <= 100.
Proof.
  unfold check_nombre. pose proof (len_nonneg (trim (nombre c))).
  destruct (len (trim (nombre c)) =? 0) eqn:E0;
    [apply Z.eqb_eq in E0; split; [discriminate | lia]|].
  destruct (len (trim (nombre c)) <? 2) eqn:E1;
    [apply Z.ltb_lt in E1; split; [discriminate | lia]|].
  destruct (100 <? len (trim (nombre c))) eqn:E2;
    [apply Z.ltb_lt in E2; split; [discriminate | lia]|].
  apply Z.ltb_ge in E1, E2. split; [lia | reflexivity].
Qed.

Lemma check_email_nil c :
  check_email c = [] <-> test emailRegex (trim (email c)) = true.
Proof.
  unfold check_email.
  destruct (len (trim (email c)) =? 0) eqn:E0.
  - apply Z.eqb_eq, len_zero_iff in E0. rewrite E0. split; discriminate.
  - destruct (test emailRegex (trim (email c))); split;
      (reflexivity || discriminate).
Qed.

Lemma check_telefono_nil c :
  check_telefono c = []
  <-> trim (telefono c) = EmptyString
      \/ test phoneRegex (trim (telefono c)) = true.
Proof.
  unfold check_telefono. rewrite !truthy_len.
  destruct (0 <? len (trim (telefono c))) eqn:E.
  - rewrite <- truthy_len in E. pose proof (truthy_trim _ E) as T.
    rewrite truthy_len in T. rewrite T. simpl.
    destruct (test phoneRegex (trim (telefono c))); split; auto.
    + discriminate.
    + intros [H|H]; [rewrite H in E|]; discriminate.
  - rewrite andb_false_r. split; [|reflexivity]. intros _. left.
    apply Z.ltb_ge in E. apply len_zero_iff.
    pose proof (len_nonneg (trim (telefono c))). lia.
Qed.

Lemma check_asunto_nil c :
  check_asunto c = [] <-> trim (asunto c) <> EmptyString.
Proof.
  unfold check_asunto. rewrite <- len_zero_iff.
  destruct (len (trim (asunto c)) =? 0) eqn:E.
  - apply Z.eqb_eq in E. split; [discriminate | congruence].
  - apply Z.eqb_neq in E. split; auto.
Qed.

Lemma check_mensaje_nil c :
  check_mensaje c = [] <-> len (trim (mensaje c)) <= 1000.
Proof.
  unfold check_mensaje. rewrite truthy_len.
  destruct (1000 <? len (trim (mensaje c))) eqn:E.
  - assert (T : (0 <? len (trim (mensaje c))) = true).
    { apply Z.ltb_lt. apply Z.ltb_lt in E. lia. }
    rewrite <- truthy_len in T. apply truthy_trim in T.
    rewrite truthy_len in T. rewrite T. simpl.
    apply Z.ltb_lt in E. split; [discriminate | lia].
  - rewrite andb_false_r. apply Z.ltb_ge in E. split; auto.
Qed.

Lemma check_terms_nil c : check_terms c = [] <-> aceptaTerminos c = true.
Proof.
  unfold check_terms. destruct (aceptaTerminos c); split;
    (reflexivity || discriminate).
Qed.

Lemma check_preferencia_nil c :
  check_preferencia c = [] <-> In (preferenciaContacto c) preferencasValidas.
Proof.
  unfold check_preferencia, Contacto.includes.
  destruct (existsb _ preferencasValidas) eqn:E.
  - apply existsb_exists in E as (x & Hx & Ex). apply String.eqb_eq in Ex.
    subst x. split; auto.
  - split; [discriminate|]. intros Hin.
    assert (T : existsb (String.eqb (preferenciaContacto c)) preferencasValidas = true).
    { apply existsb_exists. exists (preferenciaContacto c).
      split; [exact Hin | apply String.eqb_refl]. }
    congruence.
Qed.

(** X3.  [validate] accepts a record exactly when its trimmed name has 2 to 100
    characters, its trimmed email matches the email pattern, its phone is
    blank or matches the phone pattern, its subject is not blank, its
    trimmed message has at most 1000 characters, the terms are accepted
    and the preference is one of the three values. *)
Theorem isValid_iff (c : Contacto.t) :
  isValid c = true
  <-> 2 <= len (trim (nombre c)) <= 100
      /\ test emailRegex (trim (email c)) = true
      /\ (trim (telefono c) = EmptyString
          \/ test phoneRegex (trim (telefono c)) = true)
      /\ trim (asunto c) <> EmptyString
      /\ len (trim (mensaje c)) <= 1000
      /\ aceptaTerminos c = true
      /\ In (preferenciaContacto c) preferencasValidas.
Proof.
  rewrite <- check_nombre_nil, <- check_email_nil, <- check_telefono_nil,
    <- check_asunto_nil, <- check_mensaje_nil, <- check_terms_nil,
    <- check_preferencia_nil.
  unfold isValid. split.
  - destruct (errors c) eqn:E; [|discriminate]. intros _. unfold errors in E.
    repeat (apply app_eq_nil in E as [? E]). repeat split; assumption.
  - intros (H1 & H2 & H3 & H4 & H5 & H6 & H7). unfold errors.
    rewrite H1, H2, H3, H4, H5, H6, H7. reflexivity.
Qed.

Lemma fst_check_nombre c : map fst (check_nombre c) `sublist_of` ["nombre"].
Proof.
  unfold check_nombre.
  repeat match goal with |- context [if ?b then _ else _] => destruct b end;
    simpl; repeat constructor.
Qed.

Lemma fst_check_email c : map fst (check_email c) `sublist_of` ["email"].
Proof.
  unfold check_email.
  repeat match goal with |- context [if ?b then _ else _] => destruct b end;
    simpl; repeat constructor.
Qed.

Lemma fst_check_telefono c : map fst (check_telefono c) `sublist_of` ["telefono"].
Proof.
  unfold check_telefono.
  repeat match goal with |- context [if ?b then _ else _] => destruct b end;
    simpl; repeat constructor.
Qed.

Lemma fst_check_asunto c : map fst (check_asunto c) `sublist_of` ["asunto"].
Proof.
  unfold check_asunto.
  repeat match goal with |- context [if ?b then _ else _] => destruct b end;
    simpl; repeat constructor.
Qed.

Lemma fst_check_mensaje c : map fst (check_mensaje c) `sublist_of` ["mensaje"].
Proof.
  unfold check_mensaje.
  repeat match goal with |- context [if ?b then _ else _] => destruct b end;
    simpl; repeat constructor.
Qed.

Lemma fst_check_terms c : map fst (check_terms c) `sublist_of` ["terms"].
Proof.
  unfold check_terms. destruct (aceptaTerminos c); simpl; repeat constructor.
Qed.

Lemma fst_check_preferencia c :
  map fst (check_preferencia c) `sublist_of` ["preferenciaContacto"].
Proof.
  unfold check_preferencia.
  destruct (Contacto.includes _ _); simpl; repeat constructor.
Qed.

(** X4.  [validate] reports at most one error per field, in the order in
    which it examines the fields: never more than seven, never two for the
    same field. *)
Theorem errors_one_per_field (c : Contacto.t) :
  map fst (errors c) `sublist_of` validated_fields
  /\ List.NoDup (map fst (errors c))
  /\ (length (errors c) <= 7)%nat.
Proof.
  assert (S : map fst (errors c) `sublist_of` validated_fields).
  { unfold errors, validated_fields. rewrite !map_app.
    change ["nombre"; "email"; "telefono"; "asunto"; "mensaje"; "terms";
            "preferenciaContacto"]
      with (["nombre"] ++ ["email"] ++ ["telefono"] ++ ["asunto"]
            ++ ["mensaje"] ++ ["terms"] ++ ["preferenciaContacto"])%list.
    repeat apply sublist_app;
      auto using fst_check_nombre, fst_check_email, fst_check_telefono,
        fst_check_asunto, fst_check_mensaje, fst_check_terms,
        fst_check_preferencia. }
  split; [exact S|]. split.
  - apply NoDup_ListNoDup. eapply sublist_NoDup; [|exact S].
    apply NoDup_ListNoDup. unfold validated_fields.
    repeat constructor; simpl; intuition discriminate.
  - apply sublist_length in S. rewrite length_map in S. exact S.
Qed.

(** The verdict of [validateForm] is that of [validate] on the instance
    [guardarContacto] then builds, whatever the clock and the random
    source give: the identifier and the timestamps play no part. *)
Theorem validateForm_errors (d : ContactData) (w : World) :
  fst (ContactFacade.validateForm d w) = Ok (errors (candidate d w))
  /\ forall w', fst (ContactFacade.validateForm d w')
                = fst (ContactFacade.validateForm d w).
Proof.
  assert (G : forall v, exists c, built_from d c
                /\ fst (ContactFacade.validateForm d v) = Ok (errors c)).
  { intros v. destruct (new_spec d v) as (c & v1 & E & B & _).
    exists c. split; [exact B|].
    unfold ContactFacade.validateForm, bind. now rewrite E. }
  destruct (G w) as (c & B & E). split.
  - rewrite E. f_equal. unfold candidate, value.
    destruct (new_spec d w) as (c0 & w1 & E0 & B0 & _). rewrite E0.
    destruct (new_spec d w1) as (c1 & w2 & E1 & B1 & _). simpl.
    rewrite E1. simpl. apply (built_from_errors d); assumption.
  - intros w'. destruct (G w') as (c' & B' & E'). rewrite E, E'.
    f_equal. apply (built_from_errors d); assumption.
Qed.

End ReportFacts.

(** ** Construction, cloning and age *)

Section InstanceFacts.
Import JsString RegExp Contacto Host ContactoClass ContactoMore Stored.

(** X5.  Whatever object [new Contacto] is given, the instance has an
    identifier, kept when the object brings one and otherwise generated
    from the clock and the random source, and a preference; its [toJSON]
    form is a well-formed record.  Constructing touches neither the store
    nor the console. *)
Theorem constructed_well_formed (d : ContactData) (w : World) :
  exists c w',
    ContactoClass.new d w = (Ok c, w')
    /\ well_formed (toJSON c) = true
    /\ (truthy (d_id d) = true -> id c = d_id d)
    /\ (truthy (d_id d) = false ->
        id c = ("contact_" ++ decimal (clock w (ticks w)) ++ "_"
                ++ entropy w (draws w))%string)
    /\ preferenciaContacto c = or_else (d_preferenciaContacto d) "Email"
    /\ localStorage w' = localStorage w
    /\ console w' = console w.
Proof.
  destruct (new_spec d w) as (c & w' & E & B & S).
  exists c, w'. split; [exact E|]. split.
  { apply well_formed_toJSON; [apply B | now apply (built_from_preferencia d)]. }
  split; [apply B|].
  revert E. unfold ContactoClass.new, generateId, or_now, new_Date_toISOString,
    bind, Date_now, random_suffix, ret.
  destruct (truthy (d_id d)); destruct (d_fechaCreacion d);
    destruct (d_fechaActualizacion d); simpl; intros [= <- <-]; simpl;
    repeat split; auto; discriminate.
Qed.

(** X6.  [clone()] of an instance with an identifier and a preference reads no
    clock and changes nothing; the copy has the identifier and the
    timestamps of the original and the same [toJSON] form, and is valid
    when the original is. *)
Theorem clone_round_trip (c : Contacto.t) (w : World) :
  truthy (id c) = true -> truthy (preferenciaContacto c) = true ->
  exists c',
    clone c w = (Ok c', w)
    /\ toJSON c' = toJSON c
    /\ id c' = id c
    /\ fechaCreacion c' = fechaCreacion c
    /\ fechaActualizacion c' = fechaActualizacion c
    /\ (isValid c = true -> isValid c' = true).
Proof.
  intros Hi Hp. exists (read (toJSON c)).
  pose proof (well_formed_toJSON c Hi Hp) as Hw.
  split; [unfold clone; now apply new_read|].
  split; [now apply toJSON_read|]. repeat split.
  apply isValid_read_toJSON.
Qed.

Lemma clone_round_trip_witness :
  exists c',
    clone Sample.luis_twin (Sample.world None) = (Ok c', Sample.world None)
    /\ toJSON c' = toJSON Sample.luis_twin
    /\ id c' = id Sample.luis_twin
    /\ fechaCreacion c' = fechaCreacion Sample.luis_twin
    /\ fechaActualizacion c' = fechaActualizacion Sample.luis_twin
    /\ (isValid Sample.luis_twin = true -> isValid c' = true).
Proof.
  apply (clone_round_trip Sample.luis_twin (Sample.world None)); reflexivity.
Defined.

(** X7.  [getTimeAgo()] goes by the distance between the clock and the
    creation instant, in either direction: under a minute it says
    [hace un momento], under an hour it counts whole minutes, under a day
    whole hours, and from a day on whole days. *)
Theorem getTimeAgo_text (c : Contacto.t) (w : World) :
  let d := Z.abs (clock w (ticks w) - fechaCreacion c) in
  (d < 60000 -> fst (getTimeAgo c w) = Ok "hace un momento")
  /\ (60000 <= d < 3600000 ->
      fst (getTimeAgo c w)
      = Ok ("hace " ++ decimal (d / 60000) ++ " minuto" ++ plural (d / 60000))%string)
  /\ (3600000 <= d < 86400000 ->
      fst (getTimeAgo c w)
      = Ok ("hace " ++ decimal (d / 3600000) ++ " hora" ++ plural (d / 3600000))%string)
  /\ (86400000 <= d ->
      fst (getTimeAgo c w)
      = Ok ("hace " ++ decimal (d / 86400000) ++ " día" ++ plural (d / 86400000))%string).
Proof.
  intros d. unfold getTimeAgo, bind, Date_now, ret. cbn [fst].
  fold d. change (1000 * 60 * 60 * 24) with 86400000.
  change (1000 * 60 * 60) with 3600000. change (1000 * 60) with 60000.
  assert (D0 : 0 <= d) by apply Z.abs_nonneg.
  split; [|split; [|split]]; intros H.
  - rewrite (Z.div_small d 86400000), (Z.mod_small d 86400000),
      (Z.mod_small d 3600000), (Z.div_small d 3600000), (Z.div_small d 60000)
      by lia. reflexivity.
  - rewrite (Z.div_small d 86400000), (Z.mod_small d 86400000),
      (Z.mod_small d 3600000), (Z.div_small d 3600000) by lia.
    assert (1 <= d / 60000) by (apply Z.div_le_lower_bound; lia).
    destruct (0 <? d / 60000) eqn:E; [reflexivity|].
    apply Z.ltb_ge in E. lia.
  - rewrite (Z.div_small d 86400000), (Z.mod_small d 86400000) by lia.
    assert (1 <= d / 3600000) by (apply Z.div_le_lower_bound; lia).
    destruct (0 <? d / 3600000) eqn:E; [reflexivity|].
    apply Z.ltb_ge in E. lia.
  - assert (1 <= d / 86400000) by (apply Z.div_le_lower_bound; lia).
    destruct (0 <? d / 86400000) eqn:E; [reflexivity|].
    apply Z.ltb_ge in E. lia.
Qed.

End InstanceFacts.

(** ** Reading any item *)

Section ReadingAnyItem.
Import JsString JsArray Contacto Host ContactoClass ContactRepository Stored Reading.

Lemma new_quiet d w :
  exists c w', ContactoClass.new d w = (Ok c, w')
               /\ built_from d c
               /\ localStorage w' = localStorage w
               /\ console w' = console w.
Proof.
  unfold ContactoClass.new, generateId, or_now, new_Date_toISOString, bind,
    Date_now, random_suffix, ret, built_from.
  destruct (truthy (d_id d)) eqn:Hi;
    destruct (d_fechaCreacion d); destruct (d_fechaActualizacion d);
    simpl; eexists; eexists; (split; [reflexivity|]); simpl;
    repeat split; auto; discriminate.
Qed.

(** Mapping [fromJSON] over the elements of an array: it goes through when
    no element is [null] and throws at the first [null]; either way the
    store and the console are as before. *)
Lemma mapM_fromJSON_any elems : forall w,
  exists r w',
    mapM fromJSON elems w = (r, w')
    /\ localStorage w' = localStorage w /\ console w' = console w
    /\ match objects elems with
       | Some l => exists cs, r = Ok cs /\ length cs = length l
       | None => exists e, r = Throw e
       end.
Proof.
  induction elems as [|[d|] elems IH]; intros w.
  - exists (Ok []), w. simpl. repeat split. exists []. auto.
  - destruct (new_quiet d w) as (c & w1 & E & _ & S1 & C1).
    destruct (IH w1) as (r & w2 & E2 & S2 & C2 & R).
    cbn [mapM fromJSON objects]. unfold bind at 1. rewrite E.
    unfold bind at 1. rewrite E2.
    destruct (objects elems) as [l|].
    + destruct R as (cs & -> & L). exists (Ok (c :: cs)), w2.
      split; [reflexivity|]. split; [congruence|]. split; [congruence|].
      exists (c :: cs). simpl. auto.
    + destruct R as (e & ->). exists (Throw e), w2.
      split; [reflexivity|]. split; [congruence|]. split; [congruence|].
      exists e. reflexivity.
  - eexists _, w. split; [reflexivity|]. simpl. repeat split. eauto.
Qed.

(** X8.  [getAll] on any item.  It never throws.  When the item is absent,
    falsy or an array without [null] elements, it returns one instance
    per stored object and leaves the store and the console alone.  In
    every other case - a text that does not parse, a document that is not
    an array, an array with a [null] element - it returns an empty
    collection, writes the error and the warning on the console and
    replaces the item by the empty array: the stored records are lost. *)
Theorem getAll_any_item (w : World) :
  (readable (localStorage w) = true ->
   exists cs w',
     getAll w = (Ok cs, w')
     /\ length cs = length (collection w)
     /\ localStorage w' = localStorage w
     /\ console w' = console w)
  /\ (readable (localStorage w) = false ->
      fst (getAll w) = Ok []
      /\ holds (snd (getAll w)) []
      /\ console (snd (getAll w))
         = (console w ++ [(Err, "Error al obtener contactos:");
                          (Warn, "Reinicializando almacenamiento debido a errores...")])%list).
Proof.
  unfold getAll, try_catch, bind, getItem, collection.
  destruct (localStorage w) as [[raw|[| |elems]]|] eqn:E; simpl.
  - split; [discriminate|]. intros _. repeat split.
    simpl. now rewrite <- app_assoc.
  - split; [|discriminate]. intros _. exists [], w. auto.
  - split; [discriminate|]. intros _. repeat split.
    simpl. now rewrite <- app_assoc.
  - destruct (mapM_fromJSON_any elems w) as (r & w' & Em & S & C & R).
    rewrite Em. destruct (objects elems) as [l|].
    + destruct R as (cs & -> & L). split; [|discriminate]. intros _.
      exists cs, w'. simpl. rewrite S, E. auto.
    + destruct R as (e & ->). split; [discriminate|]. intros _.
      simpl. repeat split. rewrite C, <- app_assoc. reflexivity.
  - split; [|discriminate]. intros _. exists [], w. auto.
Qed.

End ReadingAnyItem.

(** ** Looking up, counting and updating *)

Section LookupFacts.
Import JsString JsArray Contacto Host ContactoClass ContactRepository Stored Reading.

Lemma find_id_app i l l' :
  find (fun d => String.eqb (d_id d) i) (l ++ l')
  = match find (fun d => String.eqb (d_id d) i) l with
    | Some d => Some d
    | None => find (fun d => String.eqb (d_id d) i) l'
    end.
Proof.
  induction l as [|d l IH]; simpl; [reflexivity|].
  destruct (String.eqb (d_id d) i); [reflexivity | exact IH].
Qed.

Lemma find_none_has_id i l :
  has_id i l = false -> find (fun d => String.eqb (d_id d) i) l = None.
Proof.
  rewrite find_has_id. destruct (find _ l); [discriminate | reflexivity].
Qed.

Lemma well_formed_add c l :
  forallb well_formed l = true -> isValid c = true -> truthy (id c) = true ->
  forallb well_formed (l ++ [toJSON c]) = true.
Proof.
  intros Hl Hv Hi. rewrite forallb_app, Hl. simpl.
  rewrite well_formed_toJSON; auto. now apply isValid_preferencia.
Qed.

(** X9.  What [add] stored is what [getById] finds: after a successful [add],
    [getById] of the instance's identifier returns the instance in its
    normalized form, and for every other identifier it answers as before
    the [add]. *)
Theorem getById_after_add (c : Contacto.t) (w : World) (l : list ContactData) :
  holds w l -> forallb well_formed l = true ->
  isValid c = true -> truthy (id c) = true -> has_id (id c) l = false ->
  fst (getById (id c) (snd (add c w))) = Ok (Some (read (toJSON c)))
  /\ forall i, i <> id c ->
       fst (getById i (snd (add c w))) = fst (getById i w).
Proof.
  intros H Hl Hv Hi Hd. rewrite (add_fresh c w l H Hl Hv Hd). cbn [snd].
  set (w1 := say Log "Contacto agregado:" _).
  assert (H1 : holds w1 (l ++ [toJSON c])) by reflexivity.
  pose proof (well_formed_add c l Hl Hv Hi) as Hl1.
  split.
  - rewrite (getById_holds w1 _ _ H1 Hl1). cbn [fst].
    rewrite find_id_app, (find_none_has_id _ _ Hd). simpl.
    now rewrite String.eqb_refl.
  - intros i Hne.
    rewrite (getById_holds w1 _ _ H1 Hl1), (getById_holds w l _ H Hl).
    cbn [fst]. rewrite find_id_app.
    destruct (find _ l); [reflexivity|]. simpl.
    destruct (String.eqb (id c) i) eqn:E; [|reflexivity].
    apply String.eqb_eq in E. congruence.
Qed.

Lemma getById_after_add_witness :
  let w := Sample.world (Some (JSON_stringify Sample.two)) in
  fst (getById (id Sample.luis_twin) (snd (add Sample.luis_twin w)))
  = Ok (Some (read (toJSON Sample.luis_twin)))
  /\ forall i, i <> id Sample.luis_twin ->
       fst (getById i (snd (add Sample.luis_twin w))) = fst (getById i w).
Proof.
  intros w.
  apply (getById_after_add Sample.luis_twin w Sample.two); reflexivity.
Defined.

Lemma index_of_cons i d l :
  index_of i (d :: l)
  = if String.eqb (d_id d) i then 0
    else if index_of i l =? -1 then -1 else index_of i l + 1.
Proof. reflexivity. Qed.

(** Without the first record that has the identifier [i], and the
    identifiers being distinct, no record has it; the others are found as
    before. *)
Lemma find_without i l :
  List.NoDup (ids l) -> has_id i l = true ->
  has_id i (without i l) = false
  /\ forall j, j <> i ->
       find (fun d => String.eqb (d_id d) j) (without i l)
       = find (fun d => String.eqb (d_id d) j) l.
Proof.
  unfold without. induction l as [|d l IH]; [discriminate|].
  intros N Hd. apply List.NoDup_cons_iff in N as [N1 N2].
  rewrite index_of_cons. simpl in Hd.
  destruct (String.eqb (d_id d) i) eqn:E.
  - apply String.eqb_eq in E. simpl. split.
    + apply has_id_false_In. now rewrite <- E.
    + intros j Hj. destruct (String.eqb (d_id d) j) eqn:Ej; [|reflexivity].
      apply String.eqb_eq in Ej. congruence.
  - simpl in Hd. destruct (IH N2 Hd) as [I1 I2].
    assert (Hi : index_of i l <> -1).
    { intros Hi. apply index_of_has_id in Hi. congruence. }
    apply Z.eqb_neq in Hi. rewrite Hi.
    pose proof (findIndex_ge (fun d0 => String.eqb (d_id d0) i) l) as Hg.
    fold (index_of i l) in Hg. apply Z.eqb_neq in Hi.
    replace (Z.to_nat (index_of i l + 1)) with (S (Z.to_nat (index_of i l))) by lia.
    simpl. rewrite E. simpl. split; [exact I1|].
    intros j Hj. destruct (String.eqb (d_id d) j); [reflexivity | now apply I2].
Qed.

(** X10.  After a successful [remove] on a store with distinct identifiers,
    [getById] no longer finds the identifier, and answers for every other
    identifier as before. *)
Theorem getById_after_remove (i : string) (w : World) (l : list ContactData) :
  holds w l -> forallb well_formed l = true -> List.NoDup (ids l) ->
  has_id i l = true ->
  fst (remove i w) = Ok true
  /\ fst (getById i (snd (remove i w))) = Ok None
  /\ forall j, j <> i ->
       fst (getById j (snd (remove i w))) = fst (getById j w).
Proof.
  intros H Hl N Hd.
  assert (Hi : index_of i l <> -1).
  { intros Hi. apply index_of_has_id in Hi. congruence. }
  rewrite (remove_found i w l H Hl Hi). cbn [fst snd].
  set (w1 := say Log "Contacto eliminado:" _).
  assert (H1 : holds w1 (without i l)) by reflexivity.
  assert (Hl1 : forallb well_formed (without i l) = true)
    by now apply forallb_delete.
  destruct (find_without i l N Hd) as [F1 F2].
  split; [reflexivity|]. split.
  - rewrite (getById_holds w1 _ _ H1 Hl1). cbn [fst].
    now rewrite (find_none_has_id _ _ F1).
  - intros j Hj.
    rewrite (getById_holds w1 _ _ H1 Hl1), (getById_holds w l _ H Hl).
    cbn [fst]. now rewrite (F2 j Hj).
Qed.

Lemma getById_after_remove_witness :
  let w := Sample.world (Some (JSON_stringify Sample.two)) in
  fst (remove "contact_2_b" w) = Ok true
  /\ fst (getById "contact_2_b" (snd (remove "contact_2_b" w))) = Ok None
  /\ forall j, j <> "contact_2_b" ->
       fst (getById j (snd (remove "contact_2_b" w))) = fst (getById j w).
Proof.
  intros w. apply (getById_after_remove "contact_2_b" w Sample.two);
    try reflexivity.
  repeat constructor; simpl; intuition discriminate.
Defined.

Lemma count_holds w l :
  holds w l -> forallb well_formed l = true ->
  count w = (Ok (Z.of_nat (length l)), w).
Proof.
  intros H Hl. unfold count, try_catch, bind.
  rewrite (getAll_holds w l H Hl). unfold ret. now rewrite length_map.
Qed.

(** What [update] leaves behind is a store of well-formed records with
    the identifiers of before, in the order of before. *)
Lemma update_any c w l :
  holds w l -> forallb well_formed l = true ->
  exists l', holds (snd (update c w)) l'
             /\ forallb well_formed l' = true
             /\ ids l' = ids l.
Proof.
  intros H Hl.
  destruct (isValid c) eqn:Hv;
    [|rewrite (update_invalid c w Hv); exists l; auto].
  destruct (Z.eq_dec (index_of (id c) l) (-1)) as [Hi|Hi];
    [rewrite (update_missing c w l H Hl Hv Hi); exists l; auto|].
  destruct (findIndex_lookup _ l Hi) as (old & Ho & Hp & _).
  fold (index_of (id c) l) in Ho. apply String.eqb_eq in Hp.
  rewrite (update_found c w l H Hl Hv Hi). eexists.
  split; [reflexivity|]. split.
  - apply forallb_insert; [|exact Hl].
    apply well_formed_toJSON; [|now apply isValid_preferencia].
    simpl. rewrite <- Hp.
    rewrite forallb_forall in Hl.
    assert (Hin : In old l).
    { apply list_elem_of_In, list_elem_of_lookup. eauto. }
    specialize (Hl old Hin). unfold well_formed in Hl.
    rewrite !andb_true_iff in Hl. tauto.
  - now apply (ids_insert _ _ old).
Qed.

(** X11.  [update], whether it succeeds or rejects, never changes which
    identifiers are stored, their order or their number. *)
Theorem update_keeps_identifiers (c : Contacto.t) (w : World)
    (l : list ContactData) :
  holds w l -> forallb well_formed l = true ->
  exists l', holds (snd (update c w)) l'
             /\ ids l' = ids l /\ length l' = length l.
Proof.
  intros H Hl. destruct (update_any c w l H Hl) as (l' & H' & _ & I).
  exists l'. split; [exact H'|]. split; [exact I|].
  unfold ids in I. apply (f_equal (@length string)) in I.
  now rewrite !length_map in I.
Qed.

Lemma update_keeps_identifiers_witness :
  let w := Sample.world (Some (JSON_stringify Sample.two)) in
  exists l', holds (snd (update Sample.luis_edited w)) l'
             /\ ids l' = ids Sample.two /\ length l' = length Sample.two.
Proof.
  intros w. apply (update_keeps_identifiers Sample.luis_edited w Sample.two);
    reflexivity.
Defined.

(** X12.  [count] follows the operations: it is the number of stored records,
    one more after a successful [add], one less after a successful
    [remove], the same after any [update], and zero after [clear]. *)
Theorem count_tracks (w : World) (l : list ContactData) :
  holds w l -> forallb well_formed l = true ->
  fst (count w) = Ok (Z.of_nat (length l))
  /\ (forall c, isValid c = true -> truthy (id c) = true ->
        has_id (id c) l = false ->
        fst (count (snd (add c w))) = Ok (Z.of_nat (length l) + 1))
  /\ (forall i, has_id i l = true ->
        fst (count (snd (remove i w))) = Ok (Z.of_nat (length l) - 1))
  /\ (forall c, fst (count (snd (update c w))) = Ok (Z.of_nat (length l)))
  /\ fst (count (snd (clear w))) = Ok 0.
Proof.
  intros H Hl. split; [now rewrite (count_holds w l H Hl)|].
  split; [|split; [|split]].
  - intros c Hv Hi Hd. rewrite (add_fresh c w l H Hl Hv Hd). cbn [snd].
    rewrite (count_holds _ (l ++ [toJSON c])); [|reflexivity|].
    + cbn [fst]. rewrite length_app. simpl. f_equal. lia.
    + now apply well_formed_add.
  - intros i Hd.
    assert (Hi : index_of i l <> -1).
    { intros Hi. apply index_of_has_id in Hi. congruence. }
    rewrite (remove_found i w l H Hl Hi). cbn [snd].
    rewrite (count_holds _ (delete (Z.to_nat (index_of i l)) l));
      [|reflexivity | now apply forallb_delete].
    cbn [fst]. f_equal.
    destruct (findIndex_lookup _ l Hi) as (old & Ho & _).
    fold (index_of i l) in Ho. apply lookup_lt_Some in Ho.
    rewrite length_delete by (apply lookup_lt_is_Some; lia). lia.
  - intros c. destruct (update_any c w l H Hl) as (l' & H' & Hl' & I).
    rewrite (count_holds _ l' H' Hl'). cbn [fst]. f_equal.
    unfold ids in I. apply (f_equal (@length string)) in I.
    rewrite !length_map in I. lia.
  - destruct (clear_run w) as (n & w' & E). rewrite E. cbn [snd].
    now rewrite (count_holds _ []).
Qed.

Lemma count_tracks_witness :
  let w := Sample.world (Some (JSON_stringify Sample.two)) in
  fst (count w) = Ok 2
  /\ fst (count (snd (add Sample.luis_twin w))) = Ok 3
  /\ fst (count (snd (remove "contact_1_a" w))) = Ok 1
  /\ fst (count (snd (clear w))) = Ok 0.
Proof.
  intros w.
  destruct (count_tracks w Sample.two eq_refl eq_refl) as (K1 & K2 & K3 & _ & K5).
  split; [exact K1|]. split; [apply K2; reflexivity|].
  split; [apply K3; reflexivity | exact K5].
Defined.

End LookupFacts.

(** ** Duplicate emails *)

Section EmailFacts.
Import JsString JsArray Contacto Host ContactoClass ContactRepository Stored.

Lemma trim_same_length s :
  String.length (trim s) = String.length s -> trim s = s.
Proof.
  intros L. destruct (trim_spec s) as (pre & post & E & _).
  apply (f_equal String.length) in E.
  rewrite !length_append in E.
  assert (P1 : String.length pre = 0%nat) by lia.
  assert (P2 : String.length post = 0%nat) by lia.
  destruct (trim_spec s) as (pre' & post' & E' & _).
  clear E. apply (f_equal String.length) in E' as E.
  rewrite !length_append in E.
  destruct pre'; [|simpl in E; lia]. destruct post'; [|simpl in E; lia].
  rewrite append_Empty, append_Empty_r in E'. now symmetry.
Qed.

(** The email of a well-formed record is its own trimmed form. *)
Lemma well_formed_email d :
  well_formed d = true ->
  toLowerCase (d_email d) = d_email d /\ trim (d_email d) = d_email d.
Proof.
  unfold well_formed. rewrite !andb_true_iff.
  intros (((((_ & _) & _) & E) & _) & _). apply String.eqb_eq in E.
  split.
  - rewrite <- E at 1. now rewrite toLowerCase_idem.
  - rewrite <- E at 1. now rewrite trim_lower, trim_idem.
Qed.

Lemma untrimmed_no_match mail d :
  well_formed d = true -> trim mail <> mail ->
  String.eqb (toLowerCase (d_email d)) (toLowerCase mail) = false.
Proof.
  intros Hw Hm. destruct (well_formed_email d Hw) as [E1 E2].
  apply String.eqb_neq. intros E. apply Hm, trim_same_length.
  assert (T : toLowerCase (trim mail) = toLowerCase mail).
  { rewrite <- trim_lower, <- E, E1. exact E2. }
  apply (f_equal String.length) in T. unfold toLowerCase in T.
  now rewrite !length_map_chars in T.
Qed.

(** X13.  [existsByEmail] compares whole strings after lowering the case and
    trims nothing, while stored emails are trimmed: an email with white
    space around it is never reported as stored, whatever the store
    holds; an email that differs from a stored one in letter case only is
    reported. *)
Theorem existsByEmail_case_and_space (mail : string) (w : World)
    (l : list ContactData) :
  holds w l -> forallb well_formed l = true ->
  (trim mail <> mail ->
   forall excludeId, existsByEmail mail excludeId w = (Ok false, w))
  /\ (forall d, In d l -> toLowerCase mail = d_email d ->
        existsByEmail mail None w = (Ok true, w)).
Proof.
  intros H Hl. split.
  - intros Hm ex. unfold existsByEmail, try_catch, bind.
    rewrite (getAll_holds w l H Hl). unfold ret. do 2 f_equal.
    clear H. induction l as [|d l IH]; [reflexivity|].
    simpl in Hl. apply andb_true_iff in Hl as [Hd Hl]. simpl.
    rewrite (untrimmed_no_match mail d Hd Hm). simpl. now apply IH.
  - intros d Hin E. rewrite (existsByEmail_holds mail w l H Hl).
    do 2 f_equal. unfold has_email. apply existsb_exists. exists d.
    split; [exact Hin|]. apply String.eqb_eq.
    now rewrite <- E, toLowerCase_idem.
Qed.

Lemma existsByEmail_case_and_space_witness :
  let w := Sample.world (Some (JSON_stringify Sample.two)) in
  (trim " luis@y.org" <> " luis@y.org" ->
   forall excludeId, existsByEmail " luis@y.org" excludeId w = (Ok false, w))
  /\ (forall d, In d Sample.two -> toLowerCase " luis@y.org" = d_email d ->
        existsByEmail " luis@y.org" None w = (Ok true, w)).
Proof.
  intros w.
  apply (existsByEmail_case_and_space " luis@y.org" w Sample.two); reflexivity.
Defined.

Lemma candidate_built d w : built_from d (candidate d w).
Proof.
  unfold candidate, value.
  destruct (new_spec d w) as (c0 & w1 & E0 & _ & _). rewrite E0. cbn [snd].
  destruct (new_spec d w1) as (c & w2 & E & B & _). now rewrite E.
Qed.

Lemma has_email_app mail l l' :
  has_email mail (l ++ l') = has_email mail l || has_email mail l'.
Proof. unfold has_email. apply existsb_app. Qed.

(** What a successful [guardarContacto] found and left behind. *)
Lemma guardarContacto_saved d w l :
  holds w l -> forallb well_formed l = true ->
  fst (ContactFacade.guardarContacto d w) = Ok true ->
  isValid (candidate d w) = true
  /\ holds (snd (ContactFacade.guardarContacto d w)) (l ++ [toJSON (candidate d w)])
  /\ forallb well_formed (l ++ [toJSON (candidate d w)]) = true.
Proof.
  intros H Hl Ok1.
  destruct (guardarContacto_run d w l H Hl) as (w1 & E & H1).
  rewrite E in *. cbn [fst snd] in *. unfold outcome in *.
  destruct (isValid (candidate d w)) eqn:Hv; [|discriminate].
  destruct (has_email _ l); [discriminate|].
  destruct (has_id _ l); [discriminate|]. cbn [snd] in H1.
  split; [reflexivity|]. split; [exact H1|].
  apply well_formed_add; auto. apply (candidate_built d w).
Qed.

(** X14.  Saving the same form data twice: when the email of the form has no
    white space around it, the second [guardarContacto] is refused for
    its email and the store keeps the one record of the first. *)
Theorem guardarContacto_twice (d : ContactData) (w : World)
    (l : list ContactData) :
  holds w l -> forallb well_formed l = true ->
  trim (d_email d) = d_email d ->
  fst (ContactFacade.guardarContacto d w) = Ok true ->
  let w1 := snd (ContactFacade.guardarContacto d w) in
  fst (ContactFacade.guardarContacto d w1)
  = Throw (Error "Ya existe un contacto con ese correo electrónico")
  /\ holds (snd (ContactFacade.guardarContacto d w1))
       (l ++ [toJSON (candidate d w)]).
Proof.
  intros H Hl Ht Ok1 w1.
  destruct (guardarContacto_saved d w l H Hl Ok1) as (Hv & H1 & Hl1).
  fold w1 in H1.
  destruct (guardarContacto_run d w1 _ H1 Hl1) as (w2 & E2 & H2).
  rewrite E2 in *. cbn [fst snd]. unfold outcome in *.
  pose proof (candidate_built d w) as B.
  pose proof (candidate_built d w1) as B1.
  assert (Hv1 : isValid (candidate d w1) = true).
  { unfold isValid in *. now rewrite (built_from_errors d _ _ B1 B). }
  rewrite Hv1 in *.
  assert (Hm : has_email (email (candidate d w1)) (l ++ [toJSON (candidate d w)]) = true).
  { rewrite has_email_app. apply orb_true_iff. right.
    unfold has_email. simpl. rewrite orb_false_r. apply String.eqb_eq.
    destruct B as (_ & Be & _). destruct B1 as (_ & Be1 & _).
    now rewrite Be, Be1, Ht, toLowerCase_idem. }
  rewrite Hm in *. split; [reflexivity | exact H2].
Qed.

(** X15.  With white space around the email of the form the check does not see
    the record of the first save: the second [guardarContacto] succeeds
    too, and the store ends with two records of the same email. *)
Theorem guardarContacto_twice_untrimmed (d : ContactData) (w : World)
    (l : list ContactData) :
  holds w l -> forallb well_formed l = true ->
  trim (d_email d) <> d_email d ->
  fst (ContactFacade.guardarContacto d w) = Ok true ->
  let w1 := snd (ContactFacade.guardarContacto d w) in
  has_id (id (candidate d w1)) (l ++ [toJSON (candidate d w)]) = false ->
  fst (ContactFacade.guardarContacto d w1) = Ok true
  /\ holds (snd (ContactFacade.guardarContacto d w1))
       (l ++ [toJSON (candidate d w)] ++ [toJSON (candidate d w1)])
  /\ d_email (toJSON (candidate d w1)) = d_email (toJSON (candidate d w)).
Proof.
  intros H Hl Ht Ok1 w1 Hd.
  destruct (guardarContacto_saved d w l H Hl Ok1) as (Hv & H1 & Hl1).
  fold w1 in H1.
  destruct (guardarContacto_run d w1 _ H1 Hl1) as (w2 & E2 & H2).
  rewrite E2 in *. cbn [fst snd]. unfold outcome in *.
  pose proof (candidate_built d w) as B.
  pose proof (candidate_built d w1) as B1.
  assert (Hv1 : isValid (candidate d w1) = true).
  { unfold isValid in *. now rewrite (built_from_errors d _ _ B1 B). }
  rewrite Hv1 in *.
  assert (Hm : has_email (email (candidate d w1)) (l ++ [toJSON (candidate d w)]) = false).
  { unfold has_email. apply not_true_is_false. intros Hx.
    apply existsb_exists in Hx as (x & Hin & Hx).
    rewrite forallb_forall in Hl1.
    rewrite (untrimmed_no_match _ x (Hl1 x Hin)) in Hx; [discriminate|].
    destruct B1 as (_ & Be1 & _). now rewrite Be1. }
  rewrite Hm, Hd in *. cbn [fst snd] in *.
  split; [reflexivity|]. split; [now rewrite <- app_assoc in H2|].
  simpl. destruct B as (_ & Be & _). destruct B1 as (_ & Be1 & _).
  now rewrite Be, Be1.
Qed.

Lemma guardarContacto_twice_witness :
  let w1 := snd (ContactFacade.guardarContacto Sample.ana Sample2.stocked) in
  fst (ContactFacade.guardarContacto Sample.ana w1)
  = Throw (Error "Ya existe un contacto con ese correo electrónico")
  /\ holds (snd (ContactFacade.guardarContacto Sample.ana w1))
       (Sample.two ++ [toJSON (candidate Sample.ana Sample2.stocked)]).
Proof.
  apply (guardarContacto_twice Sample.ana Sample2.stocked Sample.two);
    reflexivity.
Defined.

Lemma guardarContacto_twice_untrimmed_witness :
  let d := Sample2.ana_spaced in
  let w1 := snd (ContactFacade.guardarContacto d Sample2.stocked) in
  fst (ContactFacade.guardarContacto d w1) = Ok true
  /\ holds (snd (ContactFacade.guardarContacto d w1))
       (Sample.two ++ [toJSON (candidate d Sample2.stocked)]
        ++ [toJSON (candidate d w1)])
  /\ d_email (toJSON (candidate d w1))
     = d_email (toJSON (candidate d Sample2.stocked)).
Proof.
  apply (guardarContacto_twice_untrimmed Sample2.ana_spaced Sample2.stocked
           Sample.two); try reflexivity.
  vm_compute. discriminate.
Defined.

End EmailFacts.

(** ** Checking, importing, counting *)

Section AccountingFacts.
Import JsString JsArray Contacto Host ContactoClass ContactRepository.
Import RepositoryMore Stored.

Lemma length_indexed_from {A} (l : list A) : forall k,
  length (indexed_from k l) = length l.
Proof. induction l as [|x l IH]; intros k; simpl; [reflexivity | now rewrite IH]. Qed.

Lemma map_snd_indexed_from {A} (l : list A) : forall k,
  map snd (indexed_from k l) = l.
Proof. induction l as [|x l IH]; intros k; simpl; [reflexivity | now rewrite IH]. Qed.

Lemma seen_In x s : existsb (String.eqb x) s = true <-> In x s.
Proof.
  rewrite existsb_exists. split.
  - intros (y & Hy & E). apply String.eqb_eq in E. now subst.
  - intros Hx. exists x. split; [exact Hx | apply String.eqb_refl].
Qed.

(** Every entry is counted once, and every entry that is not counted as
    valid leaves one message. *)
Lemma tally_accounts entries : forall st,
  let st' := fold_left integrity_step entries st in
  t_valid st' + t_invalid st' + t_duplicates st'
  = t_valid st + t_invalid st + t_duplicates st + Z.of_nat (length entries)
  /\ Z.of_nat (length (t_errors st')) - Z.of_nat (length (t_errors st))
     = (t_invalid st' - t_invalid st) + (t_duplicates st' - t_duplicates st)
  /\ t_valid st <= t_valid st' /\ t_invalid st <= t_invalid st'
  /\ t_duplicates st <= t_duplicates st'.
Proof.
  induction entries as [|[k c] entries IH]; intros st; [simpl; lia|].
  cbn [fold_left]. specialize (IH (integrity_step st (k, c))).
  cbv zeta in *. revert IH.
  generalize (fold_left integrity_step entries (integrity_step st (k, c))).
  intros st'. unfold integrity_step.
  destruct (existsb _ (seen st)); [|destruct (isValid c)];
    cbn [t_valid t_invalid t_duplicates t_errors]; rewrite ?length_app;
    cbn [length]; lia.
Qed.

(** Nothing is counted as a duplicate exactly when the identifiers of the
    entries are distinct and none was seen before. *)
Lemma tally_duplicates entries : forall st,
  t_duplicates (fold_left integrity_step entries st) = t_duplicates st
  <-> List.NoDup (map (fun e => id (snd e)) entries)
      /\ forall e, In e entries -> ~ In (id (snd e)) (seen st).
Proof.
  induction entries as [|[k c] entries IH]; intros st.
  - simpl. split; [intros _; split; [constructor | intros e []] | reflexivity].
  - cbn [fold_left map snd].
    pose proof (tally_accounts entries (integrity_step st (k, c))) as A.
    cbv zeta in A. destruct A as (_ & _ & _ & _ & A).
    rewrite List.NoDup_cons_iff.
    unfold integrity_step in *.
    destruct (existsb (String.eqb (id c)) (seen st)) eqn:Es.
    + cbn [t_duplicates] in A. apply seen_In in Es. split; [lia|].
      intros (_ & F). exfalso. apply (F (k, c)); [now left | exact Es].
    + assert (Ns : ~ In (id c) (seen st)).
      { intros Hx. apply seen_In in Hx. congruence. }
      destruct (isValid c).
      * rewrite (IH (mkTally (seen st ++ [id c]) _ _ _ _)).
        cbn [t_duplicates seen]. split.
        -- intros (N & F). split; [split; [|exact N]|].
           ++ intros Hin. apply in_map_iff in Hin as (e & Ee & Hin).
              apply (F e Hin). apply in_or_app. right. now left.
           ++ intros e [<-|Hin]; [exact Ns|].
              intros Hx. apply (F e Hin). apply in_or_app. now left.
        -- intros ((Nc & N) & F). split; [exact N|].
           intros e Hin Hx. apply in_app_or in Hx as [Hx|[Hx|[]]].
           ++ apply (F e); [now right | exact Hx].
           ++ apply Nc. apply in_map_iff. exists e. auto.
      * rewrite (IH (mkTally (seen st ++ [id c]) _ _ _ _)).
        cbn [t_duplicates seen]. split.
        -- intros (N & F). split; [split; [|exact N]|].
           ++ intros Hin. apply in_map_iff in Hin as (e & Ee & Hin).
              apply (F e Hin). apply in_or_app. right. now left.
           ++ intros e [<-|Hin]; [exact Ns|].
              intros Hx. apply (F e Hin). apply in_or_app. now left.
        -- intros ((Nc & N) & F). split; [exact N|].
           intros e Hin Hx. apply in_app_or in Hx as [Hx|[Hx|[]]].
           ++ apply (F e); [now right | exact Hx].
           ++ apply Nc. apply in_map_iff. exists e. auto.
Qed.

(** Valid entries are never counted as invalid. *)
Lemma tally_invalid entries : forall st,
  Forall (fun e => isValid (snd e) = true) entries ->
  t_invalid (fold_left integrity_step entries st) = t_invalid st.
Proof.
  induction entries as [|[k c] entries IH]; intros st F; [reflexivity|].
  inversion F as [|? ? Hc F']; subst. cbn [fold_left snd] in *.
  rewrite (IH _ F'). unfold integrity_step.
  destruct (existsb _ (seen st)); [reflexivity|]. now rewrite Hc.
Qed.

Lemma checkIntegrity_holds w l :
  holds w l -> forallb well_formed l = true ->
  checkIntegrity w
  = (Ok (let st := fold_left integrity_step (indexed_from 0 (map read l))
                     (mkTally [] 0 0 0 []) in
         mkIntegrity (Z.of_nat (length l)) (t_valid st) (t_invalid st)
           (t_duplicates st) (t_errors st)), w).
Proof.
  intros H Hl. unfold checkIntegrity, try_catch, bind.
  rewrite (getAll_holds w l H Hl). unfold ret. now rewrite length_map.
Qed.

(** X16.  The report of [checkIntegrity] adds up: every record is counted as
    valid, invalid or duplicate, there is one message per record that is
    not valid, and no record is a duplicate exactly when the stored
    identifiers are distinct.  The store is left as it was. *)
Theorem checkIntegrity_accounts (w : World) (l : list ContactData) :
  holds w l -> forallb well_formed l = true ->
  exists r, checkIntegrity w = (Ok r, w)
    /\ i_total r = Z.of_nat (length l)
    /\ i_valid r + i_invalid r + i_duplicates r = i_total r
    /\ Z.of_nat (length (i_errors r)) = i_invalid r + i_duplicates r
    /\ 0 <= i_valid r /\ 0 <= i_invalid r /\ 0 <= i_duplicates r
    /\ (i_duplicates r = 0 <-> List.NoDup (ids l)).
Proof.
  intros H Hl. rewrite (checkIntegrity_holds w l H Hl). eexists.
  split; [reflexivity|]. cbv zeta.
  cbn [i_total i_valid i_invalid i_duplicates i_errors].
  pose proof (tally_accounts (indexed_from 0 (map read l)) (mkTally [] 0 0 0 [])) as A.
  pose proof (tally_duplicates (indexed_from 0 (map read l)) (mkTally [] 0 0 0 [])) as D.
  cbv zeta in A. cbn [t_valid t_invalid t_duplicates t_errors seen length] in A, D.
  rewrite length_indexed_from, length_map in A.
  repeat (split; [lia|]).
  rewrite D. rewrite <- (map_map snd id), map_snd_indexed_from, map_map.
  unfold ids. simpl. split; [tauto|]. intros N. split; [exact N|]. auto.
Qed.

Lemma checkIntegrity_accounts_witness :
  exists r, checkIntegrity Sample2.stocked = (Ok r, Sample2.stocked)
    /\ i_total r = 2
    /\ i_valid r + i_invalid r + i_duplicates r = i_total r
    /\ Z.of_nat (length (i_errors r)) = i_invalid r + i_duplicates r
    /\ 0 <= i_valid r /\ 0 <= i_invalid r /\ 0 <= i_duplicates r
    /\ (i_duplicates r = 0 <-> List.NoDup (ids Sample.two)).
Proof.
  apply (checkIntegrity_accounts Sample2.stocked Sample.two); reflexivity.
Defined.

(** X17.  On a store of sound records with distinct identifiers
    [checkIntegrity] finds nothing: every record is counted as valid and
    there are no messages. *)
Theorem checkIntegrity_clean (w : World) :
  consistent w ->
  exists r, checkIntegrity w = (Ok r, w)
    /\ i_valid r = i_total r /\ i_invalid r = 0 /\ i_duplicates r = 0
    /\ i_errors r = [].
Proof.
  intros (l & H & Hs & N).
  pose proof (sound_well_formed l Hs) as Hl.
  rewrite (checkIntegrity_holds w l H Hl). eexists.
  split; [reflexivity|]. cbv zeta.
  cbn [i_total i_valid i_invalid i_duplicates i_errors].
  pose proof (tally_accounts (indexed_from 0 (map read l)) (mkTally [] 0 0 0 [])) as A.
  pose proof (tally_duplicates (indexed_from 0 (map read l)) (mkTally [] 0 0 0 [])) as D.
  pose proof (tally_invalid (indexed_from 0 (map read l)) (mkTally [] 0 0 0 [])) as I.
  cbv zeta in A. cbn [t_valid t_invalid t_duplicates t_errors seen length] in A, D, I.
  rewrite length_indexed_from, length_map in A.
  assert (D0 : t_duplicates (fold_left integrity_step (indexed_from 0 (map read l))
                               (mkTally [] 0 0 0 [])) = 0).
  { apply D. rewrite <- (map_map snd id), map_snd_indexed_from, map_map.
    split; [exact N | auto]. }
  assert (I0 : t_invalid (fold_left integrity_step (indexed_from 0 (map read l))
                            (mkTally [] 0 0 0 [])) = 0).
  { apply I. apply List.Forall_forall. intros [k c] Hin. cbn [snd].
    assert (Hc : In c (map snd (indexed_from 0 (map read l))))
      by (apply in_map_iff; exists (k, c); auto).
    rewrite map_snd_indexed_from in Hc.
    apply in_map_iff in Hc as (d & <- & Hd).
    unfold sound in Hs. rewrite forallb_forall in Hs.
    specialize (Hs d Hd). apply andb_true_iff in Hs. tauto. }
  repeat split; try lia.
  destruct (t_errors _); [reflexivity | simpl in A; lia].
Qed.

Lemma checkIntegrity_clean_witness :
  exists r, checkIntegrity Sample2.stocked = (Ok r, Sample2.stocked)
    /\ i_valid r = i_total r /\ i_invalid r = 0 /\ i_duplicates r = 0
    /\ i_errors r = [].
Proof.
  apply (checkIntegrity_clean Sample2.stocked).
  exists Sample.two. split; [reflexivity|]. split; [reflexivity|].
  repeat constructor; simpl; intuition discriminate.
Defined.

End AccountingFacts.

Section ImportAccounting.
Import JsString JsArray Contacto Host ContactoClass ContactRepository Stored.

(** The [forEach] of [importFromJSON] on any array: every element is
    imported, skipped or leaves one message. *)
Lemma forEach_import_counts l :
  forallb well_formed l = true ->
  forall elems k st w,
    holds w l ->
    exists acc skp es w',
      forEach import_one st (indexed_from k elems) w
      = (Ok (mkImportState (currentContacts st ++ acc)
               (n_imported st + Z.of_nat (length acc))
               (n_skipped st + skp) (errs st ++ es)), w')
      /\ same_store w w' /\ 0 <= skp
      /\ Z.of_nat (length acc) + skp + Z.of_nat (length es)
         = Z.of_nat (length elems).
Proof.
  intros Hl. induction elems as [|[d|] elems IH]; intros k st w H.
  - exists [], 0, [], w. simpl. rewrite !app_nil_r, !Z.add_0_r.
    destruct st. repeat split; lia.
  - destruct (import_one_object st k d w l H Hl) as (c & w1 & B & S & E).
    pose proof (same_store_holds _ _ _ S H) as H1.
    cbn [indexed_from]. rewrite forEach_cons, E.
    destruct (isValid c); [destruct (has_id (id c) l)|].
    + destruct (IH (k + 1) (mkImportState (currentContacts st) (n_imported st)
                               (n_skipped st + 1) (errs st)) w1 H1)
        as (acc & skp & es & w' & E' & S' & P & Q).
      rewrite E'. exists acc, (1 + skp), es, w'.
      cbn [currentContacts n_imported n_skipped errs length].
      split; [do 3 f_equal; lia|].
      split; [unfold same_store in *; congruence|]. lia.
    + destruct (IH (k + 1) (mkImportState (currentContacts st ++ [c])
                               (n_imported st + 1) (n_skipped st) (errs st))
                  w1 H1)
        as (acc & skp & es & w' & E' & S' & P & Q).
      rewrite E'. exists (c :: acc), skp, es, w'.
      cbn [currentContacts n_imported n_skipped errs length].
      rewrite <- app_assoc.
      split; [do 3 f_equal; simpl; lia|].
      split; [unfold same_store in *; congruence|]. lia.
    + destruct (IH (k + 1) (push_error st
                   ("Contacto " ++ decimal (k + 1) ++ ": "
                    ++ join ", " (map snd (errors c)))) w1 H1)
        as (acc & skp & es & w' & E' & S' & P & Q).
      rewrite E'. eexists acc, skp, (_ :: es), w'.
      cbn [push_error currentContacts n_imported n_skipped errs length].
      rewrite <- app_assoc.
      split; [reflexivity|].
      split; [unfold same_store in *; congruence|]. lia.
  - cbn [indexed_from]. rewrite forEach_cons, import_one_null.
    destruct (IH (k + 1) (push_error st
                 ("Contacto " ++ decimal (k + 1) ++ ": "
                  ++ "Cannot read properties of null (reading 'id')")) w H)
      as (acc & skp & es & w' & E' & S' & P & Q).
    rewrite E'. eexists acc, skp, (_ :: es), w'.
    cbn [push_error currentContacts n_imported n_skipped errs length].
    rewrite <- app_assoc.
    split; [reflexivity|]. split; [exact S'|]. lia.
Qed.

(** X18.  The report of [importFromJSON] adds up, for any array: each element
    is imported, skipped or leaves one message; the records stored before
    stay in front as they were, followed by one record per imported
    element. *)
Theorem importFromJSON_accounts (elems : list (option ContactData))
    (w : World) (l : list ContactData) :
  holds w l -> forallb well_formed l = true ->
  exists res w' acc,
    importFromJSON (Json (JArray elems)) w = (Ok res, w')
    /\ holds w' (l ++ map toJSON acc)
    /\ imported res = Z.of_nat (length acc)
    /\ total res = Z.of_nat (length elems)
    /\ imported res + skipped res + Z.of_nat (length (import_errors res))
       = total res
    /\ 0 <= skipped res.
Proof.
  intros H Hl. unfold importFromJSON, try_catch, bind. simpl.
  rewrite (getAll_holds w l H Hl).
  destruct (forEach_import_counts l Hl elems 0 (mkImportState (map read l) 0 0 []) w H)
    as (acc & skp & es & w' & E & S & P & Q).
  rewrite E. simpl. rewrite map_app, map_toJSON_read by exact Hl.
  eexists. eexists. exists acc. split; [reflexivity|].
  split; [reflexivity|]. simpl. repeat split; lia.
Qed.

Lemma importFromJSON_accounts_witness :
  exists res w' acc,
    importFromJSON (Json (JArray [Some Sample.luis; None; Some Sample.ana]))
      Sample2.stocked = (Ok res, w')
    /\ holds w' (Sample.two ++ map toJSON acc)
    /\ imported res = Z.of_nat (length acc)
    /\ total res = 3
    /\ imported res + skipped res + Z.of_nat (length (import_errors res))
       = total res
    /\ 0 <= skipped res.
Proof.
  apply (importFromJSON_accounts [Some Sample.luis; None; Some Sample.ana]
           Sample2.stocked Sample.two); reflexivity.
Defined.

(** X19.  A text that [JSON.parse] refuses, or that denotes something other
    than an array, is refused before the store is read: [importFromJSON]
    logs one error and throws, and nothing else changes. *)
Theorem importFromJSON_rejects (t : text) (w : World) :
  (forall elems, t <> Json (JArray elems)) ->
  exists e,
    importFromJSON t w = (Throw e, say Err "Error al importar:" w)
    /\ name e = match t with
                | Unparseable _ => "SyntaxError"
                | Json _ => "Error"
                end
    /\ (forall v, t = Json v ->
          message e = "El JSON debe contener un array de contactos").
Proof.
  intros Ht. destruct t as [raw|[| |elems]].
  - eexists. split; [reflexivity|]. split; [reflexivity | discriminate].
  - eexists. split; [reflexivity|]. split; reflexivity.
  - eexists. split; [reflexivity|]. split; reflexivity.
  - now destruct (Ht elems).
Qed.

Lemma importFromJSON_rejects_witness :
  exists e,
    importFromJSON (Json JNonArray) Sample2.stocked
    = (Throw e, say Err "Error al importar:" Sample2.stocked)
    /\ name e = "Error"
    /\ (forall v, Json JNonArray = Json v ->
          message e = "El JSON debe contener un array de contactos").
Proof.
  apply (importFromJSON_rejects (Json JNonArray) Sample2.stocked).
  intros elems. discriminate.
Defined.

(** Constructing the repository never overwrites an item: the item is
    kept when there is one, and the empty array is stored when there is
    none; constructing again changes nothing. *)
Theorem constructor_keeps_item (w : World) :
  fst (constructor w) = Ok tt
  /\ (item_missing (localStorage w) = false -> constructor w = (Ok tt, w))
  /\ (item_missing (localStorage w) = true -> holds (fresh w) [])
  /\ constructor (fresh w) = (Ok tt, fresh w).
Proof.
  unfold fresh, constructor, initializeStorage, bind, getItem, setItem, ret, holds.
  destruct (item_missing (localStorage w)) eqn:E; simpl; rewrite ?E; simpl;
    repeat split; auto; discriminate.
Qed.

Lemma stats_step_counts l : forall n w,
  exists m w', forEach stats_step n l w = (Ok m, w')
    /\ same_store w w' /\ n <= m <= n + Z.of_nat (length l)
    /\ ticks w' = (ticks w + length l)%nat /\ console w' = console w.
Proof.
  induction l as [|c l IH]; intros n w.
  - exists n, w. simpl. repeat split; lia.
  - rewrite forEach_cons. unfold stats_step at 1. unfold bind, Date_now, ret.
    destruct (IH (if clock w (ticks w) - fechaCreacion c <=? 24 * (1000 * 60 * 60)
                  then n + 1 else n) (tick w)) as (m & w' & E & S & B & T & C).
    unfold tick in *. rewrite E. exists m, w'. split; [reflexivity|].
    split; [exact S|]. cbn [ticks console length] in *.
    destruct (_ <=? _); repeat split; lia || assumption.
Qed.

(** X20.  [getStats] reports as total the number of stored records and as
    recent a number between zero and the total; it reads the clock once
    per record and leaves store and console alone. *)
Theorem getStats_bounds (w : World) (l : list ContactData) :
  holds w l -> forallb well_formed l = true ->
  exists recent w',
    getStats w = (Ok (Z.of_nat (length l), recent), w')
    /\ 0 <= recent <= Z.of_nat (length l)
    /\ same_store w w' /\ console w' = console w
    /\ ticks w' = (ticks w + length l)%nat.
Proof.
  intros H Hl. unfold getStats, try_catch, bind.
  rewrite (getAll_holds w l H Hl).
  destruct (stats_step_counts (map read l) 0 w) as (m & w' & E & S & B & T & C).
  rewrite E. unfold ret. rewrite length_map in *.
  exists m, w'. repeat split; auto; lia.
Qed.

Lemma getStats_bounds_witness :
  exists recent w',
    getStats Sample2.stocked = (Ok (2, recent), w')
    /\ 0 <= recent <= 2
    /\ same_store Sample2.stocked w' /\ console w' = console Sample2.stocked
    /\ ticks w' = (ticks Sample2.stocked + 2)%nat.
Proof.
  apply (getStats_bounds Sample2.stocked Sample.two); reflexivity.
Defined.

End ImportAccounting.

(** ** The handlers of the facade and the store *)

Section HandlerFacts.
Import JsString JsArray Contacto Host ContactoClass ContactRepository Stored.
Import ContactFacadeUI Reading.

Lemma mapM_getTimeAgo cs : forall w,
  exists r w', mapM getTimeAgo cs w = (Ok r, w') /\ same_store w w'.
Proof.
  induction cs as [|c cs IH]; intros w; simpl.
  - exists [], w. split; reflexivity.
  - unfold bind at 1. unfold getTimeAgo at 1. unfold bind at 1, Date_now at 1.
    unfold ret at 1. unfold bind at 1.
    destruct (IH (tick w)) as (r & w' & E & S). unfold tick in E. rewrite E.
    eexists. eexists. split; [reflexivity | exact S].
Qed.

Lemma renderContactList_quiet p cs w :
  exists w', renderContactList p cs w = (Ok tt, w') /\ same_store w w'.
Proof.
  unfold renderContactList. destruct (has_list p); simpl;
    [|exists w; split; reflexivity].
  destruct cs as [|c cs]; [exists w; split; reflexivity|].
  destruct (mapM_getTimeAgo (c :: cs) w) as (r & w' & E & S).
  unfold bind. rewrite E. eexists. split; [reflexivity | exact S].
Qed.

Lemma listarContactos_holds p w l :
  holds w l -> forallb well_formed l = true ->
  exists w', listarContactos p w = (Ok tt, w') /\ same_store w w'.
Proof.
  intros H Hl. unfold listarContactos, try_catch, bind.
  rewrite (getAll_holds w l H Hl).
  destruct (renderContactList_quiet p (map read l) w) as (w' & E & S).
  rewrite E. eexists. split; [reflexivity | exact S].
Qed.

(** Listing and then refreshing the statistics, as the handlers do after
    a change, leaves the store as it is. *)
Lemma refresh_holds p w l :
  holds w l -> forallb well_formed l = true ->
  exists w', bind (listarContactos p) (fun _ => ContactFacade.updateStorageStats) w
             = (Ok tt, w') /\ holds w' l.
Proof.
  intros H Hl. unfold bind.
  destruct (listarContactos_holds p w l H Hl) as (w1 & E1 & S1).
  rewrite E1.
  pose proof (same_store_holds _ _ _ S1 H) as H1.
  destruct (updateStorageStats_holds w1 l H1 Hl) as (w2 & E2 & S2).
  rewrite E2. eexists. split; [reflexivity|].
  now apply (same_store_holds w1).
Qed.

(** X21.  [eliminarContacto] changes the store only when the user confirms and
    a stored record has the identifier; the store then loses the first
    record that has it.  The handler itself never throws. *)
Theorem eliminarContacto_store (p : Page) (i : string) (w : World)
    (l : list ContactData) :
  holds w l -> forallb well_formed l = true ->
  fst (eliminarContacto p i w) = Ok tt
  /\ holds (snd (eliminarContacto p i w))
       (if confirms p && has_id i l then without i l else l).
Proof.
  intros H Hl.
  enough (exists w', eliminarContacto p i w = (Ok tt, w')
            /\ holds w' (if confirms p && has_id i l then without i l else l))
    as (w' & E & Hh) by (rewrite E; split; [reflexivity | exact Hh]).
  unfold eliminarContacto, try_catch.
  destruct (confirms p); simpl; [|exists w; split; [reflexivity | exact H]].
  unfold bind at 1. destruct (has_id i l) eqn:Hd.
  - assert (Hi : index_of i l <> -1).
    { intros Hi. apply index_of_has_id in Hi. congruence. }
    rewrite (remove_found i w l H Hl Hi).
    set (w1 := say Log "Contacto eliminado:" _).
    assert (H1 : holds w1 (without i l)) by reflexivity.
    assert (Hl1 : forallb well_formed (without i l) = true)
      by now apply forallb_delete.
    destruct (refresh_holds p w1 _ H1 Hl1) as (w2 & E2 & H2).
    rewrite E2. eexists. split; [reflexivity | exact H2].
  - apply index_of_has_id in Hd.
    rewrite (remove_missing i w l H Hl Hd). eexists.
    split; [reflexivity | exact H].
Qed.

Lemma eliminarContacto_store_witness :
  let p := mkPage true true in
  fst (eliminarContacto p "contact_1_a" Sample2.stocked) = Ok tt
  /\ holds (snd (eliminarContacto p "contact_1_a" Sample2.stocked))
       (if confirms p && has_id "contact_1_a" Sample.two
        then without "contact_1_a" Sample.two else Sample.two).
Proof.
  apply (eliminarContacto_store (mkPage true true) "contact_1_a"
           Sample2.stocked Sample.two); reflexivity.
Defined.



(** X23.  [handleFormSubmit] swallows what [guardarContacto] throws, and stores
    what [guardarContacto] stores: one more record when the form data are
    valid and neither their email nor their identifier is stored, and
    nothing otherwise. *)
Theorem handleFormSubmit_store (p : Page) (d : ContactData) (w : World)
    (l : list ContactData) :
  holds w l -> forallb well_formed l = true ->
  fst (handleFormSubmit p d w) = Ok tt
  /\ holds (snd (handleFormSubmit p d w)) (snd (outcome (candidate d w) l)).
Proof.
  intros H Hl.
  enough (exists w', handleFormSubmit p d w = (Ok tt, w')
            /\ holds w' (snd (outcome (candidate d w) l)))
    as (w' & E & Hh) by (rewrite E; split; [reflexivity | exact Hh]).
  unfold handleFormSubmit, try_catch. unfold bind at 1.
  destruct (guardarContacto_run d w l H Hl) as (w1 & E & H1).
  pose proof (guardarContacto_saved d w l H Hl) as Sv.
  rewrite E in *. cbn [fst snd] in *.
  destruct (fst (outcome (candidate d w) l)) as [b|e] eqn:Eo;
    [|eexists; split; [reflexivity | exact H1]].
  assert (Hb : b = true).
  { unfold outcome in Eo.
    destruct (isValid _); [|discriminate].
    destruct (has_email _ _); [discriminate|].
    destruct (has_id _ _); [discriminate|]. simpl in Eo. congruence. }
  subst b. destruct (Sv eq_refl) as (_ & H1' & Hl1).
  destruct (listarContactos_holds p w1 _ H1' Hl1) as (w2 & E2 & S2).
  rewrite E2. eexists. split; [reflexivity|].
  now apply (same_store_holds w1).
Qed.

Lemma handleFormSubmit_store_witness :
  let p := mkPage true true in
  fst (handleFormSubmit p Sample.ana Sample2.stocked) = Ok tt
  /\ holds (snd (handleFormSubmit p Sample.ana Sample2.stocked))
       (snd (outcome (candidate Sample.ana Sample2.stocked) Sample.two)).
Proof.
  apply (handleFormSubmit_store (mkPage true true) Sample.ana Sample2.stocked
           Sample.two); reflexivity.
Defined.

End HandlerFacts.

(** ** The framework-free repositories *)

Section SinMoreFacts.
Import JsArray SinFramework SinStored SinMore.

(** The in-memory repository never touches the item under the key. *)
Theorem memory_never_stores (s : State) (c : Contacto) (i : JsId) :
  localStorage (snd (Memory.constructor s)) = localStorage s
  /\ localStorage (snd (Memory.getAll s)) = localStorage s
  /\ localStorage (snd (Memory.getById i s)) = localStorage s
  /\ localStorage (snd (Memory.add c s)) = localStorage s
  /\ localStorage (snd (Memory.update c s)) = localStorage s
  /\ localStorage (snd (Memory.remove i s)) = localStorage s
  /\ localStorage (snd (Memory.clear s)) = localStorage s.
Proof.
  repeat split; try reflexivity.
  - unfold Memory.update, Memory.indiceElemento, bind, assign_undeclared.
    destruct (declared s "indice"); [|reflexivity].
    destruct (declared s "i"); [|reflexivity]. simpl.
    destruct (declared s "indice"); [|reflexivity].
    destruct (0 <? _); reflexivity.
  - unfold Memory.remove, Memory.indiceElemento, bind, assign_undeclared.
    destruct (declared s "indice"); [|reflexivity].
    destruct (declared s "i"); [|reflexivity]. simpl.
    destruct (declared s "indice"); [|reflexivity].
    destruct (0 <? _); reflexivity.
Qed.

(** X24.  [remove] of the in-memory repository, on a page that declares the
    globals: when the identifier is found at an index above 0, the record
    at index 1 is the one removed, whichever index that was; found at
    index 0 or not found, nothing is removed. *)
Theorem memory_remove_spec (i : JsId) (s : State) :
  globals s ->
  fst (Memory.remove i s) = Ok tt
  /\ repo (snd (Memory.remove i s))
     = if 0 <? strict_index i (repo s) then delete 1%nat (repo s) else repo s.
Proof.
  intros [G1 G2].
  unfold Memory.remove, Memory.indiceElemento, bind, assign_undeclared,
    strict_index.
  rewrite G1, G2. simpl. rewrite G1.
  destruct (0 <? _); split; reflexivity.
Qed.

Lemma memory_remove_spec_witness :
  let s := Sample.state None [Sample.rosa; Sample.raul; Sample.sara] true in
  fst (Memory.remove (id Sample.sara) s) = Ok tt
  /\ repo (snd (Memory.remove (id Sample.sara) s))
     = if 0 <? strict_index (id Sample.sara) (repo s)
       then delete 1%nat (repo s) else repo s.
Proof.
  intros s. apply (memory_remove_spec (id Sample.sara) s). split; reflexivity.
Defined.

Lemma cargar_any s :
  (exists l, cargarAlmacenamiento s = (Ok tt, with_repo l s))
  \/ (exists e, cargarAlmacenamiento s = (Throw e, s)).
Proof.
  unfold cargarAlmacenamiento, bind, getItem, parse_or_empty.
  destruct (localStorage s) as [[[|a raw]|l0]|]; simpl; eauto.
Qed.

Lemma v1_indice_undeclared i s :
  declared s "indice" = false ->
  exists e s', StorageV1.indiceElemento i s = (Throw e, s')
               /\ localStorage s' = localStorage s.
Proof.
  intros G. unfold StorageV1.indiceElemento. unfold bind at 1.
  destruct (cargar_any s) as [[l E]|[e E]]; rewrite E.
  - unfold bind, assign_undeclared. simpl. rewrite G. eauto.
  - eauto.
Qed.

(** X25.  On a page that does not declare [indice], [update] and [remove] of
    the first two variants throw and change neither the array of the
    in-memory repository nor the item under the key. *)
Theorem undeclared_globals_throw (c : Contacto) (i : JsId) (s : State) :
  declared s "indice" = false ->
  Memory.update c s = (Throw (ReferenceError "indice is not defined"), s)
  /\ Memory.remove i s = (Throw (ReferenceError "indice is not defined"), s)
  /\ (exists e s', StorageV1.update c s = (Throw e, s')
                   /\ localStorage s' = localStorage s)
  /\ (exists e s', StorageV1.remove i s = (Throw e, s')
                   /\ localStorage s' = localStorage s).
Proof.
  intros G. split; [|split; [|split]].
  - unfold Memory.update, Memory.indiceElemento, bind, assign_undeclared.
    now rewrite G.
  - unfold Memory.remove, Memory.indiceElemento, bind, assign_undeclared.
    now rewrite G.
  - unfold StorageV1.update. unfold bind at 1.
    destruct (cargar_any s) as [[l E]|[e E]]; rewrite E; [|eauto].
    unfold bind at 1.
    destruct (v1_indice_undeclared (id c) (with_repo l s) G) as (e & s' & E' & L).
    rewrite E'. eauto.
  - unfold StorageV1.remove. unfold bind at 1.
    destruct (cargar_any s) as [[l E]|[e E]]; rewrite E; [|eauto].
    unfold bind at 1.
    destruct (v1_indice_undeclared i (with_repo l s) G) as (e & s' & E' & L).
    rewrite E'. eauto.
Qed.

Lemma undeclared_globals_throw_witness :
  let s := Sample.state None [Sample.rosa; Sample.raul] false in
  Memory.update Sample.raul_edited s
  = (Throw (ReferenceError "indice is not defined"), s)
  /\ Memory.remove (id Sample.raul) s
     = (Throw (ReferenceError "indice is not defined"), s)
  /\ (exists e s', StorageV1.update Sample.raul_edited s = (Throw e, s')
                   /\ localStorage s' = localStorage s)
  /\ (exists e s', StorageV1.remove (id Sample.raul) s = (Throw e, s')
                   /\ localStorage s' = localStorage s).
Proof.
  intros s.
  apply (undeclared_globals_throw Sample.raul_edited (id Sample.raul) s).
  reflexivity.
Defined.

Lemma v1_cargar s l : holds s l -> cargarAlmacenamiento s = (Ok tt, with_repo l s).
Proof.
  intros H. unfold cargarAlmacenamiento, bind, getItem. rewrite H. reflexivity.
Qed.

Lemma v1_remove_run i s l :
  holds s l -> globals s ->
  StorageV1.remove i s
  = (Ok (0 <? strict_index i l),
     if 0 <? strict_index i l then saved (delete 1%nat l) s
     else with_repo l s).
Proof.
  intros H [G1 G2].
  unfold StorageV1.remove, StorageV1.indiceElemento, bind.
  rewrite (v1_cargar s l H).
  rewrite (v1_cargar (with_repo l s) l H).
  unfold assign_undeclared, strict_index, with_repo. cbn [declared].
  rewrite G1. cbn. rewrite G2. cbn. rewrite G1.
  destruct (0 <? _); reflexivity.
Qed.

(** X26.  [remove] of part_000, on a page that declares the globals: it
    answers [true] exactly when the identifier is found at an index above
    0, and what it then deletes from the store is the record at index 1,
    whichever index that was. *)
Theorem v1_remove_spec (i : JsId) (s : State) (l : list Contacto) :
  holds s l -> globals s ->
  fst (StorageV1.remove i s) = Ok (0 <? strict_index i l)
  /\ collection (snd (StorageV1.remove i s))
     = if 0 <? strict_index i l then delete 1%nat l else l.
Proof.
  intros H G. rewrite (v1_remove_run i s l H G).
  split; [reflexivity|]. cbn [snd].
  destruct (0 <? _); [reflexivity|].
  unfold collection, with_repo. cbn [localStorage]. now rewrite H.
Qed.

Lemma v1_remove_spec_witness :
  let l := [Sample.rosa; Sample.raul; Sample.sara] in
  let s := Sample.state (Some (JsonArray l)) [] true in
  fst (StorageV1.remove (id Sample.sara) s)
  = Ok (0 <? strict_index (id Sample.sara) l)
  /\ collection (snd (StorageV1.remove (id Sample.sara) s))
     = if 0 <? strict_index (id Sample.sara) l then delete 1%nat l else l.
Proof.
  intros l s.
  apply (v1_remove_spec (id Sample.sara) s l); [reflexivity|].
  split; reflexivity.
Defined.

Lemma strict_eq_String a b : strict_eq a b = true -> String_ a = String_ b.
Proof.
  destruct a, b; simpl; try discriminate.
  - intros E. apply Z.eqb_eq in E. now subst.
  - intros E. now apply String.eqb_eq in E.
Qed.

Lemma numeric_no_string a l :
  forallb numeric l = true -> strict_index (IdStr a) l = -1.
Proof.
  intros N. apply findIndex_none.
  induction l as [|c l IH]; [reflexivity|].
  simpl in N. apply andb_true_iff in N as [Nc N]. simpl.
  rewrite (IH N). unfold numeric in Nc. now destruct (id c).
Qed.

(** X27.  The page asks for a removal with the text of the attribute [data-id].
    The comparison of part_001 converts both sides with [String], so the
    text removes what the number removes; the comparison of part_000 is
    [===], so the text never removes a record whose identifier is a
    number. *)
Theorem remove_by_attribute (i : JsId) (a : string) (s : State)
    (l : list Contacto) :
  holds s l -> globals s -> forallb numeric l = true ->
  Storage.remove (IdStr (String_ i)) s = Storage.remove i s
  /\ StorageV1.remove (IdStr a) s = (Ok false, with_repo l s).
Proof.
  intros H G N. split; [reflexivity|].
  rewrite (v1_remove_run (IdStr a) s l H G), (numeric_no_string a l N).
  reflexivity.
Qed.

Lemma remove_by_attribute_witness :
  let l := [Sample.rosa; Sample.raul] in
  let s := Sample.state (Some (JsonArray l)) [] true in
  Storage.remove (IdStr (String_ (id Sample.raul))) s
  = Storage.remove (id Sample.raul) s
  /\ StorageV1.remove (IdStr "1700000000002") s = (Ok false, with_repo l s).
Proof.
  intros l s.
  apply (remove_by_attribute (id Sample.raul) "1700000000002" s l);
    [reflexivity | split; reflexivity | reflexivity].
Defined.

(** X28.  [update] of part_001 answers [true] exactly when a record with the
    identifier is stored at an index above 0; the record at that index is
    then replaced by the one given, with the creation instant of the
    record it replaces.  A record stored first is never updated. *)
Theorem sin_update_spec (c : Contacto) (s : State) (l : list Contacto) :
  holds s l ->
  let idx := index_of (id c) l in
  fst (Storage.update c s) = Ok (0 <? idx)
  /\ collection (snd (Storage.update c s))
     = match l !! Z.to_nat idx with
       | Some old =>
           if 0 <? idx
           then <[Z.to_nat idx := set_fechaCreacion c (fechaCreacion old)]> l
           else l
       | None => l
       end.
Proof.
  intros H idx.
  assert (Hl : collection (with_repo l s) = l).
  { unfold collection, with_repo. cbn [localStorage]. now rewrite H. }
  destruct (0 <? idx) eqn:E.
  - apply Z.ltb_lt in E.
    destruct (findIndex_lookup (fun x => String.eqb (String_ (id x)) (String_ (id c))) l)
      as (old & Ho & _); [fold (index_of (id c) l); fold idx; lia|].
    fold (index_of (id c) l) in Ho. fold idx in Ho.
    rewrite (sin_update_found c s l old H E Ho). fold idx. rewrite Ho.
    split; reflexivity.
  - apply Z.ltb_ge in E. rewrite (sin_update_low c s l H E).
    split; [reflexivity|]. cbn [snd]. rewrite Hl. now destruct (l !! _).
Qed.

Lemma sin_update_spec_witness :
  let l := [Sample.rosa; Sample.raul] in
  let s := Sample.state (Some (JsonArray l)) [] true in
  let idx := index_of (id Sample.raul_edited) l in
  fst (Storage.update Sample.raul_edited s) = Ok (0 <? idx)
  /\ collection (snd (Storage.update Sample.raul_edited s))
     = match l !! Z.to_nat idx with
       | Some old =>
           if 0 <? idx
           then <[Z.to_nat idx := set_fechaCreacion Sample.raul_edited
                                    (fechaCreacion old)]> l
           else l
       | None => l
       end.
Proof.
  intros l s. apply (sin_update_spec Sample.raul_edited s l). reflexivity.
Defined.

Lemma cargar_both r s :
  (exists l, cargarAlmacenamiento s = (Ok tt, with_repo l s)
             /\ cargarAlmacenamiento (with_repo r s) = (Ok tt, with_repo l s))
  \/ (exists e, cargarAlmacenamiento s = (Throw e, s)
                /\ cargarAlmacenamiento (with_repo r s) = (Throw e, with_repo r s)).
Proof.
  assert (L : localStorage (with_repo r s) = localStorage s) by reflexivity.
  unfold cargarAlmacenamiento, bind, getItem. rewrite L.
  destruct (localStorage s) as [[[|a raw]|l0]|] eqn:E; simpl.
  - left. exists []. split; reflexivity.
  - right. eexists. split; reflexivity.
  - left. exists l0. split; reflexivity.
  - left. exists []. split; reflexivity.
Qed.

Lemma agree_after_cargar {A} (k : M A) s :
  agree (bind cargarAlmacenamiento (fun _ => k)) s.
Proof.
  intros r. unfold bind.
  destruct (cargar_both r s) as [(l & E1 & E2)|(e & E1 & E2)];
    rewrite E1, E2; split; reflexivity.
Qed.

(** The repository object of part_001 keeps nothing between calls: every
    method starts from the item under the key, so what it answers and what
    it stores do not depend on the array the object held before. *)
Theorem sin_methods_reload (c : Contacto) (i : JsId) (s : State) :
  agree Storage.getAll s /\ agree (Storage.getById i) s
  /\ agree (Storage.add c) s /\ agree (Storage.update c) s
  /\ agree (Storage.remove i) s /\ agree Storage.clear s.
Proof.
  repeat split; try apply agree_after_cargar.
Qed.

(** X29.  When the text under the key does not parse, every reading and writing
    method of part_001 throws a [SyntaxError] and leaves the text; only
    [clear] goes through, and after it the collection reads as empty. *)
Theorem sin_unparseable (c : Contacto) (i : JsId) (s : State) (a : ascii)
    (raw : string) :
  localStorage s = Some (Unparseable (String a raw)) ->
  exists e, name e = "SyntaxError"
    /\ Storage.getAll s = (Throw e, s)
    /\ Storage.getById i s = (Throw e, s)
    /\ Storage.add c s = (Throw e, s)
    /\ Storage.update c s = (Throw e, s)
    /\ Storage.remove i s = (Throw e, s)
    /\ fst (Storage.clear s) = Ok tt
    /\ fst (Storage.getAll (snd (Storage.clear s))) = Ok [].
Proof.
  intros H.
  assert (E : cargarAlmacenamiento s = (Throw (SyntaxError "Unexpected token"), s)).
  { unfold cargarAlmacenamiento, bind, getItem. now rewrite H. }
  eexists. split; [|repeat split].
  2-6: unfold Storage.getAll, Storage.getById, Storage.add, Storage.update,
         Storage.remove; unfold bind at 1; rewrite E; reflexivity.
  all: reflexivity.
Qed.

Lemma sin_unparseable_witness :
  let s := Sample.state (Some (Unparseable "[{")) [] true in
  exists e, name e = "SyntaxError"
    /\ Storage.getAll s = (Throw e, s)
    /\ Storage.getById (id Sample.rosa) s = (Throw e, s)
    /\ Storage.add Sample.rosa s = (Throw e, s)
    /\ Storage.update Sample.rosa s = (Throw e, s)
    /\ Storage.remove (id Sample.rosa) s = (Throw e, s)
    /\ fst (Storage.clear s) = Ok tt
    /\ fst (Storage.getAll (snd (Storage.clear s))) = Ok [].
Proof.
  intros s.
  apply (sin_unparseable Sample.rosa (id Sample.rosa) s "["%char "{").
  reflexivity.
Defined.

Lemma findIndex_app_last {A} (p : A -> bool) l x :
  findIndex p l = -1 -> p x = true ->
  findIndex p (l ++ [x]) = Z.of_nat (length l).
Proof.
  intros Hn Px. apply findIndex_none in Hn.
  apply (findIndex_first p (l ++ [x]) (length l) x).
  - rewrite lookup_app_r by lia. now rewrite Nat.sub_diag.
  - exact Px.
  - rewrite take_app_length. exact Hn.
Qed.

Lemma find_append {A} (p : A -> bool) l l' :
  find p (l ++ l') = match find p l with Some x => Some x | None => find p l' end.
Proof.
  induction l as [|x l IH]; simpl; [reflexivity|].
  destruct (p x); [reflexivity | exact IH].
Qed.

Lemma find_strict_none i l :
  index_of i l = -1 -> find (fun c => strict_eq (id c) i) l = None.
Proof.
  intros Hn. apply findIndex_none in Hn.
  induction l as [|c l IH]; [reflexivity|].
  simpl in Hn. apply orb_false_iff in Hn as [Hc Hn]. simpl.
  destruct (strict_eq (id c) i) eqn:E; [|now apply IH].
  apply strict_eq_String in E. apply String.eqb_neq in Hc. congruence.
Qed.

(** X30.  Saving through the facade of part_001 and removing again: when no
    stored record has the instant of the clock as identifier,
    [guardarContacto] appends one record with that number as identifier;
    [getById] finds it by the number and not by its text; and
    [eliminarContacto] with the text, as the page calls it, answers
    [true] and leaves the store as it was before the save. *)
Theorem sin_guardar_eliminar (f : Storage.Formulario) (s : State)
    (l : list Contacto) :
  holds s l ->
  let now := clock s (ticks s) in
  index_of (IdNum now) l = -1 ->
  exists c s1,
    Storage.guardarContacto f s = (Ok c, s1)
    /\ id c = IdNum now /\ holds s1 (l ++ [c])
    /\ fst (Storage.getById (IdNum now) s1) = Ok (Some c)
    /\ fst (Storage.getById (IdStr (decimal now)) s1) = Ok None
    /\ fst (Storage.eliminarContacto (IdStr (decimal now)) s1) = Ok true
    /\ holds (snd (Storage.eliminarContacto (IdStr (decimal now)) s1)) l.
Proof.
  intros H now Hn.
  unfold Storage.guardarContacto, bind, Date_now.
  set (c := mkContacto _ _ _ _ _ _ _ _ _ _).
  set (s0 := mkState _ _ _ _ _).
  assert (H0 : holds s0 l) by exact H.
  rewrite (sin_add_holds c s0 l H0). unfold ret.
  exists c, (saved (l ++ [c]) s0).
  assert (H1 : holds (saved (l ++ [c]) s0) (l ++ [c])) by reflexivity.
  split; [reflexivity|]. split; [reflexivity|]. split; [exact H1|].
  assert (F : find (fun x => strict_eq (id x) (IdNum now)) l = None)
    by now apply find_strict_none.
  assert (F' : find (fun x => strict_eq (id x) (IdStr (decimal now))) l = None)
    by now apply find_strict_none.
  split; [|split].
  - unfold Storage.getById, bind.
    rewrite (cargarAlmacenamiento_holds _ _ H1). simpl.
    unfold ret. cbn [fst]. rewrite find_append, F. simpl.
    now rewrite Z.eqb_refl.
  - unfold Storage.getById, bind.
    rewrite (cargarAlmacenamiento_holds _ _ H1). simpl.
    unfold ret. cbn [fst]. now rewrite find_append, F'.
  - assert (I : index_of (IdStr (decimal now)) (l ++ [c]) = Z.of_nat (length l)).
    { apply findIndex_app_last; [exact Hn | apply String.eqb_refl]. }
    unfold Storage.eliminarContacto.
    rewrite (sin_remove_found _ _ (l ++ [c]) H1) by (rewrite I; lia).
    rewrite I, Nat2Z.id. split; [reflexivity|]. cbn [snd].
    unfold holds, saved. cbn [localStorage]. do 2 f_equal.
    clear. induction l as [|x l IH]; [reflexivity|]. simpl. now rewrite IH.
Qed.

Lemma sin_guardar_eliminar_witness :
  let l := [Sample.rosa; Sample.raul] in
  let s := Sample.state (Some (JsonArray l)) [] true in
  let now := clock s (ticks s) in
  exists c s1,
    Storage.guardarContacto Sample.formulario s = (Ok c, s1)
    /\ id c = IdNum now /\ holds s1 (l ++ [c])
    /\ fst (Storage.getById (IdNum now) s1) = Ok (Some c)
    /\ fst (Storage.getById (IdStr (decimal now)) s1) = Ok None
    /\ fst (Storage.eliminarContacto (IdStr (decimal now)) s1) = Ok true
    /\ holds (snd (Storage.eliminarContacto (IdStr (decimal now)) s1)) l.
Proof.
  intros l s.
  apply (sin_guardar_eliminar Sample.formulario s l); reflexivity.
Defined.

End SinMoreFacts.
